(** * svitlo-watcher: the ESP32 WiFi API poller of [src/main.cpp]

    A model of the firmware's control logic: the LED pins, the two request
    counters, the LED mutex, the WiFi supervision functions and the parallel
    poll cycle with its FreeRTOS request tasks.

    Conventions.
    - An [int] is a [Z] kept in the 32-bit signed range by [int_wrap]; an
      [unsigned long] is a [Z] kept in the range of [ulong_wrap].
    - What the firmware reads from its surroundings (the WiFi status, the
      clock, the result of an HTTP exchange, the order in which the scheduler
      runs the request tasks) is an argument of the function that reads it.
    - What the firmware does to its surroundings (serial lines, pin writes,
      delays, semaphore operations, task creation) is appended to the [trace]
      of the state, together with a mark for every access to one of the two
      shared counters.
    - The constants of the Arduino libraries ([WL_CONNECTED], [HTTP_CODE_OK],
      the [HTTPC_ERROR_*] codes) are not part of this repository; they are
      variables of the section. *)

From Stdlib Require Import String ZArith List Bool Lia Permutation.
Import ListNotations.
Open Scope Z_scope.

(** ** Machine integers *)

Definition INT_MIN : Z := -2147483648.
Definition INT_MAX : Z := 2147483647.

(** Two's complement wrap-around of a 32-bit [int]. *)
Definition int_wrap (z : Z) : Z := (z + 2147483648) mod 4294967296 - 2147483648.

(** Wrap-around of a 32-bit [unsigned long]. *)
Definition ulong_wrap (z : Z) : Z := z mod 4294967296.

Definition in_int (z : Z) : Prop := INT_MIN <= z <= INT_MAX.

(** ** Configuration (main.cpp, lines 12-26) *)

Definition BLUE_LED_PIN : Z := 2.
Definition RED_LED_PIN : Z := 13.
Definition POLL_INTERVAL_MS : Z := 30000.
Definition HTTP_TIMEOUT_MS : Z := 5000.
Definition WIFI_RECONNECT_DELAY_MS : Z := 5000.

(** [NUM_ENDPOINTS = sizeof(API_ENDPOINTS) / sizeof(API_ENDPOINTS[0])]. *)
Definition NUM_ENDPOINTS (API_ENDPOINTS : list string) : Z :=
  Z.of_nat (length API_ENDPOINTS).

(** ** Observable events *)

Inductive level : Type := LOW | HIGH.

Inductive counter : Type := ActiveRequests | FailedRequests.

(** One constructor per line the firmware prints. *)
Inductive message : Type :=
| MsgBanner                  (* the boot banner and configuration lines *)
| MsgConnecting              (* Connecting to WiFi: <ssid> *)
| MsgDot                     (* . *)
| MsgWiFiConnected           (* WiFi connected successfully! and addresses *)
| MsgWiFiFailed              (* WiFi connection failed! Will retry ... *)
| MsgWiFiLost                (* WiFi connection lost! Attempting to ... *)
| MsgWiFiReconnected         (* WiFi reconnected successfully! *)
| MsgCannotPoll              (* Cannot poll endpoints - WiFi not connected *)
| MsgCycleStart              (* Starting PARALLEL API poll cycle *)
| MsgLaunched (i n : Z) (url : string)
                             (* [i/n] Launched task for: <url> *)
| MsgCycleFailed (n : Z)     (* Poll cycle complete - <n> request(s) failed *)
| MsgCycleOk                 (* Poll cycle complete - All requests successful *)
| MsgInitFailed (index : Z)  (* [index] Failed to initialize HTTP client *)
| MsgSending (index : Z)     (* [index] Sending GET request... *)
| MsgResponseCode (index code : Z)
                             (* [index] Response code: <code> *)
| MsgSuccess (index len : Z) (* [index] Success! Response length: <len> bytes *)
| MsgHttpError (index code : Z)
                             (* [index] HTTP error code: <code> *)
| MsgRequestFailed (index code : Z)
                             (* [index] Request failed: <errorToString(code)> *)
| MsgRefused (index : Z)     (* [index]   -> Connection refused by server *)
| MsgConnLost (index : Z)    (* [index]   -> Connection lost during request *)
| MsgReadTimeout (index : Z). (* [index]   -> Read timeout exceeded *)

Inductive event : Type :=
| Serial (m : message)
| DigitalWrite (pin : Z) (v : level)
| Delay (ms : Z)
| WiFiBegin
| SemaphoreTake
| SemaphoreGive
| CounterRead (c : counter)
| CounterWrite (c : counter)
| TaskCreate (index : Z)
| TaskDelete.

(** ** Program state (main.cpp, lines 32-35 and 167-168, and the two pins) *)

Record state : Type := mkState {
  lastPollTime : Z;
  ledMutex : option nat;       (* the task holding the mutex, [None] when free *)
  activeRequests : Z;
  failedRequests : Z;
  lastCheckTime : Z;           (* static of checkWiFiConnection *)
  wasConnected : bool;         (* static of checkWiFiConnection *)
  red_led : level;             (* output level of RED_LED_PIN *)
  blue_led : level;            (* output level of BLUE_LED_PIN *)
  trace : list event           (* oldest event first *)
}.

Definition set_lastPollTime (v : Z) (s : state) : state :=
  mkState v (ledMutex s) (activeRequests s) (failedRequests s) (lastCheckTime s)
          (wasConnected s) (red_led s) (blue_led s) (trace s).
Definition set_ledMutex (v : option nat) (s : state) : state :=
  mkState (lastPollTime s) v (activeRequests s) (failedRequests s) (lastCheckTime s)
          (wasConnected s) (red_led s) (blue_led s) (trace s).
Definition set_activeRequests (v : Z) (s : state) : state :=
  mkState (lastPollTime s) (ledMutex s) v (failedRequests s) (lastCheckTime s)
          (wasConnected s) (red_led s) (blue_led s) (trace s).
Definition set_failedRequests (v : Z) (s : state) : state :=
  mkState (lastPollTime s) (ledMutex s) (activeRequests s) v (lastCheckTime s)
          (wasConnected s) (red_led s) (blue_led s) (trace s).
Definition set_lastCheckTime (v : Z) (s : state) : state :=
  mkState (lastPollTime s) (ledMutex s) (activeRequests s) (failedRequests s) v
          (wasConnected s) (red_led s) (blue_led s) (trace s).
Definition set_wasConnected (v : bool) (s : state) : state :=
  mkState (lastPollTime s) (ledMutex s) (activeRequests s) (failedRequests s)
          (lastCheckTime s) v (red_led s) (blue_led s) (trace s).
Definition set_red_led (v : level) (s : state) : state :=
  mkState (lastPollTime s) (ledMutex s) (activeRequests s) (failedRequests s)
          (lastCheckTime s) (wasConnected s) v (blue_led s) (trace s).
Definition set_blue_led (v : level) (s : state) : state :=
  mkState (lastPollTime s) (ledMutex s) (activeRequests s) (failedRequests s)
          (lastCheckTime s) (wasConnected s) (red_led s) v (trace s).

(** Append one event to the trace. *)
Definition emit (e : event) (s : state) : state :=
  mkState (lastPollTime s) (ledMutex s) (activeRequests s) (failedRequests s)
          (lastCheckTime s) (wasConnected s) (red_led s) (blue_led s)
          (trace s ++ [e]).

(** ** Arduino primitives *)

Definition serial (m : message) (s : state) : state := emit (Serial m) s.

Definition delay (ms : Z) (s : state) : state := emit (Delay ms) s.

Definition digitalWrite (pin : Z) (v : level) (s : state) : state :=
  let s := emit (DigitalWrite pin v) s in
  if pin =? RED_LED_PIN then set_red_led v s
  else if pin =? BLUE_LED_PIN then set_blue_led v s
  else s.

(** ** LED functions (main.cpp, lines 390-397) *)

Fixpoint blink_loop (n : nat) (delayMs : Z) (s : state) : state :=
  match n with
  | O => s
  | S n' =>
      let s := digitalWrite BLUE_LED_PIN HIGH s in
      let s := delay delayMs s in
      let s := digitalWrite BLUE_LED_PIN LOW s in
      let s := delay delayMs s in
      blink_loop n' delayMs s
  end.

(** [for (int i = 0; i < times; i++)]: the body runs [times] times, and not at
    all when [times <= 0]. *)
Definition blinkBlueLED (times delayMs : Z) (s : state) : state :=
  blink_loop (Z.to_nat times) delayMs s.

(** ** Straight-line task code

    A FreeRTOS task is preempted between any two of its statements.  The
    statements that touch the shared state (the serial port, the pins, the
    mutex, the two counters) are the instructions below; the code of a task is
    a list of them, run one at a time. *)

Inductive instr : Type :=
| ISerial (m : message)      (* Serial.print / Serial.println *)
| ITake                      (* xSemaphoreTake(ledMutex, portMAX_DELAY) *)
| IGive                      (* xSemaphoreGive(ledMutex) *)
| IDigitalWrite (pin : Z) (v : level)
                             (* digitalWrite(pin, v) *)
| IIfNoneFailed (pin : Z) (v : level)
                             (* if (failedRequests == 0) digitalWrite(pin, v) *)
| IFailedInc                 (* failedRequests++ *)
| IActiveDec                 (* activeRequests-- *)
| ITaskDelete.               (* vTaskDelete(NULL) *)

(** One statement of task [me].  [None]: the task is blocked (the mutex is
    taken; with [portMAX_DELAY] the call waits until it is given back). *)
Definition exec (me : nat) (i : instr) (s : state) : option state :=
  match i with
  | ISerial m => Some (serial m s)
  | ITake =>
      match ledMutex s with
      | None => Some (set_ledMutex (Some me) (emit SemaphoreTake s))
      | Some _ => None
      end
  | IGive => Some (set_ledMutex None (emit SemaphoreGive s))
  | IDigitalWrite pin v => Some (digitalWrite pin v s)
  | IIfNoneFailed pin v =>
      let s := emit (CounterRead FailedRequests) s in
      Some (if failedRequests s =? 0 then digitalWrite pin v s else s)
  | IFailedInc =>
      let s := emit (CounterRead FailedRequests) s in
      let s := emit (CounterWrite FailedRequests) s in
      Some (set_failedRequests (int_wrap (failedRequests s + 1)) s)
  | IActiveDec =>
      let s := emit (CounterRead ActiveRequests) s in
      let s := emit (CounterWrite ActiveRequests) s in
      Some (set_activeRequests (int_wrap (activeRequests s - 1)) s)
  | ITaskDelete => Some (emit TaskDelete s)
  end.

(** A task running on its own, from its first statement to its last. *)
Fixpoint run_code (me : nat) (code : list instr) (s : state) : option state :=
  match code with
  | [] => Some s
  | i :: rest =>
      match exec me i s with
      | Some s' => run_code me rest s'
      | None => None
      end
  end.

(** The created tasks: what is left to run of each, in creation order.  The
    task at position [k] has identity [S k]; identity [0] is the main task
    (setup and loop). *)
Abbreviation tasks := (list (list instr)).

Fixpoint set_task (k : nat) (code : list instr) (ts : tasks) : tasks :=
  match ts, k with
  | [], _ => []
  | _ :: ts', O => code :: ts'
  | t :: ts', S k' => t :: set_task k' code ts'
  end.

(** The scheduler lets task [k] run its next statement.  Nothing happens when
    the task is blocked, has finished or does not exist. *)
Definition step_task (k : nat) (c : tasks * state) : tasks * state :=
  match nth_error (fst c) k with
  | Some (i :: rest) =>
      match exec (S k) i (snd c) with
      | Some s' => (set_task k rest (fst c), s')
      | None => c
      end
  | _ => c
  end.

(** A time slice: the tasks named in [slice] run one statement each, in that
    order. *)
Definition run_tasks (slice : list nat) (c : tasks * state) : tasks * state :=
  fold_left (fun c k => step_task k c) slice c.

(** The result of one HTTP exchange, as the HTTPClient library reports it. *)
Record http_result : Type := mkHttp {
  begin_ok : bool;        (* http.begin *)
  httpCode : Z;           (* http.GET() *)
  payload_length : Z      (* http.getString().length() *)
}.

(** What one call of checkWiFiConnection reads. *)
Record check_input : Type := mkCheck {
  check_time : Z;            (* millis() *)
  check_status : Z;          (* WiFi.status() at line 175 *)
  check_polls : nat -> Z     (* WiFi.status() inside connectToWiFi *)
}.

(** What one call of pollEndpoints reads, and how its tasks are scheduled. *)
Record poll_input : Type := mkPoll {
  poll_status : Z;
  poll_http : nat -> http_result;
  poll_sched : list (list nat)
}.

(** The outcome of a worker, in the words of the specification (section 3). *)
Inductive outcome : Type :=
| Success
| HttpError (code : Z)
| TransportError (code : Z).

Definition MAX_ATTEMPTS : nat := 30.

(** ** Reading traces *)

(** Number of events of [l] that satisfy [p]. *)
Definition count (p : event -> bool) (l : list event) : nat :=
  List.length (filter p l).

Definition is_lost_edge (e : event) : bool :=
  match e with Serial MsgWiFiLost => true | _ => false end.

Definition is_reconnected_edge (e : event) : bool :=
  match e with Serial MsgWiFiReconnected => true | _ => false end.

Definition is_task_create (e : event) : bool :=
  match e with TaskCreate _ => true | _ => false end.

Definition is_delay (e : event) : bool :=
  match e with Delay _ => true | _ => false end.

(** The wait between two connection attempts, [delay(500)]. *)
Definition is_attempt_delay (e : event) : bool :=
  match e with Delay ms => ms =? 500 | _ => false end.

Definition is_counter_access (e : event) : bool :=
  match e with CounterRead _ | CounterWrite _ => true | _ => false end.



Definition is_red_write (e : event) : bool :=
  match e with DigitalWrite pin _ => pin =? RED_LED_PIN | _ => false end.

Definition is_blue_on (e : event) : bool :=
  match e with DigitalWrite pin HIGH => pin =? BLUE_LED_PIN | _ => false end.

(** The line with which a worker reports its result. *)
Definition is_result_line (e : event) : bool :=
  match e with
  | Serial (MsgSuccess _ _) | Serial (MsgHttpError _ _)
  | Serial (MsgRequestFailed _ _) => true
  | _ => false
  end.



(** The events added to the trace between [s] and a later state [s']. *)
Definition new_events (s s' : state) : list event :=
  skipn (List.length (trace s)) (trace s').

(** The wait loop of pollEndpoints is left when this holds (line 249). *)
Definition isComplete (s : state) : bool := negb (activeRequests s >? 0).

(** The events of [n] connection attempts. *)
Definition attempts (n : nat) : list event :=
  concat (repeat [Delay 500; Serial MsgDot] n).

(** The events of [n] pulses of the blue LED. *)
Definition pulses (n : nat) (delayMs : Z) : list event :=
  concat (repeat [DigitalWrite BLUE_LED_PIN HIGH; Delay delayMs;
                  DigitalWrite BLUE_LED_PIN LOW; Delay delayMs] n).

(** The longest code of a request task has nine statements. *)
Definition TASK_STEPS : nat := 9.

(** A schedule in which the request tasks run one after the other, in the
    order [order], each from its first statement to its last, once all of them
    are created: no task runs during the launch loop, and during each delay of
    the wait loop one task runs to its end. *)
Definition serial_schedule (n : nat) (order : list nat) : list (list nat) :=
  repeat [] n ++ map (fun k => repeat k TASK_STEPS) order.

(** [s] with the events [evs] appended to its trace. *)
Definition add_events (s : state) (evs : list event) : state :=
  mkState (lastPollTime s) (ledMutex s) (activeRequests s) (failedRequests s)
          (lastCheckTime s) (wasConnected s) (red_led s) (blue_led s)
          (trace s ++ evs).

(** The remaining-workers counter, the failed counter and the error LED. *)
Definition tally (s : state) : Z * Z * level :=
  (activeRequests s, failedRequests s, red_led s).

(** The statement writes no pin but the red LED. *)
Definition red_only (i : instr) : bool :=
  match i with
  | IDigitalWrite pin _ | IIfNoneFailed pin _ => pin =? RED_LED_PIN
  | _ => true
  end.

(** Number of connected-to-disconnected steps in the link states [obs], when
    the state before them was [was]. *)
Fixpoint lost_edges (was : bool) (obs : list bool) : nat :=
  match obs with
  | [] => O
  | o :: obs' => ((if was && negb o then 1 else 0) + lost_edges o obs')%nat
  end.

(** Number of disconnected-to-connected steps. *)
Fixpoint reconnected_edges (was : bool) (obs : list bool) : nat :=
  match obs with
  | [] => O
  | o :: obs' =>
      ((if negb was && o then 1 else 0) + reconnected_edges o obs')%nat
  end.

(** ** More ways to read traces *)

Definition is_wifi_begin (e : event) : bool :=
  match e with WiFiBegin => true | _ => false end.

Definition is_take_event (e : event) : bool :=
  match e with SemaphoreTake => true | _ => false end.

Definition is_give_event (e : event) : bool :=
  match e with SemaphoreGive => true | _ => false end.

Definition is_active_write (e : event) : bool :=
  match e with CounterWrite ActiveRequests => true | _ => false end.

Definition is_failed_write (e : event) : bool :=
  match e with CounterWrite FailedRequests => true | _ => false end.



(** One of the three lines that explain a failed request (lines 366-378). *)
Definition is_detail_line (e : event) : bool :=
  match e with
  | Serial (MsgRefused _) | Serial (MsgConnLost _)
  | Serial (MsgReadTimeout _) => true
  | _ => false
  end.

(** The line with which pollEndpoints starts: a cycle, or the refusal to poll. *)
Definition is_poll_line (e : event) : bool :=
  match e with
  | Serial MsgCycleStart | Serial MsgCannotPoll => true
  | _ => false
  end.

(** The events a request task can add to the trace. *)
Definition is_task_event (e : event) : bool :=
  match e with
  | Serial _ | DigitalWrite _ _ | SemaphoreTake | SemaphoreGive
  | CounterRead _ | CounterWrite _ | TaskDelete => true
  | Delay _ | WiFiBegin | TaskCreate _ => false
  end.

Definition is_held (s : state) : bool :=
  match ledMutex s with Some _ => true | None => false end.

(** The discipline of the mutex, read off a trace of all tasks together:
    takes and gives alternate, starting from [held], and the red LED is
    written only between a take and the next give.  The result is whether the
    mutex is held at the end, [None] when the discipline is broken. *)
Fixpoint exclusive (held : bool) (l : list event) : option bool :=
  match l with
  | [] => Some held
  | SemaphoreTake :: l' => if held then None else exclusive true l'
  | SemaphoreGive :: l' => if held then exclusive false l' else None
  | DigitalWrite pin _ :: l' =>
      if (pin =? RED_LED_PIN) && negb held then None else exclusive held l'
  | _ :: l' => exclusive held l'
  end.

(** ** Stages of a request task *)

(** Where a request task stands: before it takes the mutex, while it holds
    it, after it has given it back, and after its [activeRequests--]. *)
Inductive stage : Type := Before | Holding | Recording | Counted.

(** The stage after statement [i], for the statements a task may run in
    stage [q]. *)
Definition next_stage (q : stage) (i : instr) : option stage :=
  match q, i with
  | Before, ISerial _ => Some Before
  | Before, ITake => Some Holding
  | Holding, IDigitalWrite _ _ => Some Holding
  | Holding, IIfNoneFailed _ _ => Some Holding
  | Holding, IGive => Some Recording
  | Recording, ISerial _ => Some Recording
  | Recording, IFailedInc => Some Recording
  | Recording, IActiveDec => Some Counted
  | Counted, ITaskDelete => Some Counted
  | _, _ => None
  end.

(** [code] is what is left of a request task that stands in stage [q]. *)
Fixpoint follows (q : stage) (code : list instr) : bool :=
  match code with
  | [] => match q with Counted => true | _ => false end
  | i :: rest =>
      match next_stage q i with
      | Some q' => follows q' rest
      | None => false
      end
  end.

Definition is_take (i : instr) : bool :=
  match i with ITake => true | _ => false end.

Definition is_give (i : instr) : bool :=
  match i with IGive => true | _ => false end.

Definition is_dec (i : instr) : bool :=
  match i with IActiveDec => true | _ => false end.

Definition is_inc (i : instr) : bool :=
  match i with IFailedInc => true | _ => false end.

(** The statement writes a pin, always or when no request has failed. *)
Definition is_led_write (i : instr) : bool :=
  match i with
  | IDigitalWrite _ _ | IIfNoneFailed _ _ => true
  | _ => false
  end.

Definition is_conditional (i : instr) : bool :=
  match i with IIfNoneFailed _ _ => true | _ => false end.

Definition level_eqb (v w : level) : bool :=
  match v, w with
  | LOW, LOW | HIGH, HIGH => true
  | _, _ => false
  end.

(** If the statement writes a pin, it writes [v] to the red LED. *)
Definition writes_only (v : level) (i : instr) : bool :=
  match i with
  | IDigitalWrite pin w | IIfNoneFailed pin w =>
      (pin =? RED_LED_PIN) && level_eqb w v
  | _ => true
  end.

(** The stage of a task, read off what is left of it. *)
Definition stage_of (code : list instr) : stage :=
  if existsb is_take code then Before
  else if existsb is_give code then Holding
  else if existsb is_dec code then Recording
  else Counted.

(** Number of statements left in all tasks together that satisfy [p]. *)
Definition pending (p : instr -> bool) (ts : tasks) : nat :=
  List.length (filter p (concat ts)).

(** ** What every schedule keeps

    [ts] are the tasks created so far in a cycle and [s] the state; [s0] is
    the state in which the cycle began. *)

(** What is left of every task is what is left of a request task. *)
Definition well_staged (ts : tasks) : Prop :=
  Forall (fun code => follows (stage_of code) code = true) ts.

(** The mutex is held by task [k] exactly when task [k] stands between its
    take and its give. *)
Definition mutex_owned (ts : tasks) (s : state) : Prop :=
  (forall k code,
     nth_error ts k = Some code ->
     (stage_of code = Holding <-> ledMutex s = Some (S k))) /\
  (forall h,
     ledMutex s = Some h ->
     exists k code, h = S k /\ nth_error ts k = Some code).

(** The events since the cycle began keep the discipline of the mutex. *)
Definition lock_trace (s0 s : state) : Prop :=
  exists evs,
    trace s = trace s0 ++ evs /\ exclusive false evs = Some (is_held s).

(** [activeRequests] counts the tasks not yet created ([unlaunched]) and the
    created tasks that have not run their [activeRequests--];
    [failedRequests] counts the [failedRequests++] already run, [failures]
    being the number of those the created tasks run in all. *)
Definition counted (unlaunched failures : Z) (ts : tasks) (s : state) : Prop :=
  activeRequests s = unlaunched + Z.of_nat (pending is_dec ts) /\
  failedRequests s + Z.of_nat (pending is_inc ts) = failures /\
  0 <= unlaunched /\
  unlaunched + Z.of_nat (pending is_dec ts) <= INT_MAX /\
  0 <= failedRequests s /\
  failures <= INT_MAX.

(** When all requests have the same kind of result ([good]: they succeed),
    all statements that write the LED write the same level, and the red LED
    shows it as soon as one task has run its write. *)
Definition led_settles (good : bool) (ts : tasks) (s : state) : Prop :=
  Forall (fun code =>
            forallb (writes_only (if good then LOW else HIGH)) code = true) ts /\
  (if good
   then pending is_inc ts = 0%nat /\ failedRequests s = 0
   else pending is_conditional ts = 0%nat) /\
  (red_led s = (if good then LOW else HIGH) \/
   Forall (fun code => existsb is_led_write code = true) ts).

(** ** Fair time slices *)

(** Each of the first [n] tasks gets a turn in the time slice. *)
Definition fair (n : nat) (slice : list nat) : bool :=
  forallb (fun k => existsb (Nat.eqb k) slice) (seq 0 n).

(** ** Shared variables, one access at a turn

    [failedRequests++] and [activeRequests--] are not one step of the
    processor: each loads the counter, adds to the loaded value and stores the
    result, and the scheduler can let other tasks run between the load and
    the store.  The same holds of [if (failedRequests == 0) digitalWrite(...)]
    between the load and the write of the pin.  In the scheduler below a turn
    of a task runs one statement, or one half of one of these three; the value
    a task has loaded and not yet used is in its register. *)

Definition registers : Type := nat -> option Z.

Definition no_registers : registers := fun _ => None.

Definition set_reg (k : nat) (v : option Z) (regs : registers) : registers :=
  fun j => if (j =? k)%nat then v else regs j.

Definition counter_value (c : counter) (s : state) : Z :=
  match c with
  | ActiveRequests => activeRequests s
  | FailedRequests => failedRequests s
  end.

(** The counter a statement loads in its first turn, for the statements that
    take two turns. *)
Definition loads (i : instr) : option counter :=
  match i with
  | IFailedInc | IIfNoneFailed _ _ => Some FailedRequests
  | IActiveDec => Some ActiveRequests
  | _ => None
  end.

(** The second turn of such a statement, [v] being the value it loaded. *)
Definition finish (i : instr) (v : Z) (s : state) : state :=
  match i with
  | IFailedInc =>
      set_failedRequests (int_wrap (v + 1))
                         (emit (CounterWrite FailedRequests) s)
  | IActiveDec =>
      set_activeRequests (int_wrap (v - 1))
                         (emit (CounterWrite ActiveRequests) s)
  | IIfNoneFailed pin lvl => if v =? 0 then digitalWrite pin lvl s else s
  | _ => s
  end.

(** The request tasks, the register of each, and the state they share. *)
Record machine : Type := mkMachine {
  threads : tasks;
  regs : registers;
  shared : state
}.

(** One turn of task [k].  Nothing happens when the task is blocked, has
    finished or does not exist. *)
Definition step_task_split (k : nat) (m : machine) : machine :=
  match nth_error (threads m) k with
  | Some (i :: rest) =>
      match loads i with
      | Some c =>
          match regs m k with
          | None =>
              mkMachine (threads m)
                        (set_reg k (Some (counter_value c (shared m))) (regs m))
                        (emit (CounterRead c) (shared m))
          | Some v =>
              mkMachine (set_task k rest (threads m))
                        (set_reg k None (regs m))
                        (finish i v (shared m))
          end
      | None =>
          match exec (S k) i (shared m) with
          | Some s' => mkMachine (set_task k rest (threads m)) (regs m) s'
          | None => m
          end
      end
  | _ => m
  end.

(** A time slice: the tasks named in [slice] get one turn each, in that
    order. *)
Definition run_tasks_split (slice : list nat) (m : machine) : machine :=
  fold_left (fun m k => step_task_split k m) slice m.

(** The mutex and its discipline, for tasks [ts] and state [s] of a cycle
    that began in [s0]. *)
Definition discipline (s0 : state) (ts : tasks) (s : state) : Prop :=
  well_staged ts /\ mutex_owned ts s /\ lock_trace s0 s.

(** Tasks whose [activeRequests--] has not been stored: those not yet
    created and those that have the statement still before them. *)
Definition undecremented (unlaunched : Z) (ts : tasks) : Z :=
  unlaunched + Z.of_nat (pending is_dec ts).

(** Number of [failedRequests++] that have been stored, when the created
    tasks run [failures] of them in all. *)
Definition increments_stored (failures : Z) (ts : tasks) : Z :=
  failures - Z.of_nat (pending is_inc ts).

(** What the counters and the registers can hold when updates are lost:
    [activeRequests] is never below the number of tasks whose decrement is
    still to be stored, and is below [total] once one is stored;
    [failedRequests] is never above the number of increments stored and is
    not 0 once one is stored; a value loaded for an update is within the same
    bounds, and only a task that stands at a statement of two turns has a
    loaded value. *)
Definition counted_split (unlaunched failures total : Z) (m : machine)
  : Prop :=
  0 <= unlaunched /\
  undecremented unlaunched (threads m) <= activeRequests (shared m) <= total /\
  (undecremented unlaunched (threads m) < total ->
   activeRequests (shared m) < total) /\
  0 <= increments_stored failures (threads m) /\
  Z.min 1 (increments_stored failures (threads m))
    <= failedRequests (shared m)
    <= increments_stored failures (threads m) /\
  failures <= total /\
  forall k v,
    regs m k = Some v ->
    exists i rest,
      nth_error (threads m) k = Some (i :: rest) /\
      loads i <> None /\
      (i = IFailedInc ->
       0 <= v <= increments_stored failures (threads m)) /\
      (i = IActiveDec ->
       undecremented unlaunched (threads m) <= v <= total).

(** [led_settles], with the registers: when all requests succeed, the value
    loaded for the test [failedRequests == 0] is 0. *)
Definition led_settles_split (good : bool) (m : machine) : Prop :=
  led_settles good (threads m) (shared m) /\
  (good = true ->
   forall k v i rest,
     regs m k = Some v ->
     nth_error (threads m) k = Some (i :: rest) ->
     is_conditional i = true ->
     v = 0).

(** ** Turns left *)

(** Turns a statement takes. *)
Definition turns_of (i : instr) : nat :=
  match loads i with Some _ => 2%nat | None => 1%nat end.

(** Turns a task has left; [loaded]: it has loaded a value and not yet used
    it. *)
Definition code_turns (loaded : bool) (code : list instr) : nat :=
  match code with
  | [] => 0%nat
  | i :: rest =>
      ((if loaded then 1 else turns_of i) + list_sum (map turns_of rest))%nat
  end.

Definition is_loaded (r : option Z) : bool :=
  match r with Some _ => true | None => false end.

Fixpoint turns_left_from (j : nat) (regs : registers) (ts : tasks) : nat :=
  match ts with
  | [] => 0%nat
  | code :: ts' =>
      (code_turns (is_loaded (regs j)) code + turns_left_from (S j) regs ts')%nat
  end.

(** Turns all tasks together have left. *)
Definition turns_left (m : machine) : nat :=
  turns_left_from 0 (regs m) (threads m).

(** No request task takes more turns than this. *)
Definition TASK_TURNS : nat := 11.

(** ** Concrete inputs used in the examples *)

Definition boot_state : state := mkState 0 None 0 0 0 false LOW LOW [].

(** The examples use the values the libraries give to the constants: 3 for
    [WL_CONNECTED] (6 is [WL_DISCONNECTED]), 200 for [HTTP_CODE_OK]. *)
Definition never_connected : nat -> Z := fun _ => 6.
Definition connected_from (k : nat) : nat -> Z :=
  fun j => if (k <=? j)%nat then 3 else 6.

Definition http_200 : http_result := mkHttp true 200 2.
Definition http_500 : http_result := mkHttp true 500 0.
Definition http_timeout : http_result := mkHttp true (-11) 0.

(** Endpoint 0 answers 200, every other endpoint answers 500. *)
Definition second_fails : nat -> http_result :=
  fun k => match k with O => http_200 | _ => http_500 end.

(** Endpoint 0 answers 500, every other endpoint answers 200. *)
Definition first_fails : nat -> http_result :=
  fun k => match k with O => http_500 | _ => http_200 end.

(** A cycle under way: two request tasks have not finished yet. *)
Definition two_pending : state := mkState 0 None 2 0 0 true LOW LOW [].

Definition two_endpoints : list string :=
  ["https://one.example/status"%string; "https://two.example/status"%string].

(** A poll that finds the link connected and has no task to schedule. *)
Definition idle_poll : poll_input := mkPoll 3 (fun _ => http_200) [].

(** Three checks, one second and more apart: the link is seen connected, then
    not connected (and connectToWiFi gives up), then connected again. *)
Definition link_flap : list check_input :=
  [mkCheck 1000 3 never_connected;
   mkCheck 2000 6 never_connected;
   mkCheck 20000 3 never_connected].

(** Task 0 runs up to and including its [xSemaphoreGive], then task 1 runs to
    its end, then task 0 runs its last three statements. *)
Definition racy_schedule : list (list nat) :=
  [[]; []; [0; 0; 0; 0; 0; 0; 1; 1; 1; 1; 1; 1; 1; 1; 0; 0; 0]%nat].

(** The last poll and the last check were made shortly before [millis()]
    wraps round. *)
Definition before_wrap : state :=
  mkState 4294967000 None 0 0 4294967000 true LOW LOW [].

(** Schedules of turns for two tasks whose requests time out (11 turns
    each).  No task runs while the two are created.  In the first, task 0
    runs up to and including the load of its [failedRequests++], task 1 runs
    to its end, and task 0 goes on from its store. *)
Definition lost_increment : list (list nat) :=
  [[]; []; repeat 0%nat 6 ++ repeat 1%nat 11 ++ repeat 0%nat 5].

(** In the second, task 0 runs up to and including the load of its
    [activeRequests--], task 1 runs to its end, and task 0 goes on from its
    store; then the two tasks take turns for 21 more slices. *)
Definition lost_decrement : list (list nat) :=
  [[]; []; repeat 0%nat 9 ++ repeat 1%nat 11 ++ repeat 0%nat 2]
  ++ repeat [0; 1]%nat 21.

(** A poll that finds the link down. *)
Definition down_poll : poll_input := mkPoll 6 (fun _ => http_200) [].

Section Firmware.

(** Constants of WiFi.h and HTTPClient.h. *)
Variable WL_CONNECTED : Z.
Variable HTTP_CODE_OK : Z.
Variable HTTPC_ERROR_CONNECTION_REFUSED : Z.
Variable HTTPC_ERROR_CONNECTION_LOST : Z.
Variable HTTPC_ERROR_READ_TIMEOUT : Z.

(** ** WiFi functions (main.cpp, lines 127-195) *)

(** The loop of connectToWiFi,
    [while (WiFi.status() != WL_CONNECTED && attempts < MAX_ATTEMPTS)].
    [polls k] is what the [k]-th call of [WiFi.status()] made by
    connectToWiFi returns; [calls] is the number of calls made so far, which
    is also the value of [attempts]; [remaining] is
    [MAX_ATTEMPTS - attempts].  The result is the number of calls made when
    the loop is left. *)
Fixpoint connect_wait (remaining : nat) (calls : nat) (polls : nat -> Z)
         (s : state) : nat * state :=
  if negb (polls calls =? WL_CONNECTED) then
    match remaining with
    | S r =>
        let s := delay 500 s in
        let s := serial MsgDot s in
        connect_wait r (S calls) polls s
    | O => (S calls, s)
    end
  else (S calls, s).

Definition connectToWiFi (polls : nat -> Z) (s : state) : state :=
  let s := serial MsgConnecting s in
  let s := emit WiFiBegin s in
  let (calls, s) := connect_wait MAX_ATTEMPTS 0 polls s in
  if polls calls =? WL_CONNECTED then
    let s := serial MsgWiFiConnected s in
    let s := digitalWrite RED_LED_PIN LOW s in
    blinkBlueLED 3 200 s
  else
    let s := serial MsgWiFiFailed s in
    digitalWrite RED_LED_PIN HIGH s.

(** [currentTime] is what [millis()] returns, [status] what [WiFi.status()]
    returns at line 175, [polls] what it returns inside connectToWiFi. *)
Definition checkWiFiConnection (currentTime status : Z) (polls : nat -> Z)
           (s : state) : state :=
  if ulong_wrap (currentTime - lastCheckTime s) >=? 1000 then
    let s := set_lastCheckTime currentTime s in
    if negb (status =? WL_CONNECTED) then
      let s :=
        if wasConnected s then
          let s := serial MsgWiFiLost s in
          let s := set_wasConnected false s in
          digitalWrite RED_LED_PIN HIGH s
        else s in
      connectToWiFi polls s
    else
      if negb (wasConnected s) then
        let s := set_wasConnected true s in
        let s := serial MsgWiFiReconnected s in
        digitalWrite RED_LED_PIN LOW s
      else s
  else s.

(** ** The request task (main.cpp, lines 265-384) *)

Definition sendGetRequest (index : Z) (r : http_result) : list instr :=
  if negb (begin_ok r) then
    [ISerial (MsgInitFailed index);
     ITake; IDigitalWrite RED_LED_PIN HIGH; IGive;
     IFailedInc]
  else
    ISerial (MsgSending index) ::
    if httpCode r >? 0 then
      ISerial (MsgResponseCode index (httpCode r)) ::
      if httpCode r =? HTTP_CODE_OK then
        [ISerial (MsgSuccess index (payload_length r));
         ITake; IIfNoneFailed RED_LED_PIN LOW; IGive]
      else
        [ISerial (MsgHttpError index (httpCode r));
         ITake; IDigitalWrite RED_LED_PIN HIGH; IGive;
         IFailedInc]
    else
      [ISerial (MsgRequestFailed index (httpCode r));
       ITake; IDigitalWrite RED_LED_PIN HIGH; IGive;
       IFailedInc] ++
      (if httpCode r =? HTTPC_ERROR_CONNECTION_REFUSED then
         [ISerial (MsgRefused index)]
       else if httpCode r =? HTTPC_ERROR_CONNECTION_LOST then
         [ISerial (MsgConnLost index)]
       else if httpCode r =? HTTPC_ERROR_READ_TIMEOUT then
         [ISerial (MsgReadTimeout index)]
       else []).

Definition sendGetRequestTask (index : Z) (r : http_result) : list instr :=
  sendGetRequest index r ++ [IActiveDec; ITaskDelete].

(** ** The poll cycle (main.cpp, lines 201-262) *)

(** Lines 217-219. *)
Definition reset_counters (total : Z) (s : state) : state :=
  let s := emit (CounterWrite ActiveRequests) s in
  let s := set_activeRequests total s in
  let s := emit (CounterWrite FailedRequests) s in
  set_failedRequests 0 s.

(** The loop of lines 222-246 from index [i] on.  [http k] is the result the
    task of endpoint [k] (counted from 0) will get.  After each task is
    created, the tasks created so far run for the time slice at the head of
    [sched]. *)
Fixpoint launch_tasks (urls : list string) (i : nat) (total : Z)
         (http : nat -> http_result) (sched : list (list nat))
         (c : tasks * state) : list (list nat) * (tasks * state) :=
  match urls with
  | [] => (sched, c)
  | url :: urls' =>
      let index := Z.of_nat i + 1 in
      let ts := fst c ++ [sendGetRequestTask index (http i)] in
      let s := emit (TaskCreate index) (snd c) in
      let s := serial (MsgLaunched index total url) s in
      launch_tasks urls' (S i) total http (tl sched)
                   (run_tasks (hd [] sched) (ts, s))
  end.

(** The loop of lines 249-251, [while (activeRequests > 0) delay(50)].  During
    each delay the tasks run for the next time slice of [sched].  [None]: the
    slices of [sched] are used up and the loop has not been left. *)
Fixpoint wait_tasks (sched : list (list nat)) (c : tasks * state)
  : option (tasks * state) :=
  let s := emit (CounterRead ActiveRequests) (snd c) in
  if activeRequests s >? 0 then
    match sched with
    | [] => None
    | slice :: sched' =>
        wait_tasks sched' (run_tasks slice (fst c, delay 50 s))
    end
  else Some (fst c, s).

(** Lines 253-261. *)
Definition cycle_summary (s : state) : state :=
  let s := emit (CounterRead FailedRequests) s in
  if failedRequests s >? 0 then
    let s := emit (CounterRead FailedRequests) s in
    serial (MsgCycleFailed (failedRequests s)) s
  else serial MsgCycleOk s.

(** One poll cycle, with the tasks left at its end.  [status] is what
    [WiFi.status()] returns at line 202. *)
Definition poll_cycle (API_ENDPOINTS : list string) (status : Z)
           (http : nat -> http_result) (sched : list (list nat)) (s : state)
  : option (tasks * state) :=
  if negb (status =? WL_CONNECTED) then
    match run_code 0 [ISerial MsgCannotPoll;
                      ITake; IDigitalWrite RED_LED_PIN HIGH; IGive] s with
    | Some s' => Some ([], s')
    | None => None
    end
  else
    let s := serial MsgCycleStart s in
    let s := reset_counters (NUM_ENDPOINTS API_ENDPOINTS) s in
    let (sched', c) :=
      launch_tasks API_ENDPOINTS 0 (NUM_ENDPOINTS API_ENDPOINTS) http sched ([], s) in
    match wait_tasks sched' c with
    | Some (ts, s') => Some (ts, cycle_summary s')
    | None => None
    end.

Definition pollEndpoints (API_ENDPOINTS : list string) (status : Z)
           (http : nat -> http_result) (sched : list (list nat)) (s : state)
  : option state :=
  option_map snd (poll_cycle API_ENDPOINTS status http sched s).

(** ** setup and loop (main.cpp, lines 61-121) *)

(** The calls that only configure the serial port, the pin modes and the
    WiFi driver leave the state as it is; [xSemaphoreCreateMutex] yields a
    free mutex.  [status] is what [WiFi.status()] returns at line 99, [now]
    what [millis()] returns at line 101. *)
Definition setup (API_ENDPOINTS : list string) (polls : nat -> Z) (status : Z)
           (p : poll_input) (now : Z) (s : state) : option state :=
  let s := delay 1000 s in
  let s := digitalWrite BLUE_LED_PIN LOW s in
  let s := digitalWrite RED_LED_PIN LOW s in
  let s := set_ledMutex None s in
  let s := serial MsgBanner s in
  let s := delay 100 s in
  let s := connectToWiFi polls s in
  if status =? WL_CONNECTED then
    match pollEndpoints API_ENDPOINTS (poll_status p) (poll_http p) (poll_sched p) s with
    | Some s' => Some (set_lastPollTime now s')
    | None => None
    end
  else Some s.

(** [currentTime] is what [millis()] returns at line 114. *)
Definition loop (API_ENDPOINTS : list string) (c : check_input)
           (currentTime : Z) (p : poll_input) (s : state) : option state :=
  let s := checkWiFiConnection (check_time c) (check_status c) (check_polls c) s in
  if ulong_wrap (currentTime - lastPollTime s) >=? POLL_INTERVAL_MS then
    let s := set_lastPollTime currentTime s in
    match pollEndpoints API_ENDPOINTS (poll_status p) (poll_http p) (poll_sched p) s with
    | Some s' => Some (delay 100 s')
    | None => None
    end
  else Some (delay 100 s).

(** ** Notions of the specification, read off the code *)

(** The request counts as successful: the branch of line 324. *)
Definition is_success (r : http_result) : bool :=
  begin_ok r && (httpCode r >? 0) && (httpCode r =? HTTP_CODE_OK).

(** The classification of section 4.3 of the specification, in its words: a
    positive status code equal to the OK code is Success, any other positive
    status code is HttpError, a non-positive result is TransportError. *)
Definition spec_classify (code : Z) : outcome :=
  if (0 <? code) && (code =? HTTP_CODE_OK) then Success
  else if 0 <? code then HttpError code
  else TransportError code.

(** The line a worker prints for an outcome. *)
Definition result_line (index len : Z) (o : outcome) : message :=
  match o with
  | Success => MsgSuccess index len
  | HttpError code => MsgHttpError index code
  | TransportError code => MsgRequestFailed index code
  end.

(** What an outcome adds to the failed count. *)
Definition tallied (o : outcome) : Z :=
  match o with Success => 0 | _ => 1 end.

(** What one finished request task does to the [tally]. *)
Definition tally_step (r : http_result) (c : Z * Z * level) : Z * Z * level :=
  let '(active, failed, red) := c in
  (int_wrap (active - 1),
   if is_success r then failed else int_wrap (failed + 1),
   if is_success r then if failed =? 0 then LOW else red else HIGH).

(** Number of results of [rs] that are not a success. *)
Definition nfail (rs : list http_result) : nat :=
  List.length (filter (fun r => negb (is_success r)) rs).

(** The request tasks of the results [rs] run one after the other, each on
    its own; the first has position [i]. *)
Fixpoint run_workers (i : nat) (rs : list http_result) (s : state) : option state :=
  match rs with
  | [] => Some s
  | r :: rs' =>
      match run_code (S i) (sendGetRequestTask (Z.of_nat i + 1) r) s with
      | Some s' => run_workers (S i) rs' s'
      | None => None
      end
  end.

(** Number of endpoints among the first [n] whose request does not succeed. *)
Definition count_failed (http : nat -> http_result) (n : nat) : nat :=
  List.length (filter (fun k => negb (is_success (http k))) (seq 0 n)).

(** A sequence of health checks. *)
Definition check (c : check_input) (s : state) : state :=
  checkWiFiConnection (check_time c) (check_status c) (check_polls c) s.

Fixpoint run_checks (cs : list check_input) (s : state) : state :=
  match cs with
  | [] => s
  | c :: cs' => run_checks cs' (check c s)
  end.

(** The check gets past the one-second gate of line 172. *)
Definition check_due (c : check_input) (s : state) : bool :=
  ulong_wrap (check_time c - lastCheckTime s) >=? 1000.

(** The link states seen by the checks of [cs] that get past the gate, in
    order; [true] stands for connected. *)
Fixpoint observations (cs : list check_input) (s : state) : list bool :=
  match cs with
  | [] => []
  | c :: cs' =>
      (if check_due c s then [check_status c =? WL_CONNECTED] else [])
      ++ observations cs' (check c s)
  end.

(** The states in which the firmware can be when one of its operations has
    returned. *)
Inductive reachable (API_ENDPOINTS : list string) : state -> Prop :=
| reach_setup : forall s0 polls status p now s,
    setup API_ENDPOINTS polls status p now s0 = Some s ->
    reachable API_ENDPOINTS s
| reach_loop : forall s c now p s',
    reachable API_ENDPOINTS s ->
    loop API_ENDPOINTS c now p s = Some s' ->
    reachable API_ENDPOINTS s'
| reach_connect : forall s polls,
    reachable API_ENDPOINTS s ->
    reachable API_ENDPOINTS (connectToWiFi polls s)
| reach_check : forall s currentTime status polls,
    reachable API_ENDPOINTS s ->
    reachable API_ENDPOINTS (checkWiFiConnection currentTime status polls s)
| reach_poll : forall s status http sched s',
    reachable API_ENDPOINTS s ->
    pollEndpoints API_ENDPOINTS status http sched s = Some s' ->
    reachable API_ENDPOINTS s'
| reach_task : forall s me index r s',
    reachable API_ENDPOINTS s ->
    run_code me (sendGetRequestTask index r) s = Some s' ->
    reachable API_ENDPOINTS s'
| reach_blink : forall s times delayMs,
    reachable API_ENDPOINTS s ->
    reachable API_ENDPOINTS (blinkBlueLED times delayMs s).

(** ** What every schedule keeps, for the tasks of given results *)

(** The tasks of the first [launched] endpoints are created; they and the
    state keep the stages, the mutex, its discipline and the counters in
    step. *)
Definition cycle_inv (http : nat -> http_result) (total : nat) (s0 : state)
           (launched : nat) (ts : tasks) (s : state) : Prop :=
  List.length ts = launched /\
  (launched <= total)%nat /\
  well_staged ts /\
  mutex_owned ts s /\
  lock_trace s0 s /\
  counted (Z.of_nat total - Z.of_nat launched)
          (Z.of_nat (count_failed http launched)) ts s /\
  Z.of_nat total <= INT_MAX.

(** The tasks created since the cycle began are those of the first
    [launched] endpoints, in order. *)
Definition created_trace (s0 : state) (launched : nat) (s : state) : Prop :=
  exists evs,
    trace s = trace s0 ++ evs /\
    filter is_task_create evs =
      map (fun i => TaskCreate (Z.of_nat i + 1)) (seq 0 launched).

(** ** The poll cycle with the counter updates split *)

(** launch_tasks, with the scheduler of turns. *)
Fixpoint launch_tasks_split (urls : list string) (i : nat) (total : Z)
         (http : nat -> http_result) (sched : list (list nat))
         (m : machine) : list (list nat) * machine :=
  match urls with
  | [] => (sched, m)
  | url :: urls' =>
      let index := Z.of_nat i + 1 in
      let ts := threads m ++ [sendGetRequestTask index (http i)] in
      let s := emit (TaskCreate index) (shared m) in
      let s := serial (MsgLaunched index total url) s in
      launch_tasks_split urls' (S i) total http (tl sched)
                         (run_tasks_split (hd [] sched)
                                          (mkMachine ts (regs m) s))
  end.

(** wait_tasks, with the scheduler of turns.  The result says whether the
    loop has been left ([true]) or the slices of [sched] are used up while it
    is still waiting ([false]), and gives the machine at that point. *)
Fixpoint wait_tasks_split (sched : list (list nat)) (m : machine)
  : bool * machine :=
  let s := emit (CounterRead ActiveRequests) (shared m) in
  if activeRequests s >? 0 then
    match sched with
    | [] => (false, mkMachine (threads m) (regs m) s)
    | slice :: sched' =>
        wait_tasks_split sched'
          (run_tasks_split slice
                           (mkMachine (threads m) (regs m) (delay 50 s)))
    end
  else (true, mkMachine (threads m) (regs m) s).

(** Lines 213-251 of pollEndpoints: the reset, the creation of the tasks and
    the wait loop. *)
Definition run_cycle_split (API_ENDPOINTS : list string)
           (http : nat -> http_result) (sched : list (list nat)) (s : state)
  : bool * machine :=
  let s := serial MsgCycleStart s in
  let s := reset_counters (NUM_ENDPOINTS API_ENDPOINTS) s in
  let (sched', m) :=
    launch_tasks_split API_ENDPOINTS 0 (NUM_ENDPOINTS API_ENDPOINTS) http sched
                       (mkMachine [] no_registers s) in
  wait_tasks_split sched' m.

(** poll_cycle, with the scheduler of turns.  [None]: the slices of [sched]
    are used up and the wait loop has not been left. *)
Definition poll_cycle_split (API_ENDPOINTS : list string) (status : Z)
           (http : nat -> http_result) (sched : list (list nat)) (s : state)
  : option machine :=
  if negb (status =? WL_CONNECTED) then
    match run_code 0 [ISerial MsgCannotPoll;
                      ITake; IDigitalWrite RED_LED_PIN HIGH; IGive] s with
    | Some s' => Some (mkMachine [] no_registers s')
    | None => None
    end
  else
    let (left, m) := run_cycle_split API_ENDPOINTS http sched s in
    if left
    then Some (mkMachine (threads m) (regs m) (cycle_summary (shared m)))
    else None.

Definition pollEndpoints_split (API_ENDPOINTS : list string) (status : Z)
           (http : nat -> http_result) (sched : list (list nat)) (s : state)
  : option state :=
  option_map shared (poll_cycle_split API_ENDPOINTS status http sched s).

(** The tasks of the first [launched] endpoints are created; they keep the
    discipline of the mutex, and the counters and registers are within their
    bounds. *)
Definition split_inv (http : nat -> http_result) (total : nat) (s0 : state)
           (launched : nat) (m : machine) : Prop :=
  List.length (threads m) = launched /\
  (launched <= total)%nat /\
  discipline s0 (threads m) (shared m) /\
  counted_split (Z.of_nat total - Z.of_nat launched)
                (Z.of_nat (count_failed http launched)) (Z.of_nat total) m /\
  Z.of_nat total <= INT_MAX.

(** ** Proof automation *)

(** The case analysis of sendGetRequest: one goal per path through it. *)
Ltac request_paths r :=
  destruct r as [b c l];
  unfold sendGetRequestTask, sendGetRequest, is_success; simpl;
  destruct b; simpl;
  [ destruct (c >? 0) eqn:Hpos; simpl;
    [ destruct (c =? HTTP_CODE_OK) eqn:Hok; simpl
    | destruct (c =? HTTPC_ERROR_CONNECTION_REFUSED);
      [| destruct (c =? HTTPC_ERROR_CONNECTION_LOST);
         [| destruct (c =? HTTPC_ERROR_READ_TIMEOUT)]]; simpl ]
  | ].

(** The events a finished piece of task code has added to the trace, given
    the lemma that reads them off an extended trace. *)
Ltac read_new_events_with lem :=
  erewrite lem by (simpl; rewrite <- ?app_assoc; simpl; reflexivity).

(** * Properties *)

Arguments int_wrap : simpl never.
Arguments ulong_wrap : simpl never.

(** ** Arithmetic and traces *)

Lemma int_wrap_small (z : Z) : INT_MIN <= z <= INT_MAX -> int_wrap z = z.
Proof.
  unfold INT_MIN, INT_MAX, int_wrap; intros H.
  rewrite Z.mod_small by lia. lia.
Qed.

Lemma count_app (p : event -> bool) (l1 l2 : list event) :
  count p (l1 ++ l2) = (count p l1 + count p l2)%nat.
Proof. unfold count. now rewrite filter_app, length_app. Qed.

Lemma new_events_app (s s' : state) (evs : list event) :
  trace s' = trace s ++ evs -> new_events s s' = evs.
Proof.
  unfold new_events; intros ->.
  rewrite skipn_app, skipn_all, Nat.sub_diag. reflexivity.
Qed.

Lemma add_events_nil (s : state) : add_events s [] = s.
Proof. destruct s; unfold add_events; simpl. now rewrite app_nil_r. Qed.

Lemma add_events_app (s : state) (l1 l2 : list event) :
  add_events (add_events s l1) l2 = add_events s (l1 ++ l2).
Proof. unfold add_events; simpl. now rewrite app_assoc. Qed.

Lemma emit_add_events (e : event) (s : state) : emit e s = add_events s [e].
Proof. reflexivity. Qed.

(** ** One request task on its own *)

Lemma task_effect (me : nat) (index : Z) (r : http_result) (s : state) :
  ledMutex s = None ->
  exists s',
    run_code me (sendGetRequestTask index r) s = Some s' /\
    ledMutex s' = None /\
    tally s' = tally_step r (tally s) /\
    blue_led s' = blue_led s /\
    wasConnected s' = wasConnected s /\
    lastCheckTime s' = lastCheckTime s /\
    lastPollTime s' = lastPollTime s.
Proof.
  intros Hm. unfold tally, tally_step.
  request_paths r; rewrite Hm; simpl;
    try (destruct (failedRequests s =? 0); simpl);
    eexists; repeat split; reflexivity.
Qed.


(** C1. Recording the outcome of a worker: the remaining counter goes down by
    one; a worker that did not succeed adds one to the failed counter and
    turns the error LED on; a worker that succeeded leaves the failed counter
    alone and turns the error LED off when the failed counter is 0, and leaves
    the LED as it is otherwise.  The mutex is free when the worker starts and
    the two [int] counters do not overflow. *)
Theorem record_outcome (me : nat) (index : Z) (r : http_result) (s : state) :
  ledMutex s = None ->
  INT_MIN < activeRequests s <= INT_MAX ->
  INT_MIN <= failedRequests s < INT_MAX ->
  exists s',
    run_code me (sendGetRequestTask index r) s = Some s' /\
    activeRequests s' = activeRequests s - 1 /\
    (is_success r = false ->
       failedRequests s' = failedRequests s + 1 /\ red_led s' = HIGH) /\
    (is_success r = true ->
       failedRequests s' = failedRequests s /\
       (failedRequests s = 0 -> red_led s' = LOW) /\
       (failedRequests s <> 0 -> red_led s' = red_led s)).
Proof.
  intros Hm Ha Hf.
  destruct (task_effect me index r s Hm) as (s' & Hrun & _ & Ht & _).
  exists s'. split; [exact Hrun|].
  unfold tally, tally_step in Ht. injection Ht as Hact Hfail Hred.
  rewrite int_wrap_small in Hact by lia.
  split; [exact Hact|]. split; intros Hs; rewrite Hs in Hfail, Hred.
  - rewrite int_wrap_small in Hfail by lia. now split.
  - split; [exact Hfail|]. split; intros H0.
    + now rewrite H0 in Hred.
    + apply Z.eqb_neq in H0. now rewrite H0 in Hred.
Qed.

(** C4. Classification of the result of [http.GET()].  The worker prints
    exactly one result line, the line of the outcome the specification gives
    to the status code, and adds to the failed counter what that outcome
    counts for: nothing for Success (a positive code equal to HTTP_CODE_OK),
    one for HttpError (any other positive code) and one for TransportError
    (any code that is not positive).  The three cases cover every code. *)
Theorem classification (me : nat) (index code len : Z) (s : state) :
  ledMutex s = None ->
  INT_MIN <= failedRequests s < INT_MAX ->
  exists s',
    run_code me (sendGetRequest index (mkHttp true code len)) s = Some s' /\
    count is_result_line (new_events s s') = 1%nat /\
    In (Serial (result_line index len (spec_classify code))) (new_events s s') /\
    failedRequests s' = failedRequests s + tallied (spec_classify code) /\
    match spec_classify code with
    | Success => 0 < code /\ code = HTTP_CODE_OK
    | HttpError c => c = code /\ 0 < code /\ code <> HTTP_CODE_OK
    | TransportError c => c = code /\ code <= 0
    end.
Proof.
  intros Hm Hf.
  unfold sendGetRequest, spec_classify; simpl.
  rewrite Z.gtb_ltb.
  destruct (0 <? code) eqn:Hpos; simpl.
  - apply Z.ltb_lt in Hpos.
    destruct (code =? HTTP_CODE_OK) eqn:Hok; simpl; rewrite Hm; simpl.
    + apply Z.eqb_eq in Hok.
      destruct (failedRequests s =? 0); simpl;
        (eexists; split; [reflexivity|]);
        read_new_events_with new_events_app;
        simpl; repeat split; auto; lia.
    + apply Z.eqb_neq in Hok.
      (eexists; split; [reflexivity|]); read_new_events_with new_events_app.
      simpl. rewrite int_wrap_small by lia.
      repeat split; auto.
  - apply Z.ltb_ge in Hpos. rewrite Hm; simpl.
    destruct (code =? HTTPC_ERROR_CONNECTION_REFUSED);
      [| destruct (code =? HTTPC_ERROR_CONNECTION_LOST);
         [| destruct (code =? HTTPC_ERROR_READ_TIMEOUT)]];
      simpl; (eexists; split; [reflexivity|]);
      read_new_events_with new_events_app;
      simpl; rewrite int_wrap_small by lia; repeat split; auto.
Qed.


(** ** The poll cycle without workers *)

Lemma wait_tasks_eq (sched : list (list nat)) (c : tasks * state) :
  wait_tasks sched c =
  let s := emit (CounterRead ActiveRequests) (snd c) in
  if activeRequests s >? 0 then
    match sched with
    | [] => None
    | slice :: sched' =>
        wait_tasks sched' (run_tasks slice (fst c, delay 50 s))
    end
  else Some (fst c, s).
Proof. destruct sched; reflexivity. Qed.

(** C5. Called while the link is not connected, pollEndpoints turns the error
    LED on under the mutex and returns: the two counters keep their values, no
    task is created and no delay is made. *)
Theorem poll_without_link (API_ENDPOINTS : list string) (status : Z)
        (http : nat -> http_result) (sched : list (list nat)) (s : state) :
  status <> WL_CONNECTED ->
  ledMutex s = None ->
  exists s',
    pollEndpoints API_ENDPOINTS status http sched s = Some s' /\
    poll_cycle API_ENDPOINTS status http sched s = Some ([], s') /\
    trace s' = trace s ++ [Serial MsgCannotPoll; SemaphoreTake;
                           DigitalWrite RED_LED_PIN HIGH; SemaphoreGive] /\
    red_led s' = HIGH /\
    activeRequests s' = activeRequests s /\
    failedRequests s' = failedRequests s /\
    count is_counter_access (new_events s s') = 0%nat /\
    count is_task_create (new_events s s') = 0%nat /\
    count is_delay (new_events s s') = 0%nat.
Proof.
  intros Hst Hm. apply Z.eqb_neq in Hst.
  unfold pollEndpoints, poll_cycle. rewrite Hst; simpl. rewrite Hm; simpl.
  eexists. split; [reflexivity|]. split; [reflexivity|].
  read_new_events_with new_events_app. simpl. rewrite <- !app_assoc. simpl.
  repeat split; reflexivity.
Qed.

(** C9. With no endpoint configured and the link connected, the cycle creates
    no task, leaves its wait loop at the first test of the remaining counter,
    without any delay, and prints the summary of a successful cycle. *)
Theorem poll_no_endpoints (http : nat -> http_result) (sched : list (list nat))
        (s : state) :
  exists s',
    pollEndpoints [] WL_CONNECTED http sched s = Some s' /\
    poll_cycle [] WL_CONNECTED http sched s = Some ([], s') /\
    trace s' = trace s ++ [Serial MsgCycleStart;
                           CounterWrite ActiveRequests; CounterWrite FailedRequests;
                           CounterRead ActiveRequests;
                           CounterRead FailedRequests; Serial MsgCycleOk] /\
    activeRequests s' = 0 /\
    failedRequests s' = 0 /\
    count is_task_create (new_events s s') = 0%nat /\
    count is_delay (new_events s s') = 0%nat.
Proof.
  unfold pollEndpoints, poll_cycle. rewrite Z.eqb_refl; simpl.
  rewrite wait_tasks_eq; simpl.
  eexists. split; [reflexivity|]. split; [reflexivity|].
  read_new_events_with new_events_app. simpl. rewrite <- !app_assoc. simpl.
  repeat split; reflexivity.
Qed.

(** ** Workers that finish one after the other *)

Lemma run_workers_tally (rs : list http_result) :
  forall (i : nat) (s : state),
    ledMutex s = None ->
    exists s',
      run_workers i rs s = Some s' /\
      ledMutex s' = None /\
      tally s' = fold_left (fun c r => tally_step r c) rs (tally s).
Proof.
  induction rs as [|r rs IH]; intros i s Hm; cbn [run_workers fold_left].
  - now exists s.
  - destruct (task_effect (S i) (Z.of_nat i + 1) r s Hm)
      as (s1 & Hrun & Hm1 & Ht & _).
    rewrite Hrun, <- Ht. now apply IH.
Qed.

(** The tally after the results [rs], as long as the counters stay within
    the range of [int]. *)
Lemma fold_tally (rs : list http_result) :
  forall (a f : Z) (red : level),
    0 <= f ->
    f + Z.of_nat (List.length rs) <= INT_MAX ->
    INT_MIN <= a - Z.of_nat (List.length rs) ->
    a <= INT_MAX ->
    exists red',
      fold_left (fun c r => tally_step r c) rs (a, f, red) =
        (a - Z.of_nat (List.length rs), f + Z.of_nat (nfail rs), red') /\
      ((0 < nfail rs)%nat -> red' = HIGH) /\
      (nfail rs = 0%nat ->
       red' = match rs with
              | [] => red
              | _ :: _ => if f =? 0 then LOW else red
              end).
Proof.
  induction rs as [|r rs IH]; intros a f red Hf Hfmax Hamin Hamax.
  - exists red. simpl. rewrite Z.sub_0_r, Z.add_0_r.
    repeat split; auto. unfold nfail; simpl; lia.
  - cbn [fold_left tally_step]. unfold nfail. cbn [filter].
    change (List.length (r :: rs)) with (S (List.length rs)) in *.
    rewrite Nat2Z.inj_succ in *.
    rewrite (int_wrap_small (a - 1)) by (unfold INT_MIN, INT_MAX in *; lia).
    destruct (is_success r) eqn:Hs; cbn [negb].
    + destruct (IH (a - 1) f (if f =? 0 then LOW else red))
        as (red' & Hfold & Hhigh & Hlow); try lia.
      exists red'. rewrite Hfold. split; [f_equal; f_equal; lia|].
      split; [exact Hhigh|]. intros H0. rewrite (Hlow H0).
      destruct rs; [reflexivity|]. now destruct (f =? 0).
    + rewrite (int_wrap_small (f + 1)) by (unfold INT_MIN, INT_MAX in *; lia).
      destruct (IH (a - 1) (f + 1) HIGH) as (red' & Hfold & Hhigh & Hlow);
        try lia.
      exists red'. rewrite Hfold. cbn [List.length].
      split; [unfold nfail; f_equal; f_equal; lia|].
      split; [|intros H0; discriminate H0].
      intros _. fold (nfail rs) in *.
      destruct (nfail rs) eqn:Hn; [|apply Hhigh; lia].
      rewrite (Hlow eq_refl).
      destruct rs; [reflexivity|].
      assert ((f + 1 =? 0) = false) as -> by (apply Z.eqb_neq; lia).
      reflexivity.
Qed.

Lemma nfail_all_success (rs : list http_result) :
  forallb is_success rs = true -> nfail rs = 0%nat.
Proof.
  unfold nfail. induction rs as [|r rs IH]; simpl; [reflexivity|].
  intros H. apply andb_prop in H as [Hr Hrs]. rewrite Hr. simpl. auto.
Qed.

Lemma nfail_no_success (rs : list http_result) :
  forallb (fun r => negb (is_success r)) rs = true ->
  nfail rs = List.length rs.
Proof.
  unfold nfail. induction rs as [|r rs IH]; simpl; [reflexivity|].
  intros H. apply andb_prop in H as [Hr Hrs]. rewrite Hr. simpl. auto.
Qed.

(** C6. After the reset to [n] and [n] workers that all succeed, the failed
    counter is 0 and the cycle is complete; after the reset to [n] and [n]
    workers none of which succeeds, the failed counter is [n] and the cycle
    is complete.  [n] is an [int] and the mutex is free at the start. *)
Theorem reset_then_record (n : nat) (rs : list http_result) (s : state) :
  List.length rs = n ->
  Z.of_nat n <= INT_MAX ->
  ledMutex s = None ->
  (forallb is_success rs = true ->
   exists s',
     run_workers 0 rs (reset_counters (Z.of_nat n) s) = Some s' /\
     failedRequests s' = 0 /\
     activeRequests s' = 0 /\ isComplete s' = true) /\
  (forallb (fun r => negb (is_success r)) rs = true ->
   exists s',
     run_workers 0 rs (reset_counters (Z.of_nat n) s) = Some s' /\
     failedRequests s' = Z.of_nat n /\
     activeRequests s' = 0 /\ isComplete s' = true).
Proof.
  intros Hlen Hn Hm.
  destruct (run_workers_tally rs 0 (reset_counters (Z.of_nat n) s) Hm)
    as (s' & Hrun & _ & Ht).
  unfold tally in Ht; simpl in Ht.
  destruct (fold_tally rs (Z.of_nat n) 0 (red_led s)) as (red' & Hfold & _);
    try (rewrite ?Hlen; unfold INT_MIN, INT_MAX in *; lia).
  rewrite Hfold, Hlen in Ht. injection Ht as Ha Hf _.
  rewrite Z.sub_diag in Ha.
  assert (Hc : activeRequests s' = 0 /\ isComplete s' = true).
  { unfold isComplete. now rewrite Ha. }
  split; intros Hall; exists s'; (split; [exact Hrun|]); (split; [|exact Hc]).
  - rewrite Hf, (nfail_all_success rs Hall). reflexivity.
  - rewrite Hf, (nfail_no_success rs Hall), Hlen. lia.
Qed.

(** ** Establishing the link *)

Lemma attempts_succ (n : nat) :
  attempts (S n) = [Delay 500; Serial MsgDot] ++ attempts n.
Proof. reflexivity. Qed.

Lemma count_attempts (n : nat) : count is_attempt_delay (attempts n) = n.
Proof.
  induction n as [|n IH]; [reflexivity|].
  rewrite attempts_succ, count_app, IH. reflexivity.
Qed.

(** The loop stops at the first call that sees the link connected, after one
    attempt per earlier call, or when the attempts are used up. *)
Lemma connect_wait_shape (remaining : nat) :
  forall (calls : nat) (polls : nat -> Z) (s : state),
  exists k,
    (k <= remaining)%nat /\
    connect_wait remaining calls polls s =
      (S (calls + k), add_events s (attempts k)) /\
    (forall j, (j < k)%nat -> polls (calls + j)%nat <> WL_CONNECTED) /\
    ((k < remaining)%nat -> polls (calls + k)%nat = WL_CONNECTED).
Proof.
  induction remaining as [|r IH]; intros calls polls s.
  - exists 0%nat. rewrite Nat.add_0_r. cbn [connect_wait].
    rewrite add_events_nil.
    split; [lia|]. split; [now destruct (negb _)|]. split; intros; lia.
  - cbn [connect_wait].
    destruct (polls calls =? WL_CONNECTED) eqn:Hup; cbn [negb].
    + exists 0%nat. rewrite Nat.add_0_r, add_events_nil.
      split; [lia|]. split; [reflexivity|]. split; [intros; lia|].
      intros _. now apply Z.eqb_eq.
    + destruct (IH (S calls) polls (serial MsgDot (delay 500 s)))
        as (k & Hk & Heq & Hbefore & Hat).
      exists (S k). split; [lia|]. split; [|split].
      * rewrite Heq. unfold serial, delay.
        rewrite !emit_add_events, !add_events_app, attempts_succ.
        rewrite <- plus_n_Sm. reflexivity.
      * intros j Hj. destruct j as [|j].
        -- rewrite Nat.add_0_r. now apply Z.eqb_neq.
        -- rewrite <- plus_n_Sm. apply Hbefore. lia.
      * intros Hlt. rewrite <- plus_n_Sm. apply Hat. lia.
Qed.

Lemma blink_loop_effect (n : nat) (delayMs : Z) :
  forall s : state,
    trace (blink_loop n delayMs s) = trace s ++ pulses n delayMs /\
    blue_led (blink_loop n delayMs s) =
      match n with O => blue_led s | S _ => LOW end /\
    red_led (blink_loop n delayMs s) = red_led s /\
    ledMutex (blink_loop n delayMs s) = ledMutex s /\
    wasConnected (blink_loop n delayMs s) = wasConnected s /\
    lastCheckTime (blink_loop n delayMs s) = lastCheckTime s /\
    lastPollTime (blink_loop n delayMs s) = lastPollTime s /\
    activeRequests (blink_loop n delayMs s) = activeRequests s /\
    failedRequests (blink_loop n delayMs s) = failedRequests s.
Proof.
  induction n as [|n IH]; intros s.
  - simpl. rewrite app_nil_r. repeat split; reflexivity.
  - cbn [blink_loop].
    destruct (IH (delay delayMs (digitalWrite BLUE_LED_PIN LOW
                (delay delayMs (digitalWrite BLUE_LED_PIN HIGH s)))))
      as (Ht & Hb & Hr & Hm & Hw & Hc & Hp & Ha & Hf).
    rewrite Ht, Hb, Hr, Hm, Hw, Hc, Hp, Ha, Hf. simpl.
    rewrite <- !app_assoc. simpl.
    repeat split; try reflexivity. now destruct n.
Qed.

(** Where the link first comes up is determined by the calls. *)
Lemma first_up_unique (polls : nat -> Z) (k k' bound : nat) :
  (k <= bound)%nat -> (k' <= bound)%nat ->
  (forall j, (j < k)%nat -> polls j <> WL_CONNECTED) ->
  ((k < bound)%nat -> polls k = WL_CONNECTED) ->
  (forall j, (j < k')%nat -> polls j <> WL_CONNECTED) ->
  polls k' = WL_CONNECTED ->
  k = k'.
Proof.
  intros Hk Hk' Hbefore Hat Hbefore' Hat'.
  destruct (Nat.lt_trichotomy k k') as [Hlt | [Heq | Hgt]]; [|exact Heq|].
  - exfalso. apply (Hbefore' k Hlt). apply Hat. lia.
  - exfalso. now apply (Hbefore k' Hgt).
Qed.

(** C7. connectToWiFi makes at most 30 attempts, each a wait of 500 ms, and
    then stops with one of its two results, whatever the link does.
    [polls j] is what the [j]-th call of [WiFi.status()] returns:
    the call before attempt [j] for [j < 30]; the loop is left at a call that
    returns WL_CONNECTED or at call 30, and the call after that decides the
    result.  If the link comes up within the budget (call [k <= 30] is the
    first to see it connected, and it is still connected at the next call),
    [k] attempts are made, the error LED is turned off, the blue LED is pulsed
    exactly three times and the connection is reported.  If no call sees the
    link connected, 30 attempts are made, the error LED is turned on and the
    failure is reported; the function returns normally. *)
Theorem connectToWiFi_establish (polls : nat -> Z) (s : state) :
  (exists a : nat,
     (a <= 30)%nat /\
     count is_attempt_delay (new_events s (connectToWiFi polls s)) = a /\
     (new_events s (connectToWiFi polls s) =
        [Serial MsgConnecting; WiFiBegin] ++ attempts a ++
        [Serial MsgWiFiConnected; DigitalWrite RED_LED_PIN LOW] ++ pulses 3 200
      \/
      new_events s (connectToWiFi polls s) =
        [Serial MsgConnecting; WiFiBegin] ++ attempts a ++
        [Serial MsgWiFiFailed; DigitalWrite RED_LED_PIN HIGH])) /\
  (forall k : nat,
     (k <= 30)%nat ->
     (forall j, (j < k)%nat -> polls j <> WL_CONNECTED) ->
     polls k = WL_CONNECTED ->
     polls (S k) = WL_CONNECTED ->
     new_events s (connectToWiFi polls s) =
       [Serial MsgConnecting; WiFiBegin] ++ attempts k ++
       [Serial MsgWiFiConnected; DigitalWrite RED_LED_PIN LOW] ++ pulses 3 200 /\
     count is_blue_on (new_events s (connectToWiFi polls s)) = 3%nat /\
     red_led (connectToWiFi polls s) = LOW /\
     blue_led (connectToWiFi polls s) = LOW) /\
  ((forall j, (j <= 31)%nat -> polls j <> WL_CONNECTED) ->
     new_events s (connectToWiFi polls s) =
       [Serial MsgConnecting; WiFiBegin] ++ attempts 30 ++
       [Serial MsgWiFiFailed; DigitalWrite RED_LED_PIN HIGH] /\
     red_led (connectToWiFi polls s) = HIGH /\
     blue_led (connectToWiFi polls s) = blue_led s).
Proof.
  unfold connectToWiFi.
  destruct (connect_wait_shape MAX_ATTEMPTS 0 polls
              (emit WiFiBegin (serial MsgConnecting s)))
    as (a & Ha & Heq & Hbefore & Hat).
  rewrite Heq. cbn [Nat.add] in *. unfold MAX_ATTEMPTS in *.
  unfold blinkBlueLED.
  assert (Hup : polls (S a) = WL_CONNECTED ->
    new_events s
      (blink_loop (Z.to_nat 3) 200
         (digitalWrite RED_LED_PIN LOW
            (serial MsgWiFiConnected
               (add_events (emit WiFiBegin (serial MsgConnecting s))
                  (attempts a))))) =
    [Serial MsgConnecting; WiFiBegin] ++ attempts a ++
    [Serial MsgWiFiConnected; DigitalWrite RED_LED_PIN LOW] ++ pulses 3 200).
  { intros _. apply new_events_app.
    rewrite (proj1 (blink_loop_effect _ _ _)). simpl.
    rewrite <- !app_assoc. reflexivity. }
  assert (Hdown :
    new_events s
      (digitalWrite RED_LED_PIN HIGH
         (serial MsgWiFiFailed
            (add_events (emit WiFiBegin (serial MsgConnecting s))
               (attempts a)))) =
    [Serial MsgConnecting; WiFiBegin] ++ attempts a ++
    [Serial MsgWiFiFailed; DigitalWrite RED_LED_PIN HIGH]).
  { apply new_events_app. simpl. rewrite <- !app_assoc. reflexivity. }
  split; [|split].
  - exists a. split; [exact Ha|].
    destruct (polls (S a) =? WL_CONNECTED) eqn:Hfin.
    + apply Z.eqb_eq in Hfin. rewrite (Hup Hfin).
      split; [|left; reflexivity].
      rewrite !count_app, count_attempts.
      change (count is_attempt_delay (pulses 3 200)) with 0%nat.
      unfold count. simpl. lia.
    + rewrite Hdown. split; [|right; reflexivity].
      rewrite !count_app, count_attempts.
      unfold count. simpl. lia.
  - intros k Hk Hkb Hkat Hnext.
    assert (a = k) as ->
      by (apply (first_up_unique polls a k 30); auto).
    rewrite Hnext, Z.eqb_refl. rewrite (Hup Hnext).
    destruct (blink_loop_effect (Z.to_nat 3) 200
      (digitalWrite RED_LED_PIN LOW
         (serial MsgWiFiConnected
            (add_events (emit WiFiBegin (serial MsgConnecting s))
               (attempts k))))) as (_ & Hb & Hr & _).
    rewrite Hb, Hr. split; [reflexivity|]. split; [|split; reflexivity].
    rewrite !count_app.
    change (count is_blue_on (pulses 3 200)) with 3%nat.
    assert (count is_blue_on (attempts k) = 0%nat) as ->; [|reflexivity].
    clear. induction k as [|k IH]; [reflexivity|].
    rewrite attempts_succ, count_app, IH. reflexivity.
  - intros Hnever.
    assert (a = 30%nat) as ->.
    { destruct (Nat.eq_dec a 30) as [|Hne]; [assumption|].
      exfalso. apply (Hnever a); [lia|]. apply Hat. lia. }
    assert ((polls 31%nat =? WL_CONNECTED) = false) as ->
      by (apply Z.eqb_neq, Hnever; lia).
    rewrite Hdown. repeat split; reflexivity.
Qed.

(** ** Supervising the link *)

Lemma count_no_edge_attempts (n : nat) :
  count is_lost_edge (attempts n) = 0%nat /\
  count is_reconnected_edge (attempts n) = 0%nat.
Proof.
  induction n as [|n [IH1 IH2]]; [split; reflexivity|].
  rewrite attempts_succ, !count_app, IH1, IH2. split; reflexivity.
Qed.

(** connectToWiFi prints neither edge line and leaves the statics of
    checkWiFiConnection, the mutex and the counters alone. *)
Lemma connect_effect (polls : nat -> Z) (s : state) :
  exists evs,
    trace (connectToWiFi polls s) = trace s ++ evs /\
    count is_lost_edge evs = 0%nat /\
    count is_reconnected_edge evs = 0%nat /\
    wasConnected (connectToWiFi polls s) = wasConnected s /\
    lastCheckTime (connectToWiFi polls s) = lastCheckTime s /\
    lastPollTime (connectToWiFi polls s) = lastPollTime s /\
    ledMutex (connectToWiFi polls s) = ledMutex s /\
    (blue_led s = LOW -> blue_led (connectToWiFi polls s) = LOW).
Proof.
  unfold connectToWiFi.
  destruct (connect_wait_shape MAX_ATTEMPTS 0 polls
              (emit WiFiBegin (serial MsgConnecting s)))
    as (a & _ & Heq & _).
  rewrite Heq. cbn [Nat.add].
  destruct (count_no_edge_attempts a) as [Hl Hr].
  destruct (polls (S a) =? WL_CONNECTED).
  - unfold blinkBlueLED.
    destruct (blink_loop_effect (Z.to_nat 3) 200
      (digitalWrite RED_LED_PIN LOW
         (serial MsgWiFiConnected
            (add_events (emit WiFiBegin (serial MsgConnecting s))
               (attempts a))))) as (Ht & Hb & _ & Hm & Hw & Hc & Hp & _).
    rewrite Ht, Hb, Hm, Hw, Hc, Hp. simpl.
    eexists. split; [rewrite <- !app_assoc; reflexivity|].
    rewrite !count_app, Hl, Hr. repeat split; reflexivity.
  - simpl. eexists. split; [rewrite <- !app_assoc; reflexivity|].
    rewrite !count_app, Hl, Hr. repeat split; auto.
Qed.

Lemma check_not_due (c : check_input) (s : state) :
  check_due c s = false -> check c s = s.
Proof.
  unfold check_due, check, checkWiFiConnection. now intros ->.
Qed.

(** One check that gets past the gate: it records the state it sees and
    prints an edge line exactly when that state differs from the recorded
    one. *)
Lemma check_effect (c : check_input) (s : state) :
  check_due c s = true ->
  exists evs,
    trace (check c s) = trace s ++ evs /\
    wasConnected (check c s) = (check_status c =? WL_CONNECTED) /\
    count is_lost_edge evs =
      lost_edges (wasConnected s) [check_status c =? WL_CONNECTED] /\
    count is_reconnected_edge evs =
      reconnected_edges (wasConnected s) [check_status c =? WL_CONNECTED].
Proof.
  unfold check_due, check, checkWiFiConnection. intros ->.
  destruct (check_status c =? WL_CONNECTED); cbn [negb].
  - cbn [wasConnected set_lastCheckTime].
    destruct (wasConnected s) eqn:Hw; cbn [negb].
    + exists []. simpl. rewrite app_nil_r. auto.
    + eexists. simpl. rewrite <- !app_assoc. simpl.
      repeat split; reflexivity.
  - cbn [wasConnected set_lastCheckTime].
    destruct (wasConnected s) eqn:Hw.
    + match goal with |- context [connectToWiFi ?p ?x] =>
        destruct (connect_effect p x) as (evs & Ht & Hl & Hr & Hwas & _)
      end.
      rewrite Ht, Hwas. simpl. eexists.
      split; [rewrite <- !app_assoc; reflexivity|].
      rewrite !count_app, Hl, Hr. repeat split; reflexivity.
    + match goal with |- context [connectToWiFi ?p ?x] =>
        destruct (connect_effect p x) as (evs & Ht & Hl & Hr & Hwas & _)
      end.
      rewrite Ht, Hwas. simpl. exists evs. rewrite Hw, Hl, Hr. auto.
Qed.

Lemma last_cons (obs : list bool) :
  forall o was : bool, last (o :: obs) was = last obs o.
Proof.
  induction obs as [|o' obs IH]; intros o was; [reflexivity|].
  change (last (o :: o' :: obs) was) with (last (o' :: obs) was).
  now rewrite !IH.
Qed.

Lemma lost_edges_app (obs1 obs2 : list bool) :
  forall was,
    lost_edges was (obs1 ++ obs2) =
    (lost_edges was obs1 + lost_edges (last obs1 was) obs2)%nat.
Proof.
  induction obs1 as [|o obs1 IH]; intros was; [reflexivity|].
  cbn [app lost_edges]. rewrite IH.
  rewrite last_cons. lia.
Qed.

Lemma reconnected_edges_app (obs1 obs2 : list bool) :
  forall was,
    reconnected_edges was (obs1 ++ obs2) =
    (reconnected_edges was obs1 + reconnected_edges (last obs1 was) obs2)%nat.
Proof.
  induction obs1 as [|o obs1 IH]; intros was; [reflexivity|].
  cbn [app reconnected_edges]. rewrite IH.
  rewrite last_cons. lia.
Qed.

(** A sequence of checks prints as many edge lines as the link states it sees
    have edges. *)
Lemma checks_effect (cs : list check_input) :
  forall s : state,
  exists evs,
    trace (run_checks cs s) = trace s ++ evs /\
    wasConnected (run_checks cs s) = last (observations cs s) (wasConnected s) /\
    count is_lost_edge evs = lost_edges (wasConnected s) (observations cs s) /\
    count is_reconnected_edge evs =
      reconnected_edges (wasConnected s) (observations cs s).
Proof.
  induction cs as [|c cs IH]; intros s.
  - exists []. simpl. rewrite app_nil_r. auto.
  - cbn [run_checks observations].
    destruct (IH (check c s)) as (evs2 & Ht2 & Hw2 & Hl2 & Hr2).
    destruct (check_due c s) eqn:Hdue.
    + destruct (check_effect c s Hdue) as (evs1 & Ht1 & Hw1 & Hl1 & Hr1).
      exists (evs1 ++ evs2).
      rewrite Ht2, Ht1, Hw2, Hw1, <- app_assoc.
      rewrite lost_edges_app, reconnected_edges_app, !count_app.
      rewrite Hl1, Hl2, Hr1, Hr2, Hw1. cbn [last].
      repeat split; try reflexivity.
      cbn [app]. now rewrite last_cons.
    + rewrite (check_not_due c s Hdue) in *.
      exists evs2. cbn [app]. auto.
Qed.

Lemma last_repeat (b : bool) (n : nat) :
  forall was : bool, last (repeat b (S n)) was = b.
Proof.
  induction n as [|n IH]; intros was; [reflexivity|].
  change (repeat b (S (S n))) with (b :: repeat b (S n)).
  rewrite last_cons. apply IH.
Qed.

Lemma edges_repeat (b : bool) (n : nat) :
  lost_edges b (repeat b n) = 0%nat /\
  reconnected_edges b (repeat b n) = 0%nat.
Proof.
  induction n as [|n [IH1 IH2]]; [split; reflexivity|].
  cbn [repeat lost_edges reconnected_edges]. rewrite IH1, IH2.
  destruct b; split; reflexivity.
Qed.

(** C8, as the code has it.  Over checks that see the link connected, then
    disconnected, then connected again (at least one check each), exactly one
    lost line is printed; exactly one reconnected line is printed when the
    link was recorded as connected before the first check, and two when it
    was not, as after boot: the first check that sees the link connected
    then prints one as well.  A check that sees the recorded state prints no
    edge line. *)
Theorem link_edges (cs : list check_input) (s : state) (p m n : nat) :
  observations cs s =
    repeat true (S p) ++ repeat false (S m) ++ repeat true (S n) ->
  count is_lost_edge (new_events s (run_checks cs s)) = 1%nat /\
  count is_reconnected_edge (new_events s (run_checks cs s)) =
    (if wasConnected s then 1%nat else 2%nat) /\
  (forall (c : check_input) (s0 : state),
     check_due c s0 = true ->
     (check_status c =? WL_CONNECTED) = wasConnected s0 ->
     count is_lost_edge (new_events s0 (check c s0)) = 0%nat /\
     count is_reconnected_edge (new_events s0 (check c s0)) = 0%nat).
Proof.
  intros Hobs.
  destruct (checks_effect cs s) as (evs & Ht & _ & Hl & Hr).
  rewrite (new_events_app _ _ _ Ht), Hl, Hr, Hobs.
  rewrite !lost_edges_app, !reconnected_edges_app, !last_repeat.
  change (repeat true (S p)) with (true :: repeat true p).
  change (repeat false (S m)) with (false :: repeat false m).
  change (repeat true (S n)) with (true :: repeat true n).
  cbn [lost_edges reconnected_edges].
  destruct (edges_repeat true p) as [-> ->].
  destruct (edges_repeat false m) as [-> ->].
  destruct (edges_repeat true n) as [-> ->].
  split; [now destruct (wasConnected s)|].
  split; [now destruct (wasConnected s)|].
  intros c s0 Hdue Hsame.
  destruct (check_effect c s0 Hdue) as (evs0 & Ht0 & _ & Hl0 & Hr0).
  rewrite (new_events_app _ _ _ Ht0), Hl0, Hr0, Hsame.
  cbn [lost_edges reconnected_edges].
  now destruct (wasConnected s0).
Qed.

(** ** The blue LED *)

Lemma exec_blue (me : nat) (i : instr) (s s' : state) :
  red_only i = true -> exec me i s = Some s' -> blue_led s' = blue_led s.
Proof.
  destruct i; simpl; intros Hred Hex;
    try (injection Hex as <-; reflexivity).
  - destruct (ledMutex s); [discriminate|]. now injection Hex as <-.
  - injection Hex as <-. unfold digitalWrite. now rewrite Hred.
  - injection Hex as <-.
    destruct (failedRequests s =? 0); [|reflexivity].
    unfold digitalWrite. now rewrite Hred.
Qed.

Lemma run_code_blue (me : nat) (code : list instr) :
  forall s s' : state,
    forallb red_only code = true ->
    run_code me code s = Some s' ->
    blue_led s' = blue_led s.
Proof.
  induction code as [|i code IH]; intros s s' Hred Hrun; simpl in *.
  - now injection Hrun as <-.
  - apply andb_prop in Hred as [Hi Hcode].
    destruct (exec me i s) as [s1|] eqn:Hex; [|discriminate].
    rewrite (IH s1 s' Hcode Hrun). exact (exec_blue me i s s1 Hi Hex).
Qed.

Lemma task_code_red_only (index : Z) (r : http_result) :
  forallb red_only (sendGetRequestTask index r) = true.
Proof. request_paths r; reflexivity. Qed.

Lemma set_task_red_only (ts : tasks) :
  forall (k : nat) (code : list instr),
    Forall (fun t => forallb red_only t = true) ts ->
    forallb red_only code = true ->
    Forall (fun t => forallb red_only t = true) (set_task k code ts).
Proof.
  induction ts as [|t ts IH]; intros k code Hts Hcode;
    [destruct k; constructor|].
  inversion_clear Hts as [|? ? Ht Hrest].
  destruct k; simpl; constructor; auto.
Qed.

Lemma step_task_blue (k : nat) (c : tasks * state) :
  Forall (fun t => forallb red_only t = true) (fst c) ->
  Forall (fun t => forallb red_only t = true) (fst (step_task k c)) /\
  blue_led (snd (step_task k c)) = blue_led (snd c).
Proof.
  intros Hts. unfold step_task.
  destruct (nth_error (fst c) k) as [[|i rest]|] eqn:Hnth; auto.
  destruct (exec (S k) i (snd c)) as [s'|] eqn:Hex; auto.
  apply nth_error_In in Hnth.
  pose proof (proj1 (Forall_forall _ _) Hts _ Hnth) as Hcode.
  simpl in Hcode. apply andb_prop in Hcode as [Hi Hrest]. simpl. split.
  - now apply set_task_red_only.
  - exact (exec_blue (S k) i (snd c) s' Hi Hex).
Qed.

Lemma run_tasks_blue (slice : list nat) :
  forall c : tasks * state,
    Forall (fun t => forallb red_only t = true) (fst c) ->
    Forall (fun t => forallb red_only t = true) (fst (run_tasks slice c)) /\
    blue_led (snd (run_tasks slice c)) = blue_led (snd c).
Proof.
  unfold run_tasks.
  induction slice as [|k slice IH]; intros c Hts; simpl; [auto|].
  destruct (step_task_blue k c Hts) as [Hts1 Hb1].
  destruct (IH (step_task k c) Hts1) as [Hts2 Hb2].
  split; [exact Hts2|congruence].
Qed.

Lemma launch_tasks_blue (urls : list string) :
  forall (i : nat) (total : Z) (http : nat -> http_result)
         (sched : list (list nat)) (c : tasks * state),
    Forall (fun t => forallb red_only t = true) (fst c) ->
    Forall (fun t => forallb red_only t = true)
           (fst (snd (launch_tasks urls i total http sched c))) /\
    blue_led (snd (snd (launch_tasks urls i total http sched c))) =
      blue_led (snd c).
Proof.
  induction urls as [|url urls IH]; intros i total http sched c Hts;
    cbn [launch_tasks]; [auto|].
  match goal with |- context [run_tasks ?sl ?c0] =>
    destruct (run_tasks_blue sl c0) as [Hts1 Hb1]
  end.
  { simpl. apply Forall_app. split; [exact Hts|].
    constructor; [apply task_code_red_only|constructor]. }
  match goal with |- context [launch_tasks urls ?i' ?t' ?h' ?s' ?c'] =>
    destruct (IH i' t' h' s' c' Hts1) as [Hts2 Hb2]
  end.
  split; [exact Hts2|]. rewrite Hb2, Hb1. reflexivity.
Qed.

Lemma wait_tasks_blue (sched : list (list nat)) :
  forall (c : tasks * state) (ts : tasks) (s' : state),
    Forall (fun t => forallb red_only t = true) (fst c) ->
    wait_tasks sched c = Some (ts, s') ->
    blue_led s' = blue_led (snd c).
Proof.
  induction sched as [|slice sched IH]; intros c ts s' Hts Hwait;
    rewrite wait_tasks_eq in Hwait; cbn zeta in Hwait;
    destruct (activeRequests (emit (CounterRead ActiveRequests) (snd c)) >? 0);
    try discriminate; try (now injection Hwait as _ <-).
  match type of Hwait with context [run_tasks ?sl ?c0] =>
    destruct (run_tasks_blue sl c0 Hts) as [Hts1 Hb1]
  end.
  rewrite (IH _ ts s' Hts1 Hwait), Hb1. reflexivity.
Qed.

Lemma poll_blue (API_ENDPOINTS : list string) (status : Z)
      (http : nat -> http_result) (sched : list (list nat)) (s s' : state) :
  pollEndpoints API_ENDPOINTS status http sched s = Some s' ->
  blue_led s' = blue_led s.
Proof.
  unfold pollEndpoints, poll_cycle.
  destruct (negb (status =? WL_CONNECTED)).
  - match goal with |- context [run_code ?me ?code s] =>
      destruct (run_code me code s) as [s1|] eqn:Hrun; [|discriminate];
      intros Hs; injection Hs as <-;
      exact (run_code_blue me code s s1 eq_refl Hrun)
    end.
  - match goal with |- context [launch_tasks ?u ?i ?t ?h ?sc ?c] =>
      destruct (launch_tasks_blue u i t h sc c (Forall_nil _)) as [Hts Hb];
      destruct (launch_tasks u i t h sc c) as [sched' c'] eqn:Hlaunch
    end.
    simpl in Hts, Hb.
    destruct (wait_tasks sched' c') as [[ts s1]|] eqn:Hwait; [|discriminate].
    intros Hs; injection Hs as <-.
    pose proof (wait_tasks_blue sched' c' ts s1 Hts Hwait) as Hb1.
    unfold cycle_summary.
    destruct (failedRequests (emit (CounterRead FailedRequests) s1) >? 0);
      simpl; congruence.
Qed.

Lemma blink_keeps_low (times delayMs : Z) (s : state) :
  blue_led s = LOW -> blue_led (blinkBlueLED times delayMs s) = LOW.
Proof.
  intros Hlow. unfold blinkBlueLED.
  rewrite (proj1 (proj2 (blink_loop_effect (Z.to_nat times) delayMs s))).
  now destruct (Z.to_nat times).
Qed.

(** A blink of at least one pulse ends with the blue LED off, whatever its
    level was before. *)
Lemma blink_ends_low (times delayMs : Z) (s : state) :
  0 < times -> blue_led (blinkBlueLED times delayMs s) = LOW.
Proof.
  intros Hpos. unfold blinkBlueLED.
  rewrite (proj1 (proj2 (blink_loop_effect (Z.to_nat times) delayMs s))).
  destruct (Z.to_nat times) eqn:Hn; [lia|reflexivity].
Qed.

Lemma connect_keeps_low (polls : nat -> Z) (s : state) :
  blue_led s = LOW -> blue_led (connectToWiFi polls s) = LOW.
Proof.
  destruct (connect_effect polls s) as (evs & H). intros Hlow.
  now apply H.
Qed.

Lemma check_keeps_low (currentTime status : Z) (polls : nat -> Z) (s : state) :
  blue_led s = LOW ->
  blue_led (checkWiFiConnection currentTime status polls s) = LOW.
Proof.
  intros Hlow. unfold checkWiFiConnection.
  destruct (ulong_wrap (currentTime - lastCheckTime s) >=? 1000); [|exact Hlow].
  destruct (status =? WL_CONNECTED); cbn [negb].
  - cbn [wasConnected set_lastCheckTime].
    destruct (wasConnected s); simpl; exact Hlow.
  - apply connect_keeps_low.
    cbn [wasConnected set_lastCheckTime].
    destruct (wasConnected s); simpl; exact Hlow.
Qed.

(** C10. In every state the firmware is in when one of its operations has
    returned, the blue LED is off, and blinkBlueLED called there with any
    number of pulses and any delay returns with the blue LED off. *)
Theorem blue_led_never_latched (API_ENDPOINTS : list string) (s : state) :
  reachable API_ENDPOINTS s ->
  blue_led s = LOW /\
  forall times delayMs : Z, blue_led (blinkBlueLED times delayMs s) = LOW.
Proof.
  intros Hreach.
  assert (Hlow : blue_led s = LOW).
  { induction Hreach as
      [s0 polls status p now s Hsetup
      | s c now p s' _ IH Hloop
      | s polls _ IH
      | s currentTime status polls _ IH
      | s status http sched s' _ IH Hpoll
      | s me index r s' _ IH Hrun
      | s times delayMs _ IH ].
    - unfold setup in Hsetup.
      match type of Hsetup with context [connectToWiFi polls ?x] =>
        assert (Hc : blue_led (connectToWiFi polls x) = LOW)
          by (apply connect_keeps_low; reflexivity);
        destruct (status =? WL_CONNECTED);
        [ destruct (pollEndpoints API_ENDPOINTS (poll_status p) (poll_http p)
                      (poll_sched p) (connectToWiFi polls x)) as [s1|] eqn:Hp;
          [|discriminate];
          injection Hsetup as <-; simpl;
          rewrite (poll_blue _ _ _ _ _ _ Hp); exact Hc
        | injection Hsetup as <-; exact Hc ]
      end.
    - unfold loop in Hloop.
      pose proof (check_keeps_low (check_time c) (check_status c)
                    (check_polls c) s IH) as Hc.
      destruct (ulong_wrap _ >=? POLL_INTERVAL_MS).
      + match type of Hloop with context [pollEndpoints ?a ?b ?h ?sc ?x] =>
          destruct (pollEndpoints a b h sc x) as [s1|] eqn:Hp; [|discriminate]
        end.
        injection Hloop as <-. simpl.
        rewrite (poll_blue _ _ _ _ _ _ Hp). exact Hc.
      + injection Hloop as <-. exact Hc.
    - apply connect_keeps_low. exact IH.
    - apply check_keeps_low. exact IH.
    - rewrite (poll_blue _ _ _ _ _ _ Hpoll). exact IH.
    - rewrite (run_code_blue _ _ _ _ (task_code_red_only index r) Hrun).
      exact IH.
    - apply blink_keeps_low. exact IH. }
  split; [exact Hlow|].
  intros times delayMs. now apply blink_keeps_low.
Qed.

(** ** A cycle whose workers finish one after the other *)

Lemma nth_error_set_task_eq (ts : tasks) :
  forall (k : nat) (code old : list instr),
    nth_error ts k = Some old ->
    nth_error (set_task k code ts) k = Some code.
Proof.
  induction ts as [|t ts IH]; intros k code old Hnth;
    destruct k; simpl in *; try discriminate; eauto.
Qed.

Lemma nth_error_set_task_neq (ts : tasks) :
  forall (k j : nat) (code : list instr),
    j <> k -> nth_error (set_task k code ts) j = nth_error ts j.
Proof.
  induction ts as [|t ts IH]; intros k j code Hne.
  - now destruct k.
  - destruct k, j; simpl; try reflexivity; try contradiction.
    apply IH. congruence.
Qed.

Lemma set_task_same (ts : tasks) :
  forall (k : nat) (code : list instr),
    nth_error ts k = Some code -> set_task k code ts = ts.
Proof.
  induction ts as [|t ts IH]; intros k code Hnth;
    destruct k; simpl in *; try discriminate.
  - now injection Hnth as ->.
  - f_equal. now apply IH.
Qed.








(** * Further properties of the code *)

(** ** connectToWiFi and blinkBlueLED *)

Lemma count_attempts_none (p : event -> bool) (n : nat) :
  p (Delay 500) = false -> p (Serial MsgDot) = false ->
  count p (attempts n) = 0%nat.
Proof.
  intros Hd Hs. induction n as [|n IH]; [reflexivity|].
  rewrite attempts_succ, count_app, IH. unfold count. simpl.
  now rewrite Hd, Hs.
Qed.

Lemma count_cons (p : event -> bool) (e : event) (l : list event) :
  count p (e :: l) = ((if p e then 1 else 0) + count p l)%nat.
Proof. unfold count. simpl. now destruct (p e). Qed.

(** What connectToWiFi does, in one piece: [a] attempts, then one of its two
    results, [ok] telling which. *)
Lemma connect_shape (polls : nat -> Z) (s : state) :
  exists (a : nat) (ok : bool),
    (a <= 30)%nat /\
    ok = (polls (S a) =? WL_CONNECTED) /\
    (forall j, (j < a)%nat -> polls j <> WL_CONNECTED) /\
    ((a < 30)%nat -> polls a = WL_CONNECTED) /\
    trace (connectToWiFi polls s) =
      trace s ++ [Serial MsgConnecting; WiFiBegin] ++ attempts a ++
      (if ok
       then [Serial MsgWiFiConnected; DigitalWrite RED_LED_PIN LOW]
              ++ pulses 3 200
       else [Serial MsgWiFiFailed; DigitalWrite RED_LED_PIN HIGH]) /\
    red_led (connectToWiFi polls s) = (if ok then LOW else HIGH) /\
    blue_led (connectToWiFi polls s) = (if ok then LOW else blue_led s) /\
    ledMutex (connectToWiFi polls s) = ledMutex s /\
    activeRequests (connectToWiFi polls s) = activeRequests s /\
    failedRequests (connectToWiFi polls s) = failedRequests s /\
    wasConnected (connectToWiFi polls s) = wasConnected s /\
    lastCheckTime (connectToWiFi polls s) = lastCheckTime s /\
    lastPollTime (connectToWiFi polls s) = lastPollTime s.
Proof.
  unfold connectToWiFi.
  destruct (connect_wait_shape MAX_ATTEMPTS 0 polls
              (emit WiFiBegin (serial MsgConnecting s)))
    as (a & Ha & Heq & Hbefore & Hat).
  rewrite Heq. cbn [Nat.add] in *. unfold MAX_ATTEMPTS in *.
  exists a, (polls (S a) =? WL_CONNECTED).
  split; [exact Ha|]. split; [reflexivity|].
  split; [exact Hbefore|]. split; [exact Hat|].
  destruct (polls (S a) =? WL_CONNECTED).
  - unfold blinkBlueLED.
    destruct (blink_loop_effect (Z.to_nat 3) 200
      (digitalWrite RED_LED_PIN LOW
         (serial MsgWiFiConnected
            (add_events (emit WiFiBegin (serial MsgConnecting s))
               (attempts a))))) as (Ht & Hb & Hr & Hm & Hw & Hc & Hp & Hac & Hf).
    rewrite Ht, Hb, Hr, Hm, Hw, Hc, Hp, Hac, Hf. simpl.
    rewrite <- !app_assoc. repeat split; reflexivity.
  - simpl. rewrite <- !app_assoc. repeat split; reflexivity.
Qed.

(** X1. connectToWiFi calls [WiFi.begin] once and writes the red LED exactly
    once, without taking the mutex; it creates no task and leaves the two
    counters, the mutex, the poll timer and the statics of
    checkWiFiConnection as they are. *)
Theorem connect_writes_led_unlocked (polls : nat -> Z) (s : state) :
  count is_wifi_begin (new_events s (connectToWiFi polls s)) = 1%nat /\
  count is_red_write (new_events s (connectToWiFi polls s)) = 1%nat /\
  count is_take_event (new_events s (connectToWiFi polls s)) = 0%nat /\
  count is_give_event (new_events s (connectToWiFi polls s)) = 0%nat /\
  count is_counter_access (new_events s (connectToWiFi polls s)) = 0%nat /\
  count is_task_create (new_events s (connectToWiFi polls s)) = 0%nat /\
  ledMutex (connectToWiFi polls s) = ledMutex s /\
  activeRequests (connectToWiFi polls s) = activeRequests s /\
  failedRequests (connectToWiFi polls s) = failedRequests s /\
  wasConnected (connectToWiFi polls s) = wasConnected s /\
  lastCheckTime (connectToWiFi polls s) = lastCheckTime s /\
  lastPollTime (connectToWiFi polls s) = lastPollTime s.
Proof.
  destruct (connect_shape polls s)
    as (a & ok & _ & _ & _ & _ & Ht & _ & _ & Hm & Hac & Hf & Hw & Hc & Hp).
  rewrite (new_events_app _ _ _ Ht), !count_app.
  rewrite !count_attempts_none by reflexivity.
  repeat split; try assumption; destruct ok; reflexivity.
Qed.

(** X2. blinkBlueLED adds exactly [times] pulses to the trace, none when
    [times] is zero or negative, in which case the state is left as it is; it
    never touches the red LED, the mutex or the counters. *)
Theorem blink_exact (times delayMs : Z) (s : state) :
  new_events s (blinkBlueLED times delayMs s) = pulses (Z.to_nat times) delayMs /\
  count is_blue_on (new_events s (blinkBlueLED times delayMs s)) = Z.to_nat times /\
  blinkBlueLED (Z.min times 0) delayMs s = s /\
  red_led (blinkBlueLED times delayMs s) = red_led s /\
  ledMutex (blinkBlueLED times delayMs s) = ledMutex s /\
  activeRequests (blinkBlueLED times delayMs s) = activeRequests s /\
  failedRequests (blinkBlueLED times delayMs s) = failedRequests s.
Proof.
  unfold blinkBlueLED.
  destruct (blink_loop_effect (Z.to_nat times) delayMs s)
    as (Ht & _ & Hr & Hm & _ & _ & _ & Ha & Hf).
  rewrite (new_events_app _ _ _ Ht).
  split; [reflexivity|]. split; [|split].
  - generalize (Z.to_nat times). intros n.
    induction n as [|n IH]; [reflexivity|].
    unfold pulses in *. cbn [repeat concat]. rewrite count_app, IH.
    reflexivity.
  - replace (Z.to_nat (Z.min times 0)) with 0%nat by lia. reflexivity.
  - auto.
Qed.

(** ** checkWiFiConnection *)

Lemma elapsed_wrap (t d : Z) :
  0 <= d < 4294967296 -> ulong_wrap (ulong_wrap (t + d) - t) = d.
Proof.
  intros Hd. unfold ulong_wrap.
  rewrite Zminus_mod_idemp_l.
  replace (t + d - t) with d by lia.
  now apply Z.mod_small.
Qed.

(** One check that gets past the gate, apart from the edge lines. *)
Lemma check_shape (c : check_input) (s : state) :
  check_due c s = true ->
  exists evs,
    trace (check c s) = trace s ++ evs /\
    count is_wifi_begin evs =
      (if check_status c =? WL_CONNECTED then 0%nat else 1%nat) /\
    count is_take_event evs = 0%nat /\
    count is_give_event evs = 0%nat /\
    count is_counter_access evs = 0%nat /\
    count is_task_create evs = 0%nat /\
    count is_poll_line evs = 0%nat /\
    lastCheckTime (check c s) = check_time c /\
    ledMutex (check c s) = ledMutex s /\
    activeRequests (check c s) = activeRequests s /\
    failedRequests (check c s) = failedRequests s /\
    lastPollTime (check c s) = lastPollTime s.
Proof.
  unfold check_due, check, checkWiFiConnection. intros ->.
  destruct (check_status c =? WL_CONNECTED); cbn [negb].
  - cbn [wasConnected set_lastCheckTime].
    destruct (wasConnected s); cbn [negb].
    + exists []. simpl. rewrite app_nil_r. repeat split; reflexivity.
    + eexists. simpl. rewrite <- !app_assoc. simpl.
      repeat split; reflexivity.
  - match goal with |- context [connectToWiFi ?p ?x] =>
      destruct (connect_shape p x)
        as (a & ok & _ & _ & _ & _ & Ht & _ & _ & Hm & Hac & Hf & _ & Hc & Hp)
    end.
    rewrite Ht, Hm, Hac, Hf, Hc, Hp.
    cbn [wasConnected set_lastCheckTime].
    destruct (wasConnected s); simpl; eexists;
      (split; [rewrite <- ?app_assoc; reflexivity|]);
      repeat (rewrite count_cons || rewrite count_app);
      rewrite !count_attempts_none by reflexivity;
      repeat split; destruct ok; reflexivity.
Qed.

(** A sequence of checks, apart from the edge lines. *)
Lemma checks_shape (cs : list check_input) :
  forall s : state,
  exists evs,
    trace (run_checks cs s) = trace s ++ evs /\
    count is_wifi_begin evs = List.length (filter negb (observations cs s)) /\
    count is_take_event evs = 0%nat /\
    count is_give_event evs = 0%nat /\
    count is_counter_access evs = 0%nat /\
    count is_task_create evs = 0%nat /\
    count is_poll_line evs = 0%nat /\
    ledMutex (run_checks cs s) = ledMutex s /\
    activeRequests (run_checks cs s) = activeRequests s /\
    failedRequests (run_checks cs s) = failedRequests s /\
    lastPollTime (run_checks cs s) = lastPollTime s.
Proof.
  induction cs as [|c cs IH]; intros s.
  - exists []. simpl. rewrite app_nil_r. repeat split; reflexivity.
  - cbn [run_checks observations].
    destruct (IH (check c s))
      as (evs2 & Ht2 & Hb2 & Htk2 & Hg2 & Hca2 & Htc2 & Hpl2
          & Hm2 & Ha2 & Hf2 & Hp2).
    destruct (check_due c s) eqn:Hdue.
    + destruct (check_shape c s Hdue)
        as (evs1 & Ht1 & Hb1 & Htk1 & Hg1 & Hca1 & Htc1 & Hpl1 & _
            & Hm1 & Ha1 & Hf1 & Hp1).
      exists (evs1 ++ evs2).
      rewrite Ht2, Ht1, <- app_assoc, !count_app, filter_app, length_app.
      rewrite Hb1, Hb2, Htk1, Htk2, Hg1, Hg2, Hca1, Hca2, Htc1, Htc2.
      rewrite Hpl1, Hpl2.
      rewrite Hm2, Hm1, Ha2, Ha1, Hf2, Hf1, Hp2, Hp1.
      repeat split; try reflexivity.
      now destruct (check_status c =? WL_CONNECTED).
    + rewrite (check_not_due c s Hdue) in *.
      exists evs2. cbn [app]. repeat split; assumption.
Qed.

(** X3. The one-second gate of checkWiFiConnection works across the wrap of
    [millis()]: when [d] milliseconds have gone by since the last check that
    ran ([d] below 2^32), a call within the first second leaves the state as
    it is, and a later call runs the check: it records the time and the link
    state it sees. *)
Theorem check_gate_rollover (c : check_input) (s : state) (d : Z) :
  0 <= d < 4294967296 ->
  check_time c = ulong_wrap (lastCheckTime s + d) ->
  (d < 1000 -> check c s = s) /\
  (1000 <= d ->
   lastCheckTime (check c s) = check_time c /\
   wasConnected (check c s) = (check_status c =? WL_CONNECTED)).
Proof.
  intros Hd Htime.
  assert (Hgate : ulong_wrap (check_time c - lastCheckTime s) = d)
    by (rewrite Htime; now apply elapsed_wrap).
  split; intros Hlt.
  - apply check_not_due. unfold check_due. rewrite Hgate.
    rewrite Z.geb_leb. apply Z.leb_gt. exact Hlt.
  - assert (Hdue : check_due c s = true).
    { unfold check_due. rewrite Hgate, Z.geb_leb. now apply Z.leb_le. }
    destruct (check_shape c s Hdue)
      as (evs & _ & _ & _ & _ & _ & _ & _ & Hc & _).
    destruct (check_effect c s Hdue) as (evs' & _ & Hw & _).
    split; assumption.
Qed.

(** X4. Recovery has no retry limit: over any sequence of checks,
    connectToWiFi is called once for every check that gets past the gate and
    sees the link down, and never otherwise. *)
Theorem reconnect_at_every_down_check (cs : list check_input) (s : state) :
  count is_wifi_begin (new_events s (run_checks cs s)) =
  List.length (filter negb (observations cs s)).
Proof.
  destruct (checks_shape cs s) as (evs & Ht & Hb & _).
  now rewrite (new_events_app _ _ _ Ht).
Qed.

(** X5. The link checks write the red LED without the mutex and stay away
    from the poll cycle: a sequence of checks never takes or gives the mutex,
    reads or writes neither counter, creates no task, and leaves the mutex,
    the counters and the poll timer as they are. *)
Theorem checks_leave_tally (cs : list check_input) (s : state) :
  count is_take_event (new_events s (run_checks cs s)) = 0%nat /\
  count is_give_event (new_events s (run_checks cs s)) = 0%nat /\
  count is_counter_access (new_events s (run_checks cs s)) = 0%nat /\
  count is_task_create (new_events s (run_checks cs s)) = 0%nat /\
  ledMutex (run_checks cs s) = ledMutex s /\
  activeRequests (run_checks cs s) = activeRequests s /\
  failedRequests (run_checks cs s) = failedRequests s /\
  lastPollTime (run_checks cs s) = lastPollTime s.
Proof.
  destruct (checks_shape cs s)
    as (evs & Ht & _ & Htk & Hg & Hca & Htc & _ & H).
  rewrite (new_events_app _ _ _ Ht). auto.
Qed.

(** X6. A check that gets past the gate and sees the link down leaves the
    link recorded as down, whatever connectToWiFi achieves, and prints no
    reconnected line: that is left to the next check.  When connectToWiFi
    never sees the link, the check has waited through all 30 attempts and the
    red LED is on; when the link comes up at call [k], the check has waited
    through [k] attempts and the red LED is off. *)
Theorem check_link_down (c : check_input) (s : state) :
  check_due c s = true ->
  check_status c <> WL_CONNECTED ->
  wasConnected (check c s) = false /\
  count is_reconnected_edge (new_events s (check c s)) = 0%nat /\
  count is_lost_edge (new_events s (check c s)) =
    (if wasConnected s then 1%nat else 0%nat) /\
  ((forall j, (j <= 31)%nat -> check_polls c j <> WL_CONNECTED) ->
   red_led (check c s) = HIGH /\
   count is_attempt_delay (new_events s (check c s)) = 30%nat) /\
  (forall k : nat,
     (k <= 30)%nat ->
     (forall j, (j < k)%nat -> check_polls c j <> WL_CONNECTED) ->
     check_polls c k = WL_CONNECTED ->
     check_polls c (S k) = WL_CONNECTED ->
     red_led (check c s) = LOW /\
     count is_attempt_delay (new_events s (check c s)) = k).
Proof.
  intros Hdue Hdown. apply Z.eqb_neq in Hdown.
  split; [|split; [|split]].
  1-3: destruct (check_effect c s Hdue) as (evs & Ht & Hw & Hl & Hr);
    rewrite Hdown in Hw, Hl, Hr;
    rewrite ?(new_events_app _ _ _ Ht), ?Hl, ?Hr;
    cbn [lost_edges reconnected_edges];
    try exact Hw; now destruct (wasConnected s).
  unfold check_due in Hdue. unfold check, checkWiFiConnection.
  rewrite Hdue, Hdown. cbn [negb].
  match goal with |- context [connectToWiFi ?p ?x] =>
    destruct (connect_shape p x)
      as (a & ok & Ha & Hok & Hbefore & Hat & Ht & Hred & _);
    set (x0 := x) in *
  end.
  assert (Hpre : exists pre,
             trace x0 = trace s ++ pre /\ count is_attempt_delay pre = 0%nat).
  { subst x0. cbn [wasConnected set_lastCheckTime].
    destruct (wasConnected s).
    - eexists. simpl. rewrite <- app_assoc. split; reflexivity.
    - exists []. simpl. now rewrite app_nil_r. }
  destruct Hpre as (pre & Hpre & Hpre0).
  assert (Hcount : count is_attempt_delay
                     (new_events s (connectToWiFi (check_polls c) x0)) = a).
  { erewrite new_events_app by (rewrite Ht, Hpre, <- app_assoc; reflexivity).
    rewrite !count_app, Hpre0, count_attempts.
    destruct ok; unfold count; simpl; lia. }
  rewrite Hcount, Hred. split.
  - intros Hnever.
    assert (a = 30%nat) as ->.
    { destruct (Nat.eq_dec a 30) as [|Hne]; [assumption|].
      exfalso. apply (Hnever a); [lia|]. apply Hat. lia. }
    assert (ok = false) as ->
      by (rewrite Hok; apply Z.eqb_neq, Hnever; lia).
    split; reflexivity.
  - intros k Hk Hkb Hkat Hnext.
    assert (a = k) as ->
      by (apply (first_up_unique (check_polls c) a k 30); auto).
    assert (ok = true) as -> by (rewrite Hok, Hnext; apply Z.eqb_refl).
    split; reflexivity.
Qed.

(** ** The request task, path by path *)

(** X7. On every path through sendGetRequest, the early return after a failed
    [http.begin] included, the request task takes the mutex exactly once and
    gives it back, writes [activeRequests] exactly once, writes
    [failedRequests] once unless the request succeeded, writes the red LED
    only while it holds the mutex, and ends with [vTaskDelete]; the mutex is
    free afterwards. *)
Theorem task_every_path (me : nat) (index : Z) (r : http_result) (s : state) :
  ledMutex s = None ->
  exists s',
    run_code me (sendGetRequestTask index r) s = Some s' /\
    ledMutex s' = None /\
    count is_take_event (new_events s s') = 1%nat /\
    count is_give_event (new_events s s') = 1%nat /\
    count is_active_write (new_events s s') = 1%nat /\
    count is_failed_write (new_events s s') =
      (if is_success r then 0%nat else 1%nat) /\
    exclusive false (new_events s s') = Some false /\
    last (new_events s s') WiFiBegin = TaskDelete.
Proof.
  intros Hm.
  request_paths r; rewrite Hm; simpl;
    try (destruct (failedRequests s =? 0); simpl);
    (eexists; split; [reflexivity|]);
    read_new_events_with new_events_app;
    repeat split; reflexivity.
Qed.

(** X8. The lines that explain a failed request: none is printed when
    [http.begin] fails or the status code is positive; for a code that is not
    positive at most one is printed, the first that applies of connection
    refused, connection lost and read timeout, and none for any other
    code. *)
Theorem failure_detail_lines (me : nat) (index : Z) (r : http_result)
        (s : state) :
  ledMutex s = None ->
  exists s',
    run_code me (sendGetRequest index r) s = Some s' /\
    (begin_ok r = false \/ 0 < httpCode r ->
     count is_detail_line (new_events s s') = 0%nat) /\
    (begin_ok r = true -> httpCode r <= 0 ->
     count is_detail_line (new_events s s') =
       (if (httpCode r =? HTTPC_ERROR_CONNECTION_REFUSED)
           || (httpCode r =? HTTPC_ERROR_CONNECTION_LOST)
           || (httpCode r =? HTTPC_ERROR_READ_TIMEOUT)
        then 1%nat else 0%nat) /\
     (httpCode r = HTTPC_ERROR_CONNECTION_REFUSED ->
      In (Serial (MsgRefused index)) (new_events s s')) /\
     (httpCode r <> HTTPC_ERROR_CONNECTION_REFUSED ->
      httpCode r = HTTPC_ERROR_CONNECTION_LOST ->
      In (Serial (MsgConnLost index)) (new_events s s')) /\
     (httpCode r <> HTTPC_ERROR_CONNECTION_REFUSED ->
      httpCode r <> HTTPC_ERROR_CONNECTION_LOST ->
      httpCode r = HTTPC_ERROR_READ_TIMEOUT ->
      In (Serial (MsgReadTimeout index)) (new_events s s'))).
Proof.
  intros Hm. destruct r as [b c l]. unfold sendGetRequest.
  cbn [begin_ok httpCode payload_length].
  destruct b; cbn [negb].
  - destruct (c >? 0) eqn:Hpos.
    + apply Z.gtb_lt in Hpos.
      destruct (c =? HTTP_CODE_OK); simpl; rewrite Hm; simpl;
        try (destruct (failedRequests s =? 0); simpl);
        (eexists; split; [reflexivity|]);
        read_new_events_with new_events_app;
        (split; [reflexivity|]); intros; lia.
    + assert (Hle : c <= 0) by (rewrite Z.gtb_ltb in Hpos; now apply Z.ltb_ge).
      destruct (c =? HTTPC_ERROR_CONNECTION_REFUSED) eqn:H1;
        [| destruct (c =? HTTPC_ERROR_CONNECTION_LOST) eqn:H2;
           [| destruct (c =? HTTPC_ERROR_READ_TIMEOUT) eqn:H3]];
        simpl; rewrite Hm; simpl;
        (eexists; split; [reflexivity|]);
        read_new_events_with new_events_app;
        rewrite ?Z.eqb_eq, ?Z.eqb_neq in *;
        (split; [intros [Hb | Hp]; [discriminate|lia]|]);
        intros _ _; simpl; repeat split; intros; auto 12;
        try contradiction; try congruence.
  - simpl. rewrite Hm. simpl.
    (eexists; split; [reflexivity|]);
      read_new_events_with new_events_app.
    split; [reflexivity|]. intros Hb; discriminate.
Qed.

(** ** Workers that finish one after the other, in any order *)

Lemma nfail_perm (rs rs' : list http_result) :
  Permutation rs rs' -> nfail rs = nfail rs'.
Proof.
  unfold nfail.
  induction 1 as [|x l l' _ IH|x y l|l l' l'' _ IH1 _ IH2]; simpl.
  - reflexivity.
  - destruct (is_success x); simpl; congruence.
  - destruct (is_success x), (is_success y); reflexivity.
  - congruence.
Qed.

(** X9. After the reset, the counters and the red LED at the end of a run of
    workers that finish one after the other do not depend on the order in
    which they finish (nor on which task reports which result). *)
Theorem workers_order_irrelevant (rs rs' : list http_result) (i j : nat)
        (s : state) :
  Permutation rs rs' ->
  Z.of_nat (List.length rs) <= INT_MAX ->
  ledMutex s = None ->
  exists s1 s2,
    run_workers i rs (reset_counters (Z.of_nat (List.length rs)) s) = Some s1 /\
    run_workers j rs' (reset_counters (Z.of_nat (List.length rs)) s) = Some s2 /\
    tally s1 = tally s2.
Proof.
  intros Hperm Hmax Hm.
  pose proof (Permutation_length Hperm) as Hlen.
  destruct (run_workers_tally rs i
              (reset_counters (Z.of_nat (List.length rs)) s) Hm)
    as (s1 & Hrun1 & _ & Ht1).
  destruct (run_workers_tally rs' j
              (reset_counters (Z.of_nat (List.length rs)) s) Hm)
    as (s2 & Hrun2 & _ & Ht2).
  exists s1, s2. split; [exact Hrun1|]. split; [exact Hrun2|].
  unfold tally at 2 in Ht1. unfold tally at 2 in Ht2.
  cbn [activeRequests failedRequests red_led reset_counters
       set_failedRequests set_activeRequests emit] in Ht1, Ht2.
  destruct (fold_tally rs (Z.of_nat (List.length rs)) 0 (red_led s))
    as (red1 & Hfold1 & Hhigh1 & Hlow1);
    try (unfold INT_MIN, INT_MAX in *; lia).
  destruct (fold_tally rs' (Z.of_nat (List.length rs)) 0 (red_led s))
    as (red2 & Hfold2 & Hhigh2 & Hlow2);
    try (rewrite <- ?Hlen; unfold INT_MIN, INT_MAX in *; lia).
  rewrite Ht1, Ht2, Hfold1, Hfold2, <- Hlen, (nfail_perm rs rs' Hperm).
  rewrite (nfail_perm rs rs' Hperm) in Hhigh1, Hlow1.
  f_equal.
  destruct (nfail rs') eqn:Hn.
  - rewrite Hlow1, Hlow2 by reflexivity.
    destruct rs, rs'; try reflexivity; simpl in Hlen; discriminate.
  - rewrite Hhigh1, Hhigh2 by lia. reflexivity.
Qed.

(** ** Any schedule: properties kept by every step *)

Section Schedules.

Variable http : nat -> http_result.
Variable bound : nat.
Variable P : nat -> tasks -> state -> Prop.

Hypothesis P_step :
  forall L k i rest ts s s',
    P L ts s ->
    nth_error ts k = Some (i :: rest) ->
    exec (S k) i s = Some s' ->
    P L (set_task k rest ts) s'.

Hypothesis P_launch :
  forall L ts s total url,
    (L < bound)%nat ->
    P L ts s ->
    P (S L) (ts ++ [sendGetRequestTask (Z.of_nat L + 1) (http L)])
      (serial (MsgLaunched (Z.of_nat L + 1) total url)
              (emit (TaskCreate (Z.of_nat L + 1)) s)).

Hypothesis P_read :
  forall L ts s, P L ts s -> P L ts (emit (CounterRead ActiveRequests) s).

Hypothesis P_delay :
  forall L ts s, P L ts s -> P L ts (delay 50 s).

Lemma step_task_keeps (L k : nat) (c : tasks * state) :
  P L (fst c) (snd c) ->
  P L (fst (step_task k c)) (snd (step_task k c)).
Proof.
  intros HP. unfold step_task.
  destruct (nth_error (fst c) k) as [[|i rest]|] eqn:Hnth; auto.
  destruct (exec (S k) i (snd c)) as [s'|] eqn:Hex; auto.
  simpl. exact (P_step L k i rest (fst c) (snd c) s' HP Hnth Hex).
Qed.

Lemma run_tasks_keeps (L : nat) (slice : list nat) :
  forall c : tasks * state,
    P L (fst c) (snd c) ->
    P L (fst (run_tasks slice c)) (snd (run_tasks slice c)).
Proof.
  unfold run_tasks.
  induction slice as [|k slice IH]; intros c HP; simpl; [exact HP|].
  apply IH. now apply step_task_keeps.
Qed.

Lemma launch_keeps (urls : list string) :
  forall (i : nat) (total : Z) (sched : list (list nat)) (c : tasks * state),
    (i + List.length urls <= bound)%nat ->
    P i (fst c) (snd c) ->
    P (i + List.length urls)
      (fst (snd (launch_tasks urls i total http sched c)))
      (snd (snd (launch_tasks urls i total http sched c))).
Proof.
  induction urls as [|url urls IH]; intros i total sched c Hb HP;
    cbn [launch_tasks List.length] in *.
  - now rewrite Nat.add_0_r.
  - rewrite <- plus_n_Sm. change (S (i + List.length urls))
      with (S i + List.length urls)%nat.
    apply IH; [lia|].
    apply run_tasks_keeps. cbn [fst snd].
    apply P_launch; [lia|exact HP].
Qed.

Lemma wait_keeps (L : nat) (sched : list (list nat)) :
  forall c c' : tasks * state,
    wait_tasks sched c = Some c' ->
    P L (fst c) (snd c) ->
    P L (fst c') (snd c') /\ activeRequests (snd c') <= 0.
Proof.
  induction sched as [|slice sched IH]; intros c c' Hwait HP;
    rewrite wait_tasks_eq in Hwait; cbn zeta in Hwait;
    destruct (activeRequests (emit (CounterRead ActiveRequests) (snd c)) >? 0)
      eqn:Hact; try discriminate.
  - injection Hwait as <-. cbn [fst snd]. split; [now apply P_read|].
    rewrite Z.gtb_ltb in Hact. now apply Z.ltb_ge.
  - apply (IH _ c' Hwait). apply run_tasks_keeps. cbn [fst snd].
    now apply P_delay, P_read.
  - injection Hwait as <-. cbn [fst snd]. split; [now apply P_read|].
    rewrite Z.gtb_ltb in Hact. now apply Z.ltb_ge.
Qed.

(** A completed cycle: what held after the reset holds before the summary,
    for all tasks, and the wait loop was left with the counter at most 0. *)
Lemma cycle_keeps (API_ENDPOINTS : list string) (sched : list (list nat))
      (s : state) (ts' : tasks) (s' : state) :
  List.length API_ENDPOINTS = bound ->
  P 0 [] (reset_counters (NUM_ENDPOINTS API_ENDPOINTS) (serial MsgCycleStart s)) ->
  poll_cycle API_ENDPOINTS WL_CONNECTED http sched s = Some (ts', s') ->
  exists s1,
    s' = cycle_summary s1 /\
    P bound ts' s1 /\
    activeRequests s1 <= 0.
Proof.
  intros Hlen HP. unfold poll_cycle. rewrite Z.eqb_refl. cbn [negb].
  match goal with |- context [launch_tasks ?u ?i ?t ?h ?sc ?c] =>
    pose proof (launch_keeps u i t sc c) as Hl;
    destruct (launch_tasks u i t h sc c) as [sched' c1] eqn:Hlaunch
  end.
  cbn [fst snd Nat.add] in Hl. rewrite Hlen in Hl.
  specialize (Hl (le_n _) HP).
  destruct (wait_tasks sched' c1) as [[ts1 s1]|] eqn:Hwait; [|discriminate].
  intros Heq. injection Heq as <- <-.
  destruct (wait_keeps bound sched' c1 (ts1, s1) Hwait Hl) as [HP1 Hact].
  exists s1. auto.
Qed.

End Schedules.

(** ** Any schedule: the stages of the request tasks *)

Lemma follows_facts (code : list instr) :
  forall q : stage,
    follows q code = true ->
    existsb is_take code = match q with Before => true | _ => false end /\
    existsb is_give code =
      match q with Before | Holding => true | _ => false end /\
    existsb is_dec code = match q with Counted => false | _ => true end /\
    (q = Counted ->
     Forall (fun i => i = ITaskDelete) code /\ existsb is_inc code = false) /\
    (q = Recording \/ q = Counted -> existsb is_led_write code = false).
Proof.
  induction code as [|i code IH]; intros q H.
  - destruct q; simpl in H; try discriminate.
    simpl. repeat split; auto.
  - destruct q, i; simpl in H; try discriminate;
      destruct (IH _ H) as (Ht & Hg & Hd & Hc & Hw); simpl;
      rewrite ?Ht, ?Hg, ?Hd; repeat split; auto; intros;
      try match goal with Hq : _ = Counted |- _ => discriminate Hq end;
      try match goal with
          | Hq : _ \/ _ |- _ => destruct Hq as [Hq | Hq]; try discriminate Hq
          end;
      try (constructor; [reflexivity|]);
      try (apply Hc; reflexivity);
      try (apply Hw; auto).
Qed.

Lemma follows_stage (q : stage) (code : list instr) :
  follows q code = true -> stage_of code = q.
Proof.
  intros H. destruct (follows_facts code q H) as (Ht & Hg & Hd & _).
  unfold stage_of. rewrite Ht, Hg, Hd. now destruct q.
Qed.

Lemma task_code_follows (index : Z) (r : http_result) :
  follows Before (sendGetRequestTask index r) = true.
Proof. request_paths r; reflexivity. Qed.

(** One statement of a well-staged task: the stage it leads to. *)
Lemma follows_head (i : instr) (rest : list instr) :
  follows (stage_of (i :: rest)) (i :: rest) = true ->
  exists q',
    next_stage (stage_of (i :: rest)) i = Some q' /\
    follows q' rest = true /\
    stage_of rest = q'.
Proof.
  cbn [follows].
  destruct (next_stage (stage_of (i :: rest)) i) as [q'|]; [|discriminate].
  intros H. exists q'. split; [reflexivity|]. split; [exact H|].
  now apply follows_stage.
Qed.

Lemma Forall_set_task (Q : list instr -> Prop) (ts : tasks) :
  forall (k : nat) (code : list instr),
    Forall Q ts -> Q code -> Forall Q (set_task k code ts).
Proof.
  induction ts as [|t ts IH]; intros k code Hts Hcode;
    [destruct k; constructor|].
  inversion_clear Hts as [|? ? Ht Hrest].
  destruct k; simpl; constructor; auto.
Qed.

Lemma length_set_task (ts : tasks) :
  forall (k : nat) (code : list instr),
    List.length (set_task k code ts) = List.length ts.
Proof.
  induction ts as [|t ts IH]; intros k code; destruct k; simpl; auto.
Qed.

Lemma pending_set_task (p : instr -> bool) (ts : tasks) :
  forall (k : nat) (i : instr) (rest : list instr),
    nth_error ts k = Some (i :: rest) ->
    pending p ts =
    (pending p (set_task k rest ts) + (if p i then 1 else 0))%nat.
Proof.
  unfold pending.
  induction ts as [|t ts IH]; intros k i rest Hnth;
    destruct k; simpl in Hnth; try discriminate.
  - injection Hnth as ->. cbn [set_task concat].
    rewrite !filter_app, !length_app. cbn [filter].
    destruct (p i); simpl; lia.
  - cbn [set_task concat]. rewrite !filter_app, !length_app.
    rewrite (IH k i rest Hnth). lia.
Qed.

Lemma pending_app_one (p : instr -> bool) (ts : tasks) (code : list instr) :
  pending p (ts ++ [code]) =
  (pending p ts + List.length (filter p code))%nat.
Proof.
  unfold pending. rewrite concat_app, filter_app, length_app.
  simpl. now rewrite app_nil_r.
Qed.

Lemma pending_none (p : instr -> bool) (ts : tasks) :
  pending p ts = 0%nat ->
  forall code, In code ts -> existsb p code = false.
Proof.
  unfold pending. induction ts as [|t ts IH]; intros H0 code Hin;
    [contradiction|].
  cbn [concat] in H0. rewrite filter_app, length_app in H0.
  destruct Hin as [<- | Hin]; [|apply IH; [lia|exact Hin]].
  assert (Ht : List.length (filter p t) = 0%nat) by lia.
  clear - Ht. induction t as [|i t IHt]; [reflexivity|].
  simpl in *. destruct (p i); [discriminate|]. auto.
Qed.

Lemma exclusive_app (l1 l2 : list event) :
  forall held : bool,
    exclusive held (l1 ++ l2) =
    match exclusive held l1 with
    | Some held' => exclusive held' l2
    | None => None
    end.
Proof.
  induction l1 as [|e l1 IH]; intros held; [reflexivity|].
  destruct e; cbn [app exclusive]; try apply IH.
  - destruct ((pin =? RED_LED_PIN) && negb held); [reflexivity|apply IH].
  - destruct held; [reflexivity|apply IH].
  - destruct held; [apply IH|reflexivity].
Qed.

(** What one statement does, field by field. *)
Lemma exec_effect (me : nat) (i : instr) (s s' : state) :
  exec me i s = Some s' ->
  exists evs,
    trace s' = trace s ++ evs /\
    forallb is_task_event evs = true /\
    ledMutex s' =
      match i with
      | ITake => Some me
      | IGive => None
      | _ => ledMutex s
      end /\
    (i = ITake -> ledMutex s = None) /\
    activeRequests s' =
      match i with
      | IActiveDec => int_wrap (activeRequests s - 1)
      | _ => activeRequests s
      end /\
    failedRequests s' =
      match i with
      | IFailedInc => int_wrap (failedRequests s + 1)
      | _ => failedRequests s
      end /\
    red_led s' =
      match i with
      | IDigitalWrite pin v => if pin =? RED_LED_PIN then v else red_led s
      | IIfNoneFailed pin v =>
          if (failedRequests s =? 0) && (pin =? RED_LED_PIN) then v
          else red_led s
      | _ => red_led s
      end /\
    match i with
    | ITake => evs = [SemaphoreTake]
    | IGive => evs = [SemaphoreGive]
    | IDigitalWrite _ _ | IIfNoneFailed _ _ => exclusive true evs = Some true
    | _ => forall held, exclusive held evs = Some held
    end.
Proof.
  destruct i; simpl; intros H;
    try (destruct (ledMutex s) eqn:Hm; [discriminate|]);
    injection H as <-.
  - exists [Serial m].
    repeat split; try reflexivity; try discriminate.
  - exists [SemaphoreTake].
    repeat split; try reflexivity; try discriminate; auto.
  - exists [SemaphoreGive].
    repeat split; try reflexivity; try discriminate.
  - exists [DigitalWrite pin v]. unfold digitalWrite.
    destruct (pin =? RED_LED_PIN); [|destruct (pin =? BLUE_LED_PIN)];
      repeat split; try reflexivity; try discriminate;
      simpl; rewrite ?andb_false_r; reflexivity.
  - destruct (failedRequests s =? 0).
    + exists [CounterRead FailedRequests; DigitalWrite pin v].
      unfold digitalWrite.
      destruct (pin =? RED_LED_PIN); [|destruct (pin =? BLUE_LED_PIN)];
        simpl; rewrite <- ?app_assoc;
        repeat split; try reflexivity; try discriminate;
        simpl; rewrite ?andb_false_r; reflexivity.
    + exists [CounterRead FailedRequests].
      repeat split; try reflexivity; try discriminate.
  - exists [CounterRead FailedRequests; CounterWrite FailedRequests].
    simpl. rewrite <- app_assoc.
    repeat split; try reflexivity; try discriminate.
  - exists [CounterRead ActiveRequests; CounterWrite ActiveRequests].
    simpl. rewrite <- app_assoc.
    repeat split; try reflexivity; try discriminate.
  - exists [TaskDelete].
    repeat split; try reflexivity; try discriminate.
Qed.

Lemma holder_is (ts : tasks) (s : state) (k : nat) (code : list instr) :
  mutex_owned ts s ->
  nth_error ts k = Some code ->
  stage_of code = Holding ->
  ledMutex s = Some (S k).
Proof. intros [Hown _] Hnth Hq. now apply (Hown k code Hnth). Qed.

Lemma mutex_owned_keep (ts : tasks) (s s' : state) (k : nat)
      (code rest : list instr) :
  mutex_owned ts s ->
  nth_error ts k = Some code ->
  ledMutex s' = ledMutex s ->
  (stage_of rest = Holding <-> stage_of code = Holding) ->
  mutex_owned (set_task k rest ts) s'.
Proof.
  intros [Hown Hex] Hnth Hm Hq. split.
  - intros j codej Hj. rewrite Hm.
    destruct (Nat.eq_dec j k) as [-> | Hne].
    + rewrite (nth_error_set_task_eq ts k rest code Hnth) in Hj.
      injection Hj as <-. rewrite Hq. now apply Hown.
    + rewrite nth_error_set_task_neq in Hj by exact Hne. now apply Hown.
  - intros h Hh. rewrite Hm in Hh.
    destruct (Hex h Hh) as (k0 & code0 & -> & Hk0).
    destruct (Nat.eq_dec k0 k) as [-> | Hne].
    + exists k, rest. split; [reflexivity|].
      exact (nth_error_set_task_eq ts k rest code Hnth).
    + exists k0, code0. split; [reflexivity|].
      now rewrite nth_error_set_task_neq.
Qed.

Lemma mutex_owned_take (ts : tasks) (s s' : state) (k : nat)
      (code rest : list instr) :
  mutex_owned ts s ->
  nth_error ts k = Some code ->
  ledMutex s = None ->
  ledMutex s' = Some (S k) ->
  stage_of rest = Holding ->
  mutex_owned (set_task k rest ts) s'.
Proof.
  intros [Hown Hex] Hnth Hfree Hm Hq. split.
  - intros j codej Hj. rewrite Hm.
    destruct (Nat.eq_dec j k) as [-> | Hne].
    + rewrite (nth_error_set_task_eq ts k rest code Hnth) in Hj.
      injection Hj as <-. tauto.
    + rewrite nth_error_set_task_neq in Hj by exact Hne.
      pose proof (Hown j codej Hj) as Hiff. rewrite Hfree in Hiff.
      split; [intros Hh; apply Hiff in Hh; discriminate|].
      intros Heq. injection Heq as Heq. congruence.
  - intros h Hh. rewrite Hm in Hh. injection Hh as <-.
    exists k, rest. split; [reflexivity|].
    exact (nth_error_set_task_eq ts k rest code Hnth).
Qed.

Lemma mutex_owned_give (ts : tasks) (s s' : state) (k : nat)
      (code rest : list instr) :
  mutex_owned ts s ->
  nth_error ts k = Some code ->
  stage_of code = Holding ->
  ledMutex s' = None ->
  stage_of rest <> Holding ->
  mutex_owned (set_task k rest ts) s'.
Proof.
  intros Hmo Hnth Hq Hm Hq'.
  pose proof (holder_is ts s k code Hmo Hnth Hq) as Hheld.
  destruct Hmo as [Hown Hex]. split.
  - intros j codej Hj. rewrite Hm.
    destruct (Nat.eq_dec j k) as [-> | Hne].
    + rewrite (nth_error_set_task_eq ts k rest code Hnth) in Hj.
      injection Hj as <-. split; [contradiction|discriminate].
    + rewrite nth_error_set_task_neq in Hj by exact Hne.
      pose proof (Hown j codej Hj) as Hiff. rewrite Hheld in Hiff.
      split; [|discriminate].
      intros Hh. apply Hiff in Hh. injection Hh as Hh. congruence.
  - intros h Hh. rewrite Hm in Hh. discriminate.
Qed.

Lemma lock_trace_extend (s0 s s' : state) (evs : list event) :
  lock_trace s0 s ->
  trace s' = trace s ++ evs ->
  exclusive (is_held s) evs = Some (is_held s') ->
  lock_trace s0 s'.
Proof.
  intros (evs0 & Ht & Hex) Ht' Hex'. exists (evs0 ++ evs).
  rewrite Ht', Ht, app_assoc. split; [reflexivity|].
  now rewrite exclusive_app, Hex.
Qed.

(** ** Any schedule: stages, mutex and counters stay in step *)

Lemma cycle_inv_step (http : nat -> http_result) (total : nat) (s0 : state)
      (L k : nat) (i : instr) (rest : list instr) (ts : tasks) (s s' : state) :
  cycle_inv http total s0 L ts s ->
  nth_error ts k = Some (i :: rest) ->
  exec (S k) i s = Some s' ->
  cycle_inv http total s0 L (set_task k rest ts) s'.
Proof.
  intros (Hlen & HL & Hws & Hmo & Hlt & Hc & Hmax) Hnth Hex.
  assert (Hwf : follows (stage_of (i :: rest)) (i :: rest) = true)
    by (apply (proj1 (Forall_forall _ _) Hws), (nth_error_In _ _ Hnth)).
  destruct (follows_head i rest Hwf) as (q' & Hnext & Hf' & Hq').
  destruct (exec_effect (S k) i s s' Hex)
    as (evs & Ht & _ & Hm & Htake & Ha & Hf & _ & Hev).
  pose proof (pending_set_task is_dec ts k i rest Hnth) as Hpd.
  pose proof (pending_set_task is_inc ts k i rest Hnth) as Hpi.
  split; [now rewrite length_set_task|]. split; [exact HL|].
  split; [apply Forall_set_task; [exact Hws|now rewrite Hq']|].
  unfold counted in *. rewrite Hpd, Hpi in Hc.
  destruct Hc as (Hc1 & Hc2 & Hc3 & Hc4 & Hc5 & Hc6).
  rewrite Ha, Hf.
  destruct (stage_of (i :: rest)) eqn:Hq; destruct i; cbn in Hnext;
    try discriminate; injection Hnext as Hq''; subst q';
    cbn [is_dec is_inc] in *.
  - (* Before, Serial *)
    split; [|split; [|split; [|exact Hmax]]].
    + apply (mutex_owned_keep ts s s' k _ rest Hmo Hnth Hm).
      rewrite Hq, Hq'. tauto.
    + apply (lock_trace_extend s0 s s' evs Hlt Ht).
      unfold is_held. rewrite Hm. apply Hev.
    + repeat split; lia.
  - (* Before, Take *)
    split; [|split; [|split; [|exact Hmax]]].
    + exact (mutex_owned_take ts s s' k _ rest Hmo Hnth (Htake eq_refl) Hm Hq').
    + apply (lock_trace_extend s0 s s' evs Hlt Ht).
      unfold is_held. rewrite Hm, (Htake eq_refl), Hev. reflexivity.
    + repeat split; lia.
  - (* Holding, Give *)
    pose proof (holder_is ts s k _ Hmo Hnth Hq) as Hheld.
    split; [|split; [|split; [|exact Hmax]]].
    + apply (mutex_owned_give ts s s' k _ rest Hmo Hnth Hq Hm).
      rewrite Hq'. discriminate.
    + apply (lock_trace_extend s0 s s' evs Hlt Ht).
      unfold is_held. rewrite Hm, Hheld, Hev. reflexivity.
    + repeat split; lia.
  - (* Holding, digitalWrite *)
    pose proof (holder_is ts s k _ Hmo Hnth Hq) as Hheld.
    split; [|split; [|split; [|exact Hmax]]].
    + apply (mutex_owned_keep ts s s' k _ rest Hmo Hnth Hm).
      rewrite Hq, Hq'. tauto.
    + apply (lock_trace_extend s0 s s' evs Hlt Ht).
      unfold is_held. rewrite Hm, Hheld. exact Hev.
    + repeat split; lia.
  - (* Holding, conditional digitalWrite *)
    pose proof (holder_is ts s k _ Hmo Hnth Hq) as Hheld.
    split; [|split; [|split; [|exact Hmax]]].
    + apply (mutex_owned_keep ts s s' k _ rest Hmo Hnth Hm).
      rewrite Hq, Hq'. tauto.
    + apply (lock_trace_extend s0 s s' evs Hlt Ht).
      unfold is_held. rewrite Hm, Hheld. exact Hev.
    + repeat split; lia.
  - (* Recording, Serial *)
    split; [|split; [|split; [|exact Hmax]]].
    + apply (mutex_owned_keep ts s s' k _ rest Hmo Hnth Hm).
      rewrite Hq, Hq'. tauto.
    + apply (lock_trace_extend s0 s s' evs Hlt Ht).
      unfold is_held. rewrite Hm. apply Hev.
    + repeat split; lia.
  - (* Recording, failedRequests++ *)
    split; [|split; [|split; [|exact Hmax]]].
    + apply (mutex_owned_keep ts s s' k _ rest Hmo Hnth Hm).
      rewrite Hq, Hq'. tauto.
    + apply (lock_trace_extend s0 s s' evs Hlt Ht).
      unfold is_held. rewrite Hm. apply Hev.
    + rewrite int_wrap_small by (unfold INT_MIN, INT_MAX in *; lia).
      repeat split; lia.
  - (* Recording, activeRequests-- *)
    split; [|split; [|split; [|exact Hmax]]].
    + apply (mutex_owned_keep ts s s' k _ rest Hmo Hnth Hm).
      rewrite Hq, Hq'. split; discriminate.
    + apply (lock_trace_extend s0 s s' evs Hlt Ht).
      unfold is_held. rewrite Hm. apply Hev.
    + rewrite int_wrap_small by (unfold INT_MIN, INT_MAX in *; lia).
      repeat split; lia.
  - (* Counted, vTaskDelete *)
    split; [|split; [|split; [|exact Hmax]]].
    + apply (mutex_owned_keep ts s s' k _ rest Hmo Hnth Hm).
      rewrite Hq, Hq'. tauto.
    + apply (lock_trace_extend s0 s s' evs Hlt Ht).
      unfold is_held. rewrite Hm. apply Hev.
    + repeat split; lia.
Qed.

Lemma task_code_counts (index : Z) (r : http_result) :
  List.length (filter is_dec (sendGetRequestTask index r)) = 1%nat /\
  List.length (filter is_inc (sendGetRequestTask index r)) =
    (if is_success r then 0%nat else 1%nat) /\
  List.length (filter is_conditional (sendGetRequestTask index r)) =
    (if is_success r then 1%nat else 0%nat) /\
  forallb (writes_only (if is_success r then LOW else HIGH))
          (sendGetRequestTask index r) = true /\
  existsb is_led_write (sendGetRequestTask index r) = true.
Proof. request_paths r; repeat split; reflexivity. Qed.

Lemma count_failed_succ (http : nat -> http_result) (n : nat) :
  count_failed http (S n) =
  (count_failed http n + (if is_success (http n) then 0 else 1))%nat.
Proof.
  unfold count_failed. rewrite seq_S, filter_app, length_app. cbn [Nat.add filter].
  now destruct (is_success (http n)).
Qed.

Lemma count_failed_le (http : nat -> http_result) (n : nat) :
  (count_failed http n <= n)%nat.
Proof.
  unfold count_failed.
  etransitivity; [apply filter_length_le|]. now rewrite length_seq.
Qed.

Lemma cycle_inv_launch (http : nat -> http_result) (total : nat) (s0 : state)
      (L : nat) (ts : tasks) (s : state) (n : Z) (url : string) :
  (L < total)%nat ->
  cycle_inv http total s0 L ts s ->
  cycle_inv http total s0 (S L)
    (ts ++ [sendGetRequestTask (Z.of_nat L + 1) (http L)])
    (serial (MsgLaunched (Z.of_nat L + 1) n url)
            (emit (TaskCreate (Z.of_nat L + 1)) s)).
Proof.
  intros Hlt (Hlen & HL & Hws & [Hown Hex] & Hlock & Hc & Hmax).
  pose proof (task_code_follows (Z.of_nat L + 1) (http L)) as Hfol.
  pose proof (follows_stage _ _ Hfol) as Hq.
  destruct (task_code_counts (Z.of_nat L + 1) (http L))
    as (Hdec & Hinc & _).
  split; [rewrite length_app; simpl; lia|]. split; [lia|].
  split; [apply Forall_app; split; [exact Hws|]; constructor;
          [now rewrite Hq|constructor]|].
  split; [split|split; [|split; [|exact Hmax]]].
  - intros j codej Hj. cbn [ledMutex serial emit].
    destruct (Nat.lt_ge_cases j (List.length ts)) as [Hin | Hout].
    + rewrite nth_error_app1 in Hj by exact Hin. now apply Hown.
    + rewrite nth_error_app2 in Hj by exact Hout.
      destruct (j - List.length ts)%nat as [|d] eqn:Hd;
        [|destruct d; discriminate].
      injection Hj as <-. rewrite Hq. split; [discriminate|].
      intros Hh. destruct (Hex _ Hh) as (k0 & code0 & Heq & Hk0).
      injection Heq as Heq. subst k0.
      apply nth_error_None in Hout. congruence.
  - intros h Hh. cbn [ledMutex serial emit] in Hh.
    destruct (Hex h Hh) as (k0 & code0 & -> & Hk0).
    exists k0, code0. split; [reflexivity|].
    rewrite nth_error_app1; [exact Hk0|].
    apply nth_error_Some. congruence.
  - apply (lock_trace_extend s0 s _
             [TaskCreate (Z.of_nat L + 1);
              Serial (MsgLaunched (Z.of_nat L + 1) n url)] Hlock).
    + simpl. now rewrite <- app_assoc.
    + reflexivity.
  - unfold counted in *. cbn [activeRequests failedRequests serial emit].
    rewrite !pending_app_one, Hdec, Hinc, count_failed_succ.
    destruct Hc as (Hc1 & Hc2 & Hc3 & Hc4 & Hc5 & Hc6).
    pose proof (count_failed_le http L).
    destruct (is_success (http L)); repeat split; try lia.
Qed.

Lemma cycle_inv_emit (http : nat -> http_result) (total : nat) (s0 : state)
      (L : nat) (ts : tasks) (s : state) (e : event) :
  (forall held, exclusive held [e] = Some held) ->
  cycle_inv http total s0 L ts s ->
  cycle_inv http total s0 L ts (emit e s).
Proof.
  intros He (Hlen & HL & Hws & Hmo & Hlock & Hc & Hmax).
  split; [exact Hlen|]. split; [exact HL|]. split; [exact Hws|].
  split; [exact Hmo|]. split; [|split; [exact Hc|exact Hmax]].
  apply (lock_trace_extend s0 s _ [e] Hlock); [reflexivity|apply He].
Qed.

Lemma cycle_inv_start (http : nat -> http_result)
      (API_ENDPOINTS : list string) (s : state) :
  ledMutex s = None ->
  NUM_ENDPOINTS API_ENDPOINTS <= INT_MAX ->
  cycle_inv http (List.length API_ENDPOINTS) s 0 []
    (reset_counters (NUM_ENDPOINTS API_ENDPOINTS) (serial MsgCycleStart s)).
Proof.
  intros Hm Hmax. unfold NUM_ENDPOINTS in *.
  split; [reflexivity|]. split; [lia|]. split; [constructor|].
  split; [split|split; [|split; [|exact Hmax]]].
  - intros k code Hk. destruct k; discriminate.
  - intros h Hh. simpl in Hh. congruence.
  - exists [Serial MsgCycleStart; CounterWrite ActiveRequests;
            CounterWrite FailedRequests].
    simpl. rewrite <- !app_assoc. unfold is_held. simpl. rewrite Hm. auto.
  - unfold counted, pending, count_failed. simpl.
    repeat split; unfold INT_MAX in *; lia.
Qed.

Lemma pending_zero (p : instr -> bool) (ts : tasks) :
  (forall code, In code ts -> existsb p code = false) ->
  pending p ts = 0%nat.
Proof.
  unfold pending. induction ts as [|t ts IH]; intros H; [reflexivity|].
  cbn [concat]. rewrite filter_app, length_app, IH by (intros; apply H; now right).
  assert (Ht : existsb p t = false) by (apply H; now left).
  clear - Ht. induction t as [|i t IHt]; [reflexivity|].
  simpl in *. apply orb_false_elim in Ht as [Hi Ht]. rewrite Hi. auto.
Qed.

(** When the wait loop is left, every task is past its
    [activeRequests--]. *)
Lemma cycle_inv_end (http : nat -> http_result) (total : nat) (s0 : state)
      (ts : tasks) (s : state) :
  cycle_inv http total s0 total ts s ->
  activeRequests s <= 0 ->
  Forall (fun code => stage_of code = Counted) ts /\
  Forall (fun code => Forall (fun i => i = ITaskDelete) code) ts /\
  ledMutex s = None /\
  activeRequests s = 0 /\
  failedRequests s = Z.of_nat (count_failed http total).
Proof.
  intros (Hlen & _ & Hws & [Hown Hex] & _ & Hc & _) Hle.
  destruct Hc as (Hc1 & Hc2 & _).
  rewrite Z.sub_diag in Hc1.
  assert (Hpd : pending is_dec ts = 0%nat) by lia.
  assert (Hall : forall code, In code ts ->
            stage_of code = Counted /\
            Forall (fun i => i = ITaskDelete) code /\
            existsb is_inc code = false).
  { intros code Hin.
    pose proof (pending_none is_dec ts Hpd code Hin) as Hnodec.
    pose proof (proj1 (Forall_forall _ _) Hws code Hin) as Hfol.
    destruct (follows_facts code _ Hfol) as (_ & _ & Hd & Hcnt & _).
    rewrite Hnodec in Hd.
    destruct (stage_of code); try discriminate.
    destruct (Hcnt eq_refl). auto. }
  assert (Hpi : pending is_inc ts = 0%nat)
    by (apply pending_zero; intros code Hin; now apply Hall).
  split; [apply Forall_forall; intros; now apply Hall|].
  split; [apply Forall_forall; intros; now apply Hall|].
  split; [|split; lia].
  destruct (ledMutex s) as [h|] eqn:Hh; [|reflexivity].
  destruct (Hex h eq_refl) as (k & code & -> & Hk).
  pose proof (proj2 (Hown k code Hk) eq_refl) as Hq.
  destruct (Hall code (nth_error_In _ _ Hk)) as (Hq' & _). congruence.
Qed.

Lemma last_after (l l' : list event) (d : event) :
  l' <> [] -> last (l ++ l') d = last l' d.
Proof.
  intros Hne. induction l as [|e l IH]; [reflexivity|].
  cbn [app last]. destruct (l ++ l') eqn:Happ; [|exact IH].
  apply app_eq_nil in Happ as [_ Hnil]. contradiction.
Qed.

Lemma cycle_summary_effect (s : state) :
  exists evs,
    trace (cycle_summary s) = trace s ++ evs /\
    (forall held, exclusive held evs = Some held) /\
    filter is_task_create evs = [] /\
    last evs WiFiBegin =
      Serial (if failedRequests s >? 0 then MsgCycleFailed (failedRequests s)
              else MsgCycleOk) /\
    ledMutex (cycle_summary s) = ledMutex s /\
    activeRequests (cycle_summary s) = activeRequests s /\
    failedRequests (cycle_summary s) = failedRequests s /\
    red_led (cycle_summary s) = red_led s.
Proof.
  unfold cycle_summary. cbn [failedRequests emit].
  destruct (failedRequests s >? 0); eexists;
    (split; [simpl; rewrite <- ?app_assoc; reflexivity|]);
    repeat split; reflexivity.
Qed.

(** The state in which a completed cycle leaves its wait loop. *)
Lemma cycle_end_state (API_ENDPOINTS : list string) (http : nat -> http_result)
      (sched : list (list nat)) (s : state) (ts' : tasks) (s' : state) :
  ledMutex s = None ->
  NUM_ENDPOINTS API_ENDPOINTS <= INT_MAX ->
  poll_cycle API_ENDPOINTS WL_CONNECTED http sched s = Some (ts', s') ->
  exists s1,
    s' = cycle_summary s1 /\
    cycle_inv http (List.length API_ENDPOINTS) s
              (List.length API_ENDPOINTS) ts' s1 /\
    activeRequests s1 <= 0.
Proof.
  intros Hm Hmax Hpoll.
  refine (cycle_keeps http (List.length API_ENDPOINTS)
            (cycle_inv http (List.length API_ENDPOINTS) s) _ _ _ _
            API_ENDPOINTS sched s ts' s' eq_refl _ Hpoll).
  - intros L k i rest ts s2 s3. apply cycle_inv_step.
  - intros L ts s2 total url. apply cycle_inv_launch.
  - intros L ts s2. now apply cycle_inv_emit.
  - intros L ts s2. now apply cycle_inv_emit.
  - now apply cycle_inv_start.
Qed.

(** X11. Mutual exclusion under every schedule: in the events of a completed
    cycle, of all tasks together, takes and gives of the mutex alternate,
    every write of the red LED lies between a take and the next give, and the
    mutex is given back at the end. *)
Theorem cycle_exclusive (API_ENDPOINTS : list string) (http : nat -> http_result)
        (sched : list (list nat)) (s s' : state) :
  ledMutex s = None ->
  NUM_ENDPOINTS API_ENDPOINTS <= INT_MAX ->
  pollEndpoints API_ENDPOINTS WL_CONNECTED http sched s = Some s' ->
  exclusive false (new_events s s') = Some false.
Proof.
  intros Hm Hmax Hpoll. unfold pollEndpoints in Hpoll.
  destruct (poll_cycle API_ENDPOINTS WL_CONNECTED http sched s)
    as [[ts' s2]|] eqn:Hcycle; [|discriminate].
  injection Hpoll as ->.
  destruct (cycle_end_state _ _ _ _ _ _ Hm Hmax Hcycle) as (s1 & -> & Hinv & Hle).
  destruct (cycle_inv_end _ _ _ _ _ Hinv Hle) as (_ & _ & Hfree & _).
  destruct Hinv as (_ & _ & _ & _ & (evs & Ht & Hex) & _).
  destruct (cycle_summary_effect s1) as (evs' & Ht' & Hex' & _).
  erewrite new_events_app by (rewrite Ht', Ht, <- app_assoc; reflexivity).
  rewrite exclusive_app, Hex, Hex'. unfold is_held. now rewrite Hfree.
Qed.

(** ** Any schedule: the tasks that are created *)

Lemma task_events_create (evs : list event) :
  forallb is_task_event evs = true -> filter is_task_create evs = [].
Proof.
  induction evs as [|e evs IH]; [reflexivity|].
  simpl. intros H. apply andb_prop in H as [He Hevs].
  destruct e; try discriminate; simpl; auto.
Qed.

Lemma created_trace_extend (s0 s s' : state) (L : nat) (evs : list event) :
  created_trace s0 L s ->
  trace s' = trace s ++ evs ->
  filter is_task_create evs = [] ->
  created_trace s0 L s'.
Proof.
  intros (evs0 & Ht & Hf) Ht' Hf'. exists (evs0 ++ evs).
  rewrite Ht', Ht, app_assoc, filter_app, Hf, Hf', app_nil_r. auto.
Qed.

(** X12. Under every schedule a completed cycle has created exactly one task
    per endpoint, in the order of the endpoints and with the indices 1, 2,
    ... in the task names; request tasks create no tasks. *)
Theorem tasks_created (API_ENDPOINTS : list string) (http : nat -> http_result)
        (sched : list (list nat)) (s s' : state) :
  pollEndpoints API_ENDPOINTS WL_CONNECTED http sched s = Some s' ->
  filter is_task_create (new_events s s') =
    map (fun i => TaskCreate (Z.of_nat i + 1))
        (seq 0 (List.length API_ENDPOINTS)).
Proof.
  intros Hpoll. unfold pollEndpoints in Hpoll.
  destruct (poll_cycle API_ENDPOINTS WL_CONNECTED http sched s)
    as [[ts' s2]|] eqn:Hcycle; [|discriminate].
  injection Hpoll as ->.
  destruct (cycle_keeps http (List.length API_ENDPOINTS)
              (fun L _ s1 => created_trace s L s1)) with
    (API_ENDPOINTS := API_ENDPOINTS) (sched := sched) (s := s)
    (ts' := ts') (s' := s') as (s1 & -> & (evs & Ht & Hf) & _).
  - intros L k i rest ts s2 s3 HP _ Hex.
    destruct (exec_effect (S k) i s2 s3 Hex) as (evs & Ht & Hev & _).
    exact (created_trace_extend s s2 s3 L evs HP Ht
             (task_events_create evs Hev)).
  - intros L ts s2 total url _ (evs & Ht & Hf).
    exists (evs ++ [TaskCreate (Z.of_nat L + 1);
                    Serial (MsgLaunched (Z.of_nat L + 1) total url)]).
    split; [cbn [trace serial emit]; rewrite Ht, <- !app_assoc; reflexivity|].
    rewrite filter_app, Hf, seq_S, map_app. reflexivity.
  - intros L ts s2 HP.
    apply (created_trace_extend s s2 _ L [CounterRead ActiveRequests] HP);
      reflexivity.
  - intros L ts s2 HP.
    apply (created_trace_extend s s2 _ L [Delay 50] HP); reflexivity.
  - reflexivity.
  - exists [Serial MsgCycleStart; CounterWrite ActiveRequests;
            CounterWrite FailedRequests].
    simpl. rewrite <- !app_assoc. auto.
  - exact Hcycle.
  - destruct (cycle_summary_effect s1) as (evs' & Ht' & _ & Hf' & _).
    erewrite new_events_app by (rewrite Ht', Ht, <- app_assoc; reflexivity).
    now rewrite filter_app, Hf, Hf', app_nil_r.
Qed.

(** ** Any schedule: requests that all end alike *)

Lemma led_settles_step (good : bool) (k : nat) (i : instr)
      (rest : list instr) (ts : tasks) (s s' : state) :
  led_settles good ts s ->
  nth_error ts k = Some (i :: rest) ->
  exec (S k) i s = Some s' ->
  led_settles good (set_task k rest ts) s'.
Proof.
  intros (Hw & Hmid & Hred) Hnth Hex.
  destruct (exec_effect (S k) i s s' Hex)
    as (evs & _ & _ & _ & _ & _ & Hf & Hr & _).
  pose proof (pending_set_task is_inc ts k i rest Hnth) as Hpi.
  pose proof (pending_set_task is_conditional ts k i rest Hnth) as Hpc.
  pose proof (proj1 (Forall_forall _ _) Hw _ (nth_error_In _ _ Hnth)) as Hwi.
  cbn [forallb] in Hwi. apply andb_prop in Hwi as [Hwi Hwrest].
  split; [now apply Forall_set_task|]. split.
  - destruct good.
    + destruct Hmid as [Hinc H0]. rewrite Hinc in Hpi.
      split; [lia|]. rewrite Hf.
      destruct i; try exact H0. cbn [is_inc] in Hpi. lia.
    + lia.
  - destruct (is_led_write i) eqn:Hlw.
    + left. rewrite Hr.
      destruct i; try discriminate; cbn [writes_only] in Hwi;
        apply andb_prop in Hwi as [Hpin Hlev]; rewrite Hpin.
      * destruct good, v; try discriminate; reflexivity.
      * assert (H0 : (failedRequests s =? 0) = true).
        { destruct good.
          - destruct Hmid as [_ H0]. now rewrite H0.
          - cbn [is_conditional] in Hpc. lia. }
        rewrite H0. destruct good, v; try discriminate; reflexivity.
    + assert (Hsame : red_led s' = red_led s)
        by (rewrite Hr; destruct i; try reflexivity; discriminate).
      rewrite Hsame. destruct Hred as [Hred | Hall]; [now left|right].
      apply Forall_set_task; [exact Hall|].
      pose proof (proj1 (Forall_forall _ _) Hall _ (nth_error_In _ _ Hnth))
        as Hex'.
      cbn [existsb] in Hex'. now rewrite Hlw in Hex'.
Qed.

Lemma led_settles_launch (good : bool) (index n : Z) (r : http_result)
      (url : string) (ts : tasks) (s : state) :
  is_success r = good ->
  led_settles good ts s ->
  led_settles good (ts ++ [sendGetRequestTask index r])
    (serial (MsgLaunched index n url) (emit (TaskCreate index) s)).
Proof.
  intros Hgood (Hw & Hmid & Hred).
  destruct (task_code_counts index r) as (_ & Hinc & Hcond & Hwr & Hlw).
  rewrite Hgood in Hinc, Hcond, Hwr.
  split; [apply Forall_app; split; [exact Hw|]; now repeat constructor|].
  split.
  - rewrite !pending_app_one, Hinc, Hcond. cbn [failedRequests serial emit].
    destruct good; [destruct Hmid; split; [lia|assumption]|lia].
  - destruct Hred as [Hred | Hall]; [now left|right].
    apply Forall_app; split; [exact Hall|]. now repeat constructor.
Qed.

Lemma count_failed_alike (http : nat -> http_result) (good : bool) (n : nat) :
  (forall k, (k < n)%nat -> is_success (http k) = good) ->
  count_failed http n = if good then 0%nat else n.
Proof.
  induction n as [|n IH]; intros Hall.
  - now destruct good.
  - rewrite count_failed_succ, IH by (intros; apply Hall; lia).
    rewrite (Hall n) by lia. destruct good; lia.
Qed.

(** ** Between the operations *)

Lemma exec_statics (me : nat) (i : instr) (s s' : state) :
  exec me i s = Some s' ->
  wasConnected s' = wasConnected s /\
  lastCheckTime s' = lastCheckTime s /\
  lastPollTime s' = lastPollTime s.
Proof.
  destruct i; simpl; intros H;
    try (destruct (ledMutex s); [discriminate|]);
    injection H as <-; try (repeat split; reflexivity).
  - unfold digitalWrite.
    destruct (pin =? RED_LED_PIN); [|destruct (pin =? BLUE_LED_PIN)];
      repeat split; reflexivity.
  - destruct (failedRequests s =? 0); [|repeat split; reflexivity].
    unfold digitalWrite.
    destruct (pin =? RED_LED_PIN); [|destruct (pin =? BLUE_LED_PIN)];
      repeat split; reflexivity.
Qed.

(** pollEndpoints, whenever it returns: the mutex is free again and the
    statics of loop and checkWiFiConnection are as before. *)
Lemma poll_returns (API_ENDPOINTS : list string) (status : Z)
      (http : nat -> http_result) (sched : list (list nat)) (s s' : state) :
  ledMutex s = None ->
  NUM_ENDPOINTS API_ENDPOINTS <= INT_MAX ->
  pollEndpoints API_ENDPOINTS status http sched s = Some s' ->
  ledMutex s' = None /\
  (exists evs, trace s' = trace s ++ evs) /\
  wasConnected s' = wasConnected s /\
  lastCheckTime s' = lastCheckTime s /\
  lastPollTime s' = lastPollTime s.
Proof.
  intros Hm Hmax Hpoll. unfold pollEndpoints in Hpoll.
  destruct (poll_cycle API_ENDPOINTS status http sched s)
    as [[ts' s2]|] eqn:Hcycle; [|discriminate].
  injection Hpoll as ->.
  destruct (status =? WL_CONNECTED) eqn:Hst.
  - apply Z.eqb_eq in Hst. subst status.
    destruct (cycle_keeps http (List.length API_ENDPOINTS)
                (fun L ts s1 =>
                   cycle_inv http (List.length API_ENDPOINTS) s L ts s1 /\
                   (wasConnected s1 = wasConnected s /\
                    lastCheckTime s1 = lastCheckTime s /\
                    lastPollTime s1 = lastPollTime s))) with
      (API_ENDPOINTS := API_ENDPOINTS) (sched := sched) (s := s)
      (ts' := ts') (s' := s') as (s1 & -> & (Hinv & Hst) & Hle).
    + intros L k i rest ts s2 s3 [Hinv (Hw & Hc & Hp)] Hnth Hex. split.
      * exact (cycle_inv_step _ _ _ _ _ _ _ _ _ _ Hinv Hnth Hex).
      * destruct (exec_statics _ _ _ _ Hex) as (Hw' & Hc' & Hp').
        repeat split; congruence.
    + intros L ts s2 total url HL [Hinv Hst]. split.
      * now apply cycle_inv_launch.
      * exact Hst.
    + intros L ts s2 [Hinv Hst].
      split; [now apply cycle_inv_emit|exact Hst].
    + intros L ts s2 [Hinv Hst].
      split; [now apply cycle_inv_emit|exact Hst].
    + reflexivity.
    + split; [now apply cycle_inv_start|]. repeat split; reflexivity.
    + exact Hcycle.
    + destruct (cycle_inv_end _ _ _ _ _ Hinv Hle) as (_ & _ & Hfree & _).
      destruct Hinv as (_ & _ & _ & _ & (evs & Ht & _) & _).
      unfold cycle_summary.
      destruct (failedRequests (emit (CounterRead FailedRequests) s1) >? 0);
        (split; [exact Hfree|]);
        (split; [eexists; simpl; rewrite Ht, <- !app_assoc; reflexivity|]);
        exact Hst.
  - unfold poll_cycle in Hcycle. rewrite Hst in Hcycle.
    simpl in Hcycle. rewrite Hm in Hcycle. simpl in Hcycle.
    injection Hcycle as _ <-.
    split; [reflexivity|].
    split; [eexists; simpl; rewrite <- !app_assoc; reflexivity|].
    repeat split; reflexivity.
Qed.

(** X14. No operation returns with the mutex taken: in every state the
    firmware is in when setup, loop, connectToWiFi, checkWiFiConnection,
    pollEndpoints (under any schedule), a request task or blinkBlueLED has
    returned, the mutex is free.  The number of endpoints is an [int]. *)
Theorem mutex_free_when_idle (API_ENDPOINTS : list string) (s : state) :
  NUM_ENDPOINTS API_ENDPOINTS <= INT_MAX ->
  reachable API_ENDPOINTS s ->
  ledMutex s = None.
Proof.
  intros Hmax Hreach.
  induction Hreach as
      [s0 polls status p now s Hsetup
      | s c now p s' _ IH Hloop
      | s polls _ IH
      | s currentTime status polls _ IH
      | s status http sched s' _ IH Hpoll
      | s me index r s' _ IH Hrun
      | s times delayMs _ IH ].
  - unfold setup in Hsetup.
    match type of Hsetup with context [connectToWiFi polls ?x] =>
      destruct (connect_shape polls x)
        as (a & ok & _ & _ & _ & _ & _ & _ & _ & Hm & _);
      cbn [ledMutex set_ledMutex] in Hm;
      destruct (status =? WL_CONNECTED);
      [ destruct (pollEndpoints API_ENDPOINTS (poll_status p) (poll_http p)
                    (poll_sched p) (connectToWiFi polls x)) as [s1|] eqn:Hp;
        [|discriminate];
        injection Hsetup as <-;
        exact (proj1 (poll_returns _ _ _ _ _ _ Hm Hmax Hp))
      | injection Hsetup as <-; exact Hm ]
    end.
  - unfold loop in Hloop.
    destruct (checks_shape [c] s)
      as (evs & _ & _ & _ & _ & _ & _ & _ & Hm & _).
    cbn [run_checks] in Hm. unfold check in Hm. rewrite IH in Hm.
    destruct (ulong_wrap _ >=? POLL_INTERVAL_MS).
    + match type of Hloop with context [pollEndpoints ?a ?b ?h ?sc ?x] =>
        destruct (pollEndpoints a b h sc x) as [s1|] eqn:Hp; [|discriminate];
        injection Hloop as <-;
        exact (proj1 (poll_returns a b h sc x s1 Hm Hmax Hp))
      end.
    + injection Hloop as <-. exact Hm.
  - destruct (connect_shape polls s)
      as (a & ok & _ & _ & _ & _ & _ & _ & _ & Hm & _). congruence.
  - destruct (checks_shape [mkCheck currentTime status polls] s)
      as (evs & _ & _ & _ & _ & _ & _ & _ & Hm & _).
    cbn [run_checks] in Hm. unfold check in Hm. cbn in Hm. congruence.
  - exact (proj1 (poll_returns _ _ _ _ _ _ IH Hmax Hpoll)).
  - destruct (task_effect me index r s IH) as (s1 & Hrun1 & Hm & _).
    congruence.
  - unfold blinkBlueLED.
    destruct (blink_loop_effect (Z.to_nat times) delayMs s)
      as (_ & _ & _ & Hm & _). congruence.
Qed.

(** ** loop and setup *)

(** X15. The poll gate of loop, across the wrap of [millis()]: [d]
    milliseconds after the last poll time ([d] below 2^32), an iteration
    before the interval is over does not call pollEndpoints, keeps the poll
    time and the counters and ends with [delay(100)]; an iteration at or
    after the interval that finds the link down records the new poll time all
    the same, so the refused poll is not tried again before another interval
    has gone by: it turns the red LED on and creates no task. *)
Theorem loop_poll_gate (API_ENDPOINTS : list string) (c : check_input)
        (currentTime : Z) (p : poll_input) (s : state) (d : Z) :
  0 <= d < 4294967296 ->
  currentTime = ulong_wrap (lastPollTime s + d) ->
  ledMutex s = None ->
  (d < POLL_INTERVAL_MS ->
   exists s',
     loop API_ENDPOINTS c currentTime p s = Some s' /\
     lastPollTime s' = lastPollTime s /\
     count is_poll_line (new_events s s') = 0%nat /\
     count is_task_create (new_events s s') = 0%nat /\
     activeRequests s' = activeRequests s /\
     failedRequests s' = failedRequests s /\
     last (trace s') WiFiBegin = Delay 100) /\
  (POLL_INTERVAL_MS <= d ->
   poll_status p <> WL_CONNECTED ->
   exists s',
     loop API_ENDPOINTS c currentTime p s = Some s' /\
     lastPollTime s' = currentTime /\
     red_led s' = HIGH /\
     count is_poll_line (new_events s s') = 1%nat /\
     count is_task_create (new_events s s') = 0%nat /\
     activeRequests s' = activeRequests s /\
     failedRequests s' = failedRequests s /\
     last (trace s') WiFiBegin = Delay 100).
Proof.
  intros Hd Htime Hm.
  destruct (checks_shape [c] s)
    as (evs & Ht & _ & _ & _ & _ & Htc & Hpl & Hm' & Ha & Hf & Hp).
  cbn [run_checks] in *. unfold check in *. rewrite Hm in Hm'.
  assert (Hgate : ulong_wrap
            (currentTime -
             lastPollTime (checkWiFiConnection (check_time c) (check_status c)
                             (check_polls c) s)) = d)
    by (rewrite Hp, Htime; now apply elapsed_wrap).
  unfold loop. rewrite Hgate, Z.geb_leb.
  split.
  - intros Hlt.
    assert ((POLL_INTERVAL_MS <=? d) = false) as -> by now apply Z.leb_gt.
    eexists. split; [reflexivity|].
    cbn [lastPollTime activeRequests failedRequests delay emit trace].
    rewrite (new_events_app _ _ (evs ++ [Delay 100]))
      by (cbn [delay emit trace]; rewrite Ht, <- app_assoc; reflexivity).
    rewrite !count_app, Htc, Hpl, Hp, Ha, Hf.
    repeat split; try reflexivity.
    rewrite last_after by discriminate. reflexivity.
  - intros Hge Hdown.
    assert ((POLL_INTERVAL_MS <=? d) = true) as -> by now apply Z.leb_le.
    apply Z.eqb_neq in Hdown.
    unfold pollEndpoints, poll_cycle. rewrite Hdown. cbn [negb].
    cbn [run_code exec ledMutex serial emit set_lastPollTime].
    rewrite Hm'. cbn [option_map snd].
    eexists. split; [reflexivity|].
    rewrite (new_events_app _ _
               (evs ++ [Serial MsgCannotPoll; SemaphoreTake;
                        DigitalWrite RED_LED_PIN HIGH; SemaphoreGive;
                        Delay 100]))
      by (simpl; rewrite Ht, <- !app_assoc; reflexivity).
    rewrite !count_app, Htc, Hpl. simpl. rewrite Ha, Hf.
    repeat split; try reflexivity.
    rewrite last_after by discriminate. reflexivity.
Qed.

(** X16. setup turns both LEDs off before anything else and leaves the statics
    of checkWiFiConnection as they are (so the link is still recorded as
    down when loop starts, whatever connectToWiFi achieved).  When the status
    read at line 99 is not connected, setup polls nothing: no task is
    created, the counters and the poll time keep their values.  When it is
    connected and the cycle completes, the poll time is [now]. *)
Theorem setup_outcome (API_ENDPOINTS : list string) (polls : nat -> Z)
        (status : Z) (p : poll_input) (now : Z) (s0 s' : state) :
  NUM_ENDPOINTS API_ENDPOINTS <= INT_MAX ->
  setup API_ENDPOINTS polls status p now s0 = Some s' ->
  firstn 3 (new_events s0 s') =
    [Delay 1000; DigitalWrite BLUE_LED_PIN LOW; DigitalWrite RED_LED_PIN LOW] /\
  wasConnected s' = wasConnected s0 /\
  lastCheckTime s' = lastCheckTime s0 /\
  lastPollTime s' = (if status =? WL_CONNECTED then now else lastPollTime s0) /\
  (status <> WL_CONNECTED ->
   count is_poll_line (new_events s0 s') = 0%nat /\
   count is_task_create (new_events s0 s') = 0%nat /\
   activeRequests s' = activeRequests s0 /\
   failedRequests s' = failedRequests s0).
Proof.
  intros Hmax Hsetup. unfold setup in Hsetup.
  match type of Hsetup with context [connectToWiFi polls ?x] =>
    destruct (connect_shape polls x)
      as (a & ok & _ & _ & _ & _ & Ht & _ & _ & Hm & Ha & Hf & Hw & Hc & Hp);
    set (s1 := connectToWiFi polls x) in *
  end.
  simpl in Ht, Hm, Ha, Hf, Hw, Hc, Hp.
  rewrite <- !app_assoc in Ht. simpl in Ht.
  destruct (status =? WL_CONNECTED) eqn:Hst.
  - destruct (pollEndpoints API_ENDPOINTS (poll_status p) (poll_http p)
                (poll_sched p) s1) as [s2|] eqn:Hpoll; [|discriminate].
    injection Hsetup as <-.
    destruct (poll_returns _ _ _ _ _ _ Hm Hmax Hpoll)
      as (_ & (evs & Ht2) & Hw2 & Hc2 & _).
    cbn [wasConnected lastCheckTime lastPollTime set_lastPollTime].
    erewrite new_events_app
      by (cbn [trace set_lastPollTime]; rewrite Ht2, Ht, <- !app_assoc;
          reflexivity).
    split; [reflexivity|]. split; [congruence|]. split; [congruence|].
    split; [reflexivity|].
    intros Hne. apply Z.eqb_eq in Hst. contradiction.
  - injection Hsetup as <-.
    erewrite new_events_app by (rewrite Ht; reflexivity).
    split; [reflexivity|]. split; [exact Hw|]. split; [exact Hc|].
    split; [exact Hp|]. intros _.
    repeat (rewrite count_cons || rewrite count_app).
    rewrite !count_attempts_none by reflexivity.
    repeat split; try assumption; destruct ok; reflexivity.
Qed.

(** ** Shared variables, one access at a turn: what every schedule keeps *)

Lemma set_reg_eq (k : nat) (v : option Z) (regs : registers) :
  set_reg k v regs k = v.
Proof. unfold set_reg. now rewrite Nat.eqb_refl. Qed.

Lemma set_reg_neq (k j : nat) (v : option Z) (regs : registers) :
  j <> k -> set_reg k v regs j = regs j.
Proof. unfold set_reg. intros H. apply Nat.eqb_neq in H. now rewrite H. Qed.

(** The two turns of a statement, one right after the other, do what the
    statement does as a whole. *)
Lemma two_turns_exec (me : nat) (i : instr) (c : counter) (s : state) :
  loads i = Some c ->
  exec me i s = Some (finish i (counter_value c s) (emit (CounterRead c) s)).
Proof.
  destruct i; simpl; intros H; try discriminate; injection H as <-;
    reflexivity.
Qed.

(** What the second turn does, field by field. *)
Lemma finish_effect (i : instr) (c : counter) (v : Z) (s : state) :
  loads i = Some c ->
  exists evs,
    trace (finish i v s) = trace s ++ evs /\
    ledMutex (finish i v s) = ledMutex s /\
    activeRequests (finish i v s) =
      match i with
      | IActiveDec => int_wrap (v - 1)
      | _ => activeRequests s
      end /\
    failedRequests (finish i v s) =
      match i with
      | IFailedInc => int_wrap (v + 1)
      | _ => failedRequests s
      end /\
    red_led (finish i v s) =
      match i with
      | IIfNoneFailed pin lvl =>
          if (v =? 0) && (pin =? RED_LED_PIN) then lvl else red_led s
      | _ => red_led s
      end /\
    match i with
    | IIfNoneFailed _ _ => exclusive true evs = Some true
    | _ => forall held, exclusive held evs = Some held
    end.
Proof.
  destruct i; simpl; intros H; try discriminate.
  - destruct (v =? 0).
    + exists [DigitalWrite pin v0]. unfold digitalWrite.
      destruct (pin =? RED_LED_PIN); [|destruct (pin =? BLUE_LED_PIN)];
        repeat split; try reflexivity;
        simpl; rewrite ?andb_false_r; reflexivity.
    + exists []. rewrite app_nil_r. repeat split; reflexivity.
  - exists [CounterWrite FailedRequests]. repeat split; reflexivity.
  - exists [CounterWrite ActiveRequests]. repeat split; reflexivity.
Qed.

Lemma discipline_pop (s0 : state) (k : nat) (i : instr) (rest : list instr)
      (ts : tasks) (s s' : state) (evs : list event) :
  discipline s0 ts s ->
  nth_error ts k = Some (i :: rest) ->
  trace s' = trace s ++ evs ->
  ledMutex s' =
    match i with
    | ITake => Some (S k)
    | IGive => None
    | _ => ledMutex s
    end ->
  (i = ITake -> ledMutex s = None) ->
  match i with
  | ITake => evs = [SemaphoreTake]
  | IGive => evs = [SemaphoreGive]
  | IDigitalWrite _ _ | IIfNoneFailed _ _ => exclusive true evs = Some true
  | _ => forall held, exclusive held evs = Some held
  end ->
  discipline s0 (set_task k rest ts) s'.
Proof.
  intros (Hws & Hmo & Hlt) Hnth Ht Hm Htake Hev.
  assert (Hwf : follows (stage_of (i :: rest)) (i :: rest) = true)
    by (apply (proj1 (Forall_forall _ _) Hws), (nth_error_In _ _ Hnth)).
  destruct (follows_head i rest Hwf) as (q' & Hnext & Hf' & Hq').
  split; [apply Forall_set_task; [exact Hws|now rewrite Hq']|].
  destruct (stage_of (i :: rest)) eqn:Hq; destruct i; cbn in Hnext;
    try discriminate; injection Hnext as Hq''; subst q'.
  - (* Before, Serial *)
    split.
    + apply (mutex_owned_keep ts s s' k _ rest Hmo Hnth Hm).
      rewrite Hq, Hq'. tauto.
    + apply (lock_trace_extend s0 s s' evs Hlt Ht).
      unfold is_held. rewrite Hm. apply Hev.
  - (* Before, Take *)
    split.
    + exact (mutex_owned_take ts s s' k _ rest Hmo Hnth (Htake eq_refl) Hm Hq').
    + apply (lock_trace_extend s0 s s' evs Hlt Ht).
      unfold is_held. rewrite Hm, (Htake eq_refl), Hev. reflexivity.
  - (* Holding, Give *)
    pose proof (holder_is ts s k _ Hmo Hnth Hq) as Hheld.
    split.
    + apply (mutex_owned_give ts s s' k _ rest Hmo Hnth Hq Hm).
      rewrite Hq'. discriminate.
    + apply (lock_trace_extend s0 s s' evs Hlt Ht).
      unfold is_held. rewrite Hm, Hheld, Hev. reflexivity.
  - (* Holding, digitalWrite *)
    pose proof (holder_is ts s k _ Hmo Hnth Hq) as Hheld.
    split.
    + apply (mutex_owned_keep ts s s' k _ rest Hmo Hnth Hm).
      rewrite Hq, Hq'. tauto.
    + apply (lock_trace_extend s0 s s' evs Hlt Ht).
      unfold is_held. rewrite Hm, Hheld. exact Hev.
  - (* Holding, conditional digitalWrite *)
    pose proof (holder_is ts s k _ Hmo Hnth Hq) as Hheld.
    split.
    + apply (mutex_owned_keep ts s s' k _ rest Hmo Hnth Hm).
      rewrite Hq, Hq'. tauto.
    + apply (lock_trace_extend s0 s s' evs Hlt Ht).
      unfold is_held. rewrite Hm, Hheld. exact Hev.
  - (* Recording, Serial *)
    split.
    + apply (mutex_owned_keep ts s s' k _ rest Hmo Hnth Hm).
      rewrite Hq, Hq'. tauto.
    + apply (lock_trace_extend s0 s s' evs Hlt Ht).
      unfold is_held. rewrite Hm. apply Hev.
  - (* Recording, failedRequests++ *)
    split.
    + apply (mutex_owned_keep ts s s' k _ rest Hmo Hnth Hm).
      rewrite Hq, Hq'. tauto.
    + apply (lock_trace_extend s0 s s' evs Hlt Ht).
      unfold is_held. rewrite Hm. apply Hev.
  - (* Recording, activeRequests-- *)
    split.
    + apply (mutex_owned_keep ts s s' k _ rest Hmo Hnth Hm).
      rewrite Hq, Hq'. split; discriminate.
    + apply (lock_trace_extend s0 s s' evs Hlt Ht).
      unfold is_held. rewrite Hm. apply Hev.
  - (* Counted, vTaskDelete *)
    split.
    + apply (mutex_owned_keep ts s s' k _ rest Hmo Hnth Hm).
      rewrite Hq, Hq'. tauto.
    + apply (lock_trace_extend s0 s s' evs Hlt Ht).
      unfold is_held. rewrite Hm. apply Hev.
Qed.

Lemma discipline_neutral (s0 : state) (ts : tasks) (s s' : state)
      (evs : list event) :
  discipline s0 ts s ->
  ledMutex s' = ledMutex s ->
  trace s' = trace s ++ evs ->
  (forall held, exclusive held evs = Some held) ->
  discipline s0 ts s'.
Proof.
  intros (Hws & Hmo & Hlt) Hm Ht Hev.
  split; [exact Hws|]. split.
  - unfold mutex_owned in *. now rewrite Hm.
  - apply (lock_trace_extend s0 s s' evs Hlt Ht).
    unfold is_held. rewrite Hm. apply Hev.
Qed.

Lemma discipline_launch (s0 : state) (ts : tasks) (s : state) (index n : Z)
      (r : http_result) (url : string) :
  discipline s0 ts s ->
  discipline s0 (ts ++ [sendGetRequestTask index r])
             (serial (MsgLaunched index n url) (emit (TaskCreate index) s)).
Proof.
  intros (Hws & [Hown Hex] & Hlock).
  pose proof (task_code_follows index r) as Hfol.
  pose proof (follows_stage _ _ Hfol) as Hq.
  split; [apply Forall_app; split; [exact Hws|]; constructor;
          [now rewrite Hq|constructor]|].
  split; [split|].
  - intros j codej Hj. cbn [ledMutex serial emit].
    destruct (Nat.lt_ge_cases j (List.length ts)) as [Hin | Hout].
    + rewrite nth_error_app1 in Hj by exact Hin. now apply Hown.
    + rewrite nth_error_app2 in Hj by exact Hout.
      destruct (j - List.length ts)%nat as [|d] eqn:Hd;
        [|destruct d; discriminate].
      injection Hj as <-. rewrite Hq. split; [discriminate|].
      intros Hh. destruct (Hex _ Hh) as (k0 & code0 & Heq & Hk0).
      injection Heq as Heq. subst k0.
      apply nth_error_None in Hout. congruence.
  - intros h Hh. cbn [ledMutex serial emit] in Hh.
    destruct (Hex h Hh) as (k0 & code0 & -> & Hk0).
    exists k0, code0. split; [reflexivity|].
    rewrite nth_error_app1; [exact Hk0|].
    apply nth_error_Some. congruence.
  - apply (lock_trace_extend s0 s _
             [TaskCreate index; Serial (MsgLaunched index n url)] Hlock).
    + simpl. now rewrite <- app_assoc.
    + reflexivity.
Qed.

Lemma discipline_start (total : Z) (s : state) :
  ledMutex s = None ->
  discipline s [] (reset_counters total (serial MsgCycleStart s)).
Proof.
  intros Hm. split; [constructor|]. split; [split|].
  - intros k code Hk. destruct k; discriminate.
  - intros h Hh. simpl in Hh. congruence.
  - exists [Serial MsgCycleStart; CounterWrite ActiveRequests;
            CounterWrite FailedRequests].
    simpl. rewrite <- !app_assoc. unfold is_held. simpl. rewrite Hm. auto.
Qed.

Lemma loads_not_counted (i : instr) :
  loads i = None -> is_dec i = false /\ is_inc i = false.
Proof. destruct i; simpl; intros H; try discriminate; auto. Qed.

(** One turn keeps the discipline of the mutex and the bounds of the
    counters. *)
Lemma split_inv_step (http : nat -> http_result) (total : nat) (s0 : state)
      (L k : nat) (m : machine) :
  split_inv http total s0 L m ->
  split_inv http total s0 L (step_task_split k m).
Proof.
  intros Hinv. pose proof Hinv as (Hlen & HL & Hd & Hc & Hmax).
  destruct m as [ts regs0 s]. cbn [threads regs shared] in *.
  unfold step_task_split. cbn [threads regs shared].
  destruct (nth_error ts k) as [[|i rest]|] eqn:Hnth; try exact Hinv.
  pose proof (pending_set_task is_dec ts k i rest Hnth) as Hpd.
  pose proof (pending_set_task is_inc ts k i rest Hnth) as Hpi.
  destruct Hc as (Hc0 & Hca & Hca' & Hcs & Hcf & Hcl & Hregs).
  unfold undecremented, increments_stored in *.
  cbn [threads regs shared] in *.
  destruct (loads i) as [c|] eqn:Hload.
  - destruct (regs0 k) as [v|] eqn:Hreg.
    + (* second turn *)
      destruct (Hregs k v Hreg) as (i0 & rest0 & Hn & _ & Hbf & Hba).
      rewrite Hnth in Hn. injection Hn as <- <-.
      destruct (finish_effect i c v s Hload)
        as (evs & Ht & Hm & Ha & Hf & _ & Hev).
      split; [cbn [threads]; now rewrite length_set_task|].
      split; [exact HL|]. split.
      { cbn [threads shared].
        apply (discipline_pop s0 k i rest ts s _ evs Hd Hnth Ht).
        - rewrite Hm. destruct i; try reflexivity; discriminate.
        - intros ->. discriminate.
        - destruct i; try discriminate; exact Hev. }
      split; [|exact Hmax].
      unfold counted_split, undecremented, increments_stored.
      cbn [threads regs shared]. rewrite Ha, Hf.
      assert (Hothers : forall j w,
                set_reg k None regs0 j = Some w ->
                j <> k /\ regs0 j = Some w).
      { intros j w Hj. destruct (Nat.eq_dec j k) as [-> | Hne].
        - rewrite set_reg_eq in Hj. discriminate.
        - rewrite set_reg_neq in Hj by exact Hne. auto. }
      destruct i; try discriminate; cbn [is_dec is_inc] in Hpd, Hpi.
      * (* the test of failedRequests *)
        repeat split; try lia.
        intros j w Hj. destruct (Hothers j w Hj) as [Hne Hj'].
        destruct (Hregs j w Hj') as (ij & restj & Hnj & Hlj & Hbfj & Hbaj).
        exists ij, restj. rewrite nth_error_set_task_neq by exact Hne.
        split; [exact Hnj|]. split; [exact Hlj|].
        split; intros Hi;
          [specialize (Hbfj Hi)|specialize (Hbaj Hi)]; lia.
      * (* failedRequests++ *)
        specialize (Hbf eq_refl).
        rewrite int_wrap_small by (unfold INT_MIN, INT_MAX in *; lia).
        repeat split; try lia.
        intros j w Hj. destruct (Hothers j w Hj) as [Hne Hj'].
        destruct (Hregs j w Hj') as (ij & restj & Hnj & Hlj & Hbfj & Hbaj).
        exists ij, restj. rewrite nth_error_set_task_neq by exact Hne.
        split; [exact Hnj|]. split; [exact Hlj|].
        split; intros Hi;
          [specialize (Hbfj Hi)|specialize (Hbaj Hi)]; lia.
      * (* activeRequests-- *)
        specialize (Hba eq_refl).
        rewrite int_wrap_small by (unfold INT_MIN, INT_MAX in *; lia).
        repeat split; try lia.
        intros j w Hj. destruct (Hothers j w Hj) as [Hne Hj'].
        destruct (Hregs j w Hj') as (ij & restj & Hnj & Hlj & Hbfj & Hbaj).
        exists ij, restj. rewrite nth_error_set_task_neq by exact Hne.
        split; [exact Hnj|]. split; [exact Hlj|].
        split; intros Hi;
          [specialize (Hbfj Hi)|specialize (Hbaj Hi)]; lia.
    + (* first turn *)
      split; [exact Hlen|]. split; [exact HL|]. split.
      { cbn [threads shared].
        apply (discipline_neutral s0 ts s _ [CounterRead c] Hd);
          reflexivity. }
      split; [|exact Hmax].
      unfold counted_split, undecremented, increments_stored.
      cbn [threads regs shared activeRequests failedRequests emit].
      repeat split; try lia.
      intros j w Hj. destruct (Nat.eq_dec j k) as [-> | Hne].
      * rewrite set_reg_eq in Hj. injection Hj as <-.
        exists i, rest. split; [exact Hnth|]. split; [congruence|].
        split; intros ->; cbn in Hload; injection Hload as <-;
          cbn [counter_value]; lia.
      * rewrite set_reg_neq in Hj by exact Hne. exact (Hregs j w Hj).
  - (* a statement of one turn *)
    destruct (exec (S k) i s) as [s'|] eqn:Hex; [|exact Hinv].
    destruct (exec_effect (S k) i s s' Hex)
      as (evs & Ht & _ & Hm & Htake & Ha & Hf & _ & Hev).
    destruct (loads_not_counted i Hload) as [Hnd Hni].
    rewrite Hnd in Hpd. rewrite Hni in Hpi.
    split; [cbn [threads]; now rewrite length_set_task|].
    split; [exact HL|]. split.
    { cbn [threads shared].
      exact (discipline_pop s0 k i rest ts s s' evs Hd Hnth Ht Hm Htake Hev). }
    split; [|exact Hmax].
    unfold counted_split, undecremented, increments_stored.
    cbn [threads regs shared].
    assert (Ha' : activeRequests s' = activeRequests s)
      by (rewrite Ha; destruct i; try reflexivity; discriminate).
    assert (Hf' : failedRequests s' = failedRequests s)
      by (rewrite Hf; destruct i; try reflexivity; discriminate).
    rewrite Ha', Hf'. repeat split; try lia.
    intros j w Hj.
    destruct (Hregs j w Hj) as (ij & restj & Hnj & Hlj & Hbfj & Hbaj).
    destruct (Nat.eq_dec j k) as [-> | Hne].
    + rewrite Hnth in Hnj. injection Hnj as <- <-. contradiction.
    + exists ij, restj. rewrite nth_error_set_task_neq by exact Hne.
      split; [exact Hnj|]. split; [exact Hlj|].
      split; intros Hi;
        [specialize (Hbfj Hi)|specialize (Hbaj Hi)]; lia.
Qed.

Lemma split_inv_launch (http : nat -> http_result) (total : nat) (s0 : state)
      (L : nat) (m : machine) (n : Z) (url : string) :
  (L < total)%nat ->
  split_inv http total s0 L m ->
  split_inv http total s0 (S L)
    (mkMachine (threads m ++ [sendGetRequestTask (Z.of_nat L + 1) (http L)])
               (regs m)
               (serial (MsgLaunched (Z.of_nat L + 1) n url)
                       (emit (TaskCreate (Z.of_nat L + 1)) (shared m)))).
Proof.
  intros Hlt (Hlen & HL & Hd & Hc & Hmax).
  destruct m as [ts regs0 s]. cbn [threads regs shared] in *.
  destruct (task_code_counts (Z.of_nat L + 1) (http L))
    as (Hdec & Hinc & _).
  unfold split_inv. cbn [threads regs shared].
  split; [rewrite length_app; simpl; lia|]. split; [lia|].
  split; [now apply discipline_launch|]. split; [|exact Hmax].
  destruct Hc as (Hc0 & Hca & Hca' & Hcs & Hcf & Hcl & Hregs).
  unfold counted_split, undecremented, increments_stored in *.
  cbn [threads regs shared activeRequests failedRequests serial emit] in *.
  rewrite !pending_app_one, Hdec, Hinc, count_failed_succ.
  pose proof (count_failed_le http L).
  assert (Hsame :
            Z.of_nat (count_failed http L +
                      (if is_success (http L) then 0 else 1)) -
            Z.of_nat (pending is_inc ts +
                      (if is_success (http L) then 0 else 1)) =
            Z.of_nat (count_failed http L) - Z.of_nat (pending is_inc ts))
    by (destruct (is_success (http L)); lia).
  rewrite Hsame.
  split; [lia|]. split; [lia|]. split; [lia|]. split; [lia|].
  split; [lia|]. split; [destruct (is_success (http L)); lia|].
  intros j w Hj.
  destruct (Hregs j w Hj) as (ij & restj & Hnj & Hlj & Hbfj & Hbaj).
  exists ij, restj.
  rewrite nth_error_app1 by (apply nth_error_Some; congruence).
  split; [exact Hnj|]. split; [exact Hlj|].
  split; intros Hi; [specialize (Hbfj Hi)|specialize (Hbaj Hi)]; lia.
Qed.

Lemma split_inv_emit (http : nat -> http_result) (total : nat) (s0 : state)
      (L : nat) (m : machine) (e : event) :
  (forall held, exclusive held [e] = Some held) ->
  split_inv http total s0 L m ->
  split_inv http total s0 L
    (mkMachine (threads m) (regs m) (emit e (shared m))).
Proof.
  intros He (Hlen & HL & Hd & Hc & Hmax).
  split; [exact Hlen|]. split; [exact HL|]. split; [|split; [exact Hc|exact Hmax]].
  cbn [threads shared].
  apply (discipline_neutral s0 _ (shared m) _ [e] Hd); [reflexivity..|exact He].
Qed.

Lemma split_inv_start (http : nat -> http_result)
      (API_ENDPOINTS : list string) (s : state) :
  ledMutex s = None ->
  NUM_ENDPOINTS API_ENDPOINTS <= INT_MAX ->
  split_inv http (List.length API_ENDPOINTS) s 0
    (mkMachine [] no_registers
       (reset_counters (NUM_ENDPOINTS API_ENDPOINTS) (serial MsgCycleStart s))).
Proof.
  intros Hm Hmax. unfold NUM_ENDPOINTS in *.
  split; [reflexivity|]. split; [lia|].
  split; [now apply discipline_start|]. split; [|exact Hmax].
  unfold counted_split, undecremented, increments_stored, pending,
    count_failed.
  simpl. repeat split; try lia. intros k v Hk. discriminate.
Qed.

(** ** Properties kept by every turn *)

Section SplitSchedules.

Variable http : nat -> http_result.
Variable bound : nat.
Variable P : nat -> machine -> Prop.

Hypothesis P_step :
  forall L k m, P L m -> P L (step_task_split k m).

Hypothesis P_launch :
  forall L m total url,
    (L < bound)%nat ->
    P L m ->
    P (S L)
      (mkMachine (threads m ++ [sendGetRequestTask (Z.of_nat L + 1) (http L)])
                 (regs m)
                 (serial (MsgLaunched (Z.of_nat L + 1) total url)
                         (emit (TaskCreate (Z.of_nat L + 1)) (shared m)))).

Hypothesis P_emit :
  forall L m e,
    e = CounterRead ActiveRequests \/ e = Delay 50 ->
    P L m ->
    P L (mkMachine (threads m) (regs m) (emit e (shared m))).

Lemma run_split_keeps (L : nat) (slice : list nat) :
  forall m : machine, P L m -> P L (run_tasks_split slice m).
Proof.
  unfold run_tasks_split.
  induction slice as [|k slice IH]; intros m HP; simpl; [exact HP|].
  apply IH. now apply P_step.
Qed.

Lemma launch_split_keeps (urls : list string) :
  forall (i : nat) (total : Z) (sched : list (list nat)) (m : machine),
    (i + List.length urls <= bound)%nat ->
    P i m ->
    P (i + List.length urls)
      (snd (launch_tasks_split urls i total http sched m)).
Proof.
  induction urls as [|url urls IH]; intros i total sched m Hb HP;
    cbn [launch_tasks_split List.length] in *.
  - now rewrite Nat.add_0_r.
  - rewrite <- plus_n_Sm. change (S (i + List.length urls))
      with (S i + List.length urls)%nat.
    apply IH; [lia|].
    apply run_split_keeps. apply P_launch; [lia|exact HP].
Qed.

Lemma wait_tasks_split_eq (sched : list (list nat)) (m : machine) :
  wait_tasks_split sched m =
  let s := emit (CounterRead ActiveRequests) (shared m) in
  if activeRequests s >? 0 then
    match sched with
    | [] => (false, mkMachine (threads m) (regs m) s)
    | slice :: sched' =>
        wait_tasks_split sched'
          (run_tasks_split slice
                           (mkMachine (threads m) (regs m) (delay 50 s)))
    end
  else (true, mkMachine (threads m) (regs m) s).
Proof. destruct sched; reflexivity. Qed.

Lemma wait_split_keeps (L : nat) (sched : list (list nat)) :
  forall m : machine,
    P L m ->
    P L (snd (wait_tasks_split sched m)) /\
    (if fst (wait_tasks_split sched m)
     then activeRequests (shared (snd (wait_tasks_split sched m))) <= 0
     else 0 < activeRequests (shared (snd (wait_tasks_split sched m)))).
Proof.
  assert (Hleft : forall m : machine,
            P L m ->
            (activeRequests (emit (CounterRead ActiveRequests) (shared m))
             >? 0) = false ->
            P L (mkMachine (threads m) (regs m)
                           (emit (CounterRead ActiveRequests) (shared m))) /\
            activeRequests (emit (CounterRead ActiveRequests) (shared m))
              <= 0).
  { intros m HP Hact. split; [apply P_emit; auto|].
    rewrite Z.gtb_ltb in Hact. now apply Z.ltb_ge in Hact. }
  induction sched as [|slice sched IH]; intros m HP;
    rewrite wait_tasks_split_eq; cbn zeta;
    destruct (activeRequests (emit (CounterRead ActiveRequests) (shared m))
              >? 0) eqn:Hact;
    try (cbn [fst snd shared]; now apply Hleft).
  - cbn [fst snd shared]. split; [apply P_emit; auto|].
    now apply Z.gtb_lt.
  - apply IH. apply run_split_keeps.
    apply (P_emit L (mkMachine (threads m) (regs m)
                               (emit (CounterRead ActiveRequests) (shared m)))
                  (Delay 50)); [now right|].
    apply P_emit; auto.
Qed.

Lemma cycle_split_keeps (API_ENDPOINTS : list string)
      (sched : list (list nat)) (s : state) :
  List.length API_ENDPOINTS = bound ->
  P 0 (mkMachine [] no_registers
         (reset_counters (NUM_ENDPOINTS API_ENDPOINTS)
                         (serial MsgCycleStart s))) ->
  P bound (snd (run_cycle_split API_ENDPOINTS http sched s)) /\
  (if fst (run_cycle_split API_ENDPOINTS http sched s)
   then activeRequests
          (shared (snd (run_cycle_split API_ENDPOINTS http sched s))) <= 0
   else 0 < activeRequests
              (shared (snd (run_cycle_split API_ENDPOINTS http sched s)))).
Proof.
  intros Hlen Hstart. unfold run_cycle_split.
  pose proof (launch_split_keeps API_ENDPOINTS 0
                (NUM_ENDPOINTS API_ENDPOINTS) sched _
                ltac:(simpl; lia) Hstart) as Hlaunch.
  destruct (launch_tasks_split API_ENDPOINTS 0 (NUM_ENDPOINTS API_ENDPOINTS)
              http sched _) as [sched' m].
  cbn [snd Nat.add] in Hlaunch. rewrite Hlen in Hlaunch.
  now apply wait_split_keeps.
Qed.

End SplitSchedules.

(** ** The end of a cycle *)

(** When the wait loop is left, every task has stored its decrement. *)
Lemma split_inv_end (http : nat -> http_result) (total : nat) (s0 : state)
      (m : machine) :
  split_inv http total s0 total m ->
  activeRequests (shared m) <= 0 ->
  Forall (fun code => stage_of code = Counted) (threads m) /\
  Forall (fun code => Forall (fun i => i = ITaskDelete) code) (threads m) /\
  (forall k, regs m k = None) /\
  ledMutex (shared m) = None /\
  activeRequests (shared m) = 0 /\
  Z.min 1 (Z.of_nat (count_failed http total))
    <= failedRequests (shared m)
    <= Z.of_nat (count_failed http total).
Proof.
  intros (Hlen & _ & (Hws & [Hown Hex] & _) & Hc & _) Hle.
  destruct Hc as (_ & Hca & _ & _ & Hcf & _ & Hregs).
  unfold undecremented, increments_stored in *.
  rewrite Z.sub_diag in Hca.
  assert (Hpd : pending is_dec (threads m) = 0%nat) by lia.
  assert (Hall : forall code, In code (threads m) ->
            stage_of code = Counted /\
            Forall (fun i => i = ITaskDelete) code /\
            existsb is_inc code = false).
  { intros code Hin.
    pose proof (pending_none is_dec _ Hpd code Hin) as Hnodec.
    pose proof (proj1 (Forall_forall _ _) Hws code Hin) as Hfol.
    destruct (follows_facts code _ Hfol) as (_ & _ & Hd & Hcnt & _).
    rewrite Hnodec in Hd.
    destruct (stage_of code); try discriminate.
    destruct (Hcnt eq_refl). auto. }
  assert (Hpi : pending is_inc (threads m) = 0%nat)
    by (apply pending_zero; intros code Hin; now apply Hall).
  rewrite Hpi in Hcf.
  split; [apply Forall_forall; intros; now apply Hall|].
  split; [apply Forall_forall; intros; now apply Hall|].
  split; [|split; [|split; lia]].
  - intros k. destruct (regs m k) as [v|] eqn:Hreg; [exfalso|reflexivity].
    destruct (Hregs k v Hreg) as (i & rest & Hn & Hl & _).
    destruct (Hall _ (nth_error_In _ _ Hn)) as (_ & Hdel & _).
    inversion_clear Hdel as [|? ? Hi _]. subst i. now apply Hl.
  - destruct (ledMutex (shared m)) as [h|] eqn:Hh; [|reflexivity].
    destruct (Hex h eq_refl) as (k & code & -> & Hk).
    pose proof (proj2 (Hown k code Hk) eq_refl) as Hq.
    destruct (Hall code (nth_error_In _ _ Hk)) as (Hq' & _). congruence.
Qed.

Lemma poll_cycle_split_connected (API_ENDPOINTS : list string)
      (http : nat -> http_result) (sched : list (list nat)) (s : state)
      (m' : machine) :
  poll_cycle_split API_ENDPOINTS WL_CONNECTED http sched s = Some m' ->
  fst (run_cycle_split API_ENDPOINTS http sched s) = true /\
  m' = mkMachine
         (threads (snd (run_cycle_split API_ENDPOINTS http sched s)))
         (regs (snd (run_cycle_split API_ENDPOINTS http sched s)))
         (cycle_summary
            (shared (snd (run_cycle_split API_ENDPOINTS http sched s)))).
Proof.
  unfold poll_cycle_split. rewrite Z.eqb_refl. cbn [negb].
  destruct (run_cycle_split API_ENDPOINTS http sched s) as [[|] m];
    [|discriminate].
  intros H. injection H as <-. split; reflexivity.
Qed.

(** The machine in which a completed cycle leaves its wait loop. *)
Lemma cycle_split_end (API_ENDPOINTS : list string) (http : nat -> http_result)
      (sched : list (list nat)) (s : state) (m' : machine) :
  ledMutex s = None ->
  NUM_ENDPOINTS API_ENDPOINTS <= INT_MAX ->
  poll_cycle_split API_ENDPOINTS WL_CONNECTED http sched s = Some m' ->
  exists m1,
    m' = mkMachine (threads m1) (regs m1) (cycle_summary (shared m1)) /\
    split_inv http (List.length API_ENDPOINTS) s
              (List.length API_ENDPOINTS) m1 /\
    activeRequests (shared m1) <= 0.
Proof.
  intros Hm Hmax Hpoll.
  destruct (poll_cycle_split_connected _ _ _ _ _ Hpoll) as [Hleft ->].
  destruct (cycle_split_keeps http (List.length API_ENDPOINTS)
              (split_inv http (List.length API_ENDPOINTS) s))
    with (API_ENDPOINTS := API_ENDPOINTS) (sched := sched) (s := s)
    as [Hinv Hact].
  - intros L k m. apply split_inv_step.
  - intros L m total url. apply split_inv_launch.
  - intros L m e [-> | ->]; now apply split_inv_emit.
  - reflexivity.
  - now apply split_inv_start.
  - rewrite Hleft in Hact. eexists. split; [reflexivity|]. split; assumption.
Qed.

(** X10. The wait loop of pollEndpoints is a barrier under every schedule,
    also when the scheduler switches tasks between the load and the store of
    a counter update: when a cycle completes, every request task has run
    everything but possibly its [vTaskDelete], no loaded value is left unused,
    the mutex is free and [activeRequests] is 0.  [failedRequests] can have
    lost increments: it is at most the number of requests that did not
    succeed, and at least 1 if there is one; so the summary line reports a
    failure exactly when a request did not succeed, with a count that can be
    too low. *)
Theorem cycle_barrier (API_ENDPOINTS : list string) (http : nat -> http_result)
        (sched : list (list nat)) (s : state) (m' : machine) :
  ledMutex s = None ->
  NUM_ENDPOINTS API_ENDPOINTS <= INT_MAX ->
  poll_cycle_split API_ENDPOINTS WL_CONNECTED http sched s = Some m' ->
  List.length (threads m') = List.length API_ENDPOINTS /\
  Forall (fun code => Forall (fun i => i = ITaskDelete) code) (threads m') /\
  (forall k, regs m' k = None) /\
  ledMutex (shared m') = None /\
  activeRequests (shared m') = 0 /\
  Z.min 1 (Z.of_nat (count_failed http (List.length API_ENDPOINTS)))
    <= failedRequests (shared m')
    <= Z.of_nat (count_failed http (List.length API_ENDPOINTS)) /\
  last (trace (shared m')) WiFiBegin =
    Serial (match count_failed http (List.length API_ENDPOINTS) with
            | O => MsgCycleOk
            | S _ => MsgCycleFailed (failedRequests (shared m'))
            end).
Proof.
  intros Hm Hmax Hpoll.
  destruct (cycle_split_end _ _ _ _ _ Hm Hmax Hpoll) as (m1 & -> & Hinv & Hle).
  destruct (split_inv_end _ _ _ _ Hinv Hle)
    as (_ & Hdone & Hregs & Hfree & Ha & Hf).
  destruct (cycle_summary_effect (shared m1))
    as (evs & Ht & _ & _ & Hlast & Hm' & Ha' & Hf' & _).
  cbn [threads regs shared]. rewrite Hm', Ha', Hf', Ht.
  split; [apply Hinv|]. split; [exact Hdone|]. split; [exact Hregs|].
  split; [exact Hfree|]. split; [exact Ha|]. split; [exact Hf|].
  assert (Hne : evs <> []).
  { intros ->. simpl in Hlast. discriminate. }
  rewrite last_after by exact Hne. rewrite Hlast.
  destruct (count_failed http (List.length API_ENDPOINTS)) eqn:Hn.
  - assert (H0 : failedRequests (shared m1) = 0) by lia.
    now rewrite H0.
  - assert (Hpos : (failedRequests (shared m1) >? 0) = true)
      by (apply Z.gtb_lt; lia).
    now rewrite Hpos.
Qed.

(** ** Requests that all end alike *)

Lemma led_settles_frame (good : bool) (ts : tasks) (s s' : state) :
  failedRequests s' = failedRequests s ->
  red_led s' = red_led s ->
  led_settles good ts s -> led_settles good ts s'.
Proof.
  intros Hf Hr (Hw & Hmid & Hred). unfold led_settles.
  rewrite Hf, Hr. auto.
Qed.

Lemma led_split_step (http : nat -> http_result) (total : nat) (s0 : state)
      (L : nat) (good : bool) (k : nat) (m : machine) :
  split_inv http total s0 L m ->
  led_settles_split good m ->
  led_settles_split good (step_task_split k m).
Proof.
  intros (_ & _ & _ & Hc & _) Hled.
  destruct Hc as (_ & _ & _ & _ & _ & _ & Hregs).
  pose proof Hled as [Hsettles Hzero].
  destruct m as [ts regs0 s]. cbn [threads regs shared] in *.
  unfold step_task_split. cbn [threads regs shared].
  destruct (nth_error ts k) as [[|i rest]|] eqn:Hnth; try exact Hled.
  destruct (loads i) as [c|] eqn:Hload.
  - destruct (regs0 k) as [v|] eqn:Hreg.
    + (* second turn *)
      destruct (finish_effect i c v s Hload)
        as (evs & _ & _ & _ & Hf & Hr & _).
      destruct Hsettles as (Hw & Hmid & Hred).
      pose proof (pending_set_task is_inc ts k i rest Hnth) as Hpi.
      pose proof (pending_set_task is_conditional ts k i rest Hnth) as Hpc.
      pose proof (proj1 (Forall_forall _ _) Hw _ (nth_error_In _ _ Hnth))
        as Hwi.
      cbn [forallb] in Hwi. apply andb_prop in Hwi as [Hwi Hwrest].
      split; [split; [|split]|]; cbn [threads regs shared].
      * now apply Forall_set_task.
      * destruct good.
        -- destruct Hmid as [Hinc H0]. rewrite Hinc in Hpi.
           split; [lia|]. rewrite Hf.
           destruct i; try exact H0. cbn [is_inc] in Hpi. lia.
        -- lia.
      * destruct (is_led_write i) eqn:Hlw.
        -- left. rewrite Hr.
           destruct i; try discriminate.
           cbn [writes_only] in Hwi.
           apply andb_prop in Hwi as [Hpin Hlev]. rewrite Hpin.
           destruct good.
           ++ rewrite (Hzero eq_refl k v _ rest Hreg Hnth eq_refl).
              destruct v0; try discriminate; reflexivity.
           ++ cbn [is_conditional] in Hpc. lia.
        -- assert (Hsame : red_led (finish i v s) = red_led s)
             by (rewrite Hr; destruct i; try reflexivity; discriminate).
           rewrite Hsame. destruct Hred as [Hred | Hall]; [now left|right].
           apply Forall_set_task; [exact Hall|].
           pose proof (proj1 (Forall_forall _ _) Hall _
                         (nth_error_In _ _ Hnth)) as Hex'.
           cbn [existsb] in Hex'. now rewrite Hlw in Hex'.
      * intros Hgood j w ij restj Hj Hnj Hcond.
        destruct (Nat.eq_dec j k) as [-> | Hne].
        -- rewrite set_reg_eq in Hj. discriminate.
        -- rewrite set_reg_neq in Hj by exact Hne.
           rewrite nth_error_set_task_neq in Hnj by exact Hne.
           exact (Hzero Hgood j w ij restj Hj Hnj Hcond).
    + (* first turn *)
      split; cbn [threads regs shared].
      * now apply (led_settles_frame good ts s).
      * intros Hgood j w ij restj Hj Hnj Hcond.
        destruct (Nat.eq_dec j k) as [-> | Hne].
        -- rewrite set_reg_eq in Hj. injection Hj as <-.
           rewrite Hnth in Hnj. injection Hnj as <- <-.
           destruct i; try discriminate.
           cbn in Hload. injection Hload as <-. cbn [counter_value].
           subst good. now destruct Hsettles as (_ & [_ H0] & _).
        -- rewrite set_reg_neq in Hj by exact Hne.
           exact (Hzero Hgood j w ij restj Hj Hnj Hcond).
  - destruct (exec (S k) i s) as [s'|] eqn:Hex; [|exact Hled].
    split; cbn [threads regs shared].
    + exact (led_settles_step good k i rest ts s s' Hsettles Hnth Hex).
    + intros Hgood j w ij restj Hj Hnj Hcond.
      destruct (Nat.eq_dec j k) as [-> | Hne].
      * destruct (Hregs k w Hj) as (i0 & rest0 & Hn0 & Hl0 & _).
        rewrite Hnth in Hn0. injection Hn0 as <- <-. contradiction.
      * rewrite nth_error_set_task_neq in Hnj by exact Hne.
        exact (Hzero Hgood j w ij restj Hj Hnj Hcond).
Qed.

Lemma led_split_launch (http : nat -> http_result) (total : nat) (s0 : state)
      (L : nat) (good : bool) (index n : Z) (r : http_result) (url : string)
      (m : machine) :
  split_inv http total s0 L m ->
  is_success r = good ->
  led_settles_split good m ->
  led_settles_split good
    (mkMachine (threads m ++ [sendGetRequestTask index r]) (regs m)
               (serial (MsgLaunched index n url)
                       (emit (TaskCreate index) (shared m)))).
Proof.
  intros (_ & _ & _ & Hc & _) Hgood [Hsettles Hzero].
  destruct Hc as (_ & _ & _ & _ & _ & _ & Hregs).
  split; cbn [threads regs shared].
  - now apply led_settles_launch.
  - intros Hg j w ij restj Hj Hnj Hcond.
    destruct (Hregs j w Hj) as (i0 & rest0 & Hn0 & _).
    rewrite nth_error_app1 in Hnj by (apply nth_error_Some; congruence).
    exact (Hzero Hg j w ij restj Hj Hnj Hcond).
Qed.

(** X13. With at least one endpoint, when all requests of a cycle end alike
    the red LED at the end of the cycle does not depend on the schedule, also
    when the scheduler switches tasks between the load and the store of a
    counter update: if every request succeeds, the cycle ends with the red
    LED off and [failedRequests] at 0; if none succeeds, it ends with the red
    LED on and [failedRequests] between 1 and the number of endpoints. *)
Theorem alike_results_any_schedule (API_ENDPOINTS : list string)
        (http : nat -> http_result) (good : bool) (sched : list (list nat))
        (s s' : state) :
  ledMutex s = None ->
  NUM_ENDPOINTS API_ENDPOINTS <= INT_MAX ->
  API_ENDPOINTS <> [] ->
  (forall k, (k < List.length API_ENDPOINTS)%nat ->
             is_success (http k) = good) ->
  pollEndpoints_split API_ENDPOINTS WL_CONNECTED http sched s = Some s' ->
  red_led s' = (if good then LOW else HIGH) /\
  (if good then failedRequests s' = 0
   else 1 <= failedRequests s' <= NUM_ENDPOINTS API_ENDPOINTS).
Proof.
  intros Hm Hmax Hne Hall Hpoll. unfold pollEndpoints_split in Hpoll.
  destruct (poll_cycle_split API_ENDPOINTS WL_CONNECTED http sched s)
    as [m'|] eqn:Hcycle; [|discriminate].
  injection Hpoll as <-.
  destruct (poll_cycle_split_connected _ _ _ _ _ Hcycle) as [Hleft ->].
  destruct (cycle_split_keeps http (List.length API_ENDPOINTS)
              (fun L m =>
                 split_inv http (List.length API_ENDPOINTS) s L m /\
                 led_settles_split good m))
    with (API_ENDPOINTS := API_ENDPOINTS) (sched := sched) (s := s)
    as [[Hinv Hled] Hact].
  - intros L k m [Hinv Hled]. split.
    + now apply split_inv_step.
    + exact (led_split_step _ _ _ _ _ _ _ Hinv Hled).
  - intros L m total url HL [Hinv Hled]. split.
    + now apply split_inv_launch.
    + apply (led_split_launch _ _ _ _ _ _ _ _ _ _ Hinv); [now apply Hall|].
      exact Hled.
  - intros L m e He [Hinv [Hsettles Hzero]]. split.
    + destruct He as [-> | ->]; now apply split_inv_emit.
    + split; [|exact Hzero]. cbn [threads shared].
      now apply (led_settles_frame good _ (shared m)).
  - reflexivity.
  - split; [now apply split_inv_start|]. split.
    + split; [constructor|]. split; [|right; constructor].
      destruct good; [split|]; reflexivity.
    + intros _ k v i rest Hk. discriminate.
  - rewrite Hleft in Hact.
    set (m1 := snd (run_cycle_split API_ENDPOINTS http sched s)) in *.
    destruct (split_inv_end _ _ _ _ Hinv Hact) as (Hcnt & _ & _ & _ & _ & Hf).
    destruct (cycle_summary_effect (shared m1))
      as (_ & _ & _ & _ & _ & _ & _ & Hf' & Hr').
    cbn [shared]. rewrite Hr', Hf'.
    rewrite (count_failed_alike http good _ Hall) in Hf.
    split.
    + destruct Hled as [(_ & _ & [Hred | Hpend]) _]; [exact Hred|].
      exfalso. destruct Hinv as (Hlen & _ & (Hws & _) & _).
      destruct (threads m1) as [|code ts'];
        [destruct API_ENDPOINTS; [now apply Hne|discriminate]|].
      inversion_clear Hpend as [|? ? Hwrite _].
      inversion_clear Hcnt as [|? ? Hq _].
      inversion_clear Hws as [|? ? Hfol _].
      destruct (follows_facts code _ Hfol) as (_ & _ & _ & _ & Hnow).
      rewrite Hnow in Hwrite by (right; exact Hq). discriminate.
    + unfold NUM_ENDPOINTS.
      assert (List.length API_ENDPOINTS <> 0%nat)
        by (destruct API_ENDPOINTS; [now elim Hne|discriminate]).
      destruct good; lia.
Qed.

(** ** Fair schedules *)

Lemma fair_turn (n : nat) (slice : list nat) (k : nat) :
  fair n slice = true -> (k < n)%nat -> In k slice.
Proof.
  unfold fair. rewrite forallb_forall. intros Hall Hk.
  assert (Hex : existsb (Nat.eqb k) slice = true)
    by (apply Hall, in_seq; lia).
  apply existsb_exists in Hex as (x & Hin & Heq).
  apply Nat.eqb_eq in Heq. now subst x.
Qed.

Lemma code_turns_le (loaded : bool) (code : list instr) :
  (code_turns loaded code <= list_sum (map turns_of code))%nat.
Proof.
  destruct code as [|i rest]; [reflexivity|]. cbn [code_turns map].
  change (list_sum (turns_of i :: map turns_of rest))
    with (turns_of i + list_sum (map turns_of rest))%nat.
  destruct loaded; [|lia]. unfold turns_of. destruct (loads i); lia.
Qed.

Lemma code_turns_unloaded (code : list instr) :
  code_turns false code = list_sum (map turns_of code).
Proof. destruct code; reflexivity. Qed.

Lemma turns_left_ext (regs1 regs2 : registers) (ts : tasks) :
  forall j : nat,
    (forall i, (j <= i)%nat -> regs1 i = regs2 i) ->
    turns_left_from j regs1 ts = turns_left_from j regs2 ts.
Proof.
  induction ts as [|code ts IH]; intros j Hsame; [reflexivity|].
  cbn [turns_left_from]. rewrite (Hsame j) by lia.
  rewrite (IH (S j)) by (intros; apply Hsame; lia). reflexivity.
Qed.

(** The turns left when task [k] goes from [code] to [code'] and only its
    register changes. *)
Lemma turns_left_update (regs1 regs2 : registers) (ts : tasks) :
  forall (j k : nat) (code code' : list instr),
    nth_error ts k = Some code ->
    (forall i, i <> (j + k)%nat -> regs2 i = regs1 i) ->
    (turns_left_from j regs2 (set_task k code' ts) +
     code_turns (is_loaded (regs1 (j + k)%nat)) code =
     turns_left_from j regs1 ts +
     code_turns (is_loaded (regs2 (j + k)%nat)) code')%nat.
Proof.
  induction ts as [|t ts IH]; intros j k code code' Hnth Hsame;
    destruct k; simpl in Hnth; try discriminate.
  - injection Hnth as ->. cbn [set_task turns_left_from].
    rewrite Nat.add_0_r.
    rewrite (turns_left_ext regs2 regs1 ts (S j))
      by (intros; apply Hsame; lia).
    lia.
  - cbn [set_task turns_left_from].
    rewrite (Hsame j) by lia.
    specialize (IH (S j) k code code' Hnth).
    replace (S j + k)%nat with (j + S k)%nat in IH by lia.
    specialize (IH ltac:(intros; apply Hsame; lia)). lia.
Qed.

Lemma turns_left_app (regs0 : registers) (ts : tasks) (code : list instr) :
  forall j : nat,
    turns_left_from j regs0 (ts ++ [code]) =
    (turns_left_from j regs0 ts +
     code_turns (is_loaded (regs0 (j + List.length ts)%nat)) code)%nat.
Proof.
  induction ts as [|t ts IH]; intros j; cbn [app turns_left_from List.length].
  - replace (j + 0)%nat with j by lia. lia.
  - rewrite IH. replace (S j + List.length ts)%nat
      with (j + S (List.length ts))%nat by lia. lia.
Qed.

Lemma turns_left_zero (regs0 : registers) (ts : tasks) :
  forall j : nat,
    turns_left_from j regs0 ts = 0%nat ->
    Forall (fun code => code = []) ts.
Proof.
  induction ts as [|code ts IH]; intros j H0; [constructor|].
  cbn [turns_left_from] in H0. constructor; [|apply (IH (S j)); lia].
  destruct code as [|i rest]; [reflexivity|].
  cbn [code_turns] in H0. unfold turns_of in H0.
  destruct (is_loaded (regs0 j)), (loads i); lia.
Qed.

Lemma turns_left_finished (regs0 : registers) (ts : tasks) :
  (forall code, In code ts -> code = []) ->
  forall j : nat, turns_left_from j regs0 ts = 0%nat.
Proof.
  induction ts as [|code ts IH]; intros Hnone j; [reflexivity|].
  cbn [turns_left_from].
  rewrite (Hnone code) by now left.
  rewrite IH by (intros; apply Hnone; now right). reflexivity.
Qed.

Lemma task_code_turns (index : Z) (r : http_result) :
  (list_sum (map turns_of (sendGetRequestTask index r)) <= TASK_TURNS)%nat.
Proof. unfold TASK_TURNS. request_paths r; simpl; lia. Qed.

(** A turn does nothing only when the task waits for the mutex, has finished
    or does not exist; otherwise it leaves fewer turns to take. *)
Lemma step_split_cases (k : nat) (m : machine) :
  (step_task_split k m = m /\
   forall i rest,
     nth_error (threads m) k = Some (i :: rest) ->
     i = ITake /\ ledMutex (shared m) <> None) \/
  (turns_left (step_task_split k m) < turns_left m)%nat.
Proof.
  destruct m as [ts regs0 s]. unfold step_task_split, turns_left.
  cbn [threads regs shared].
  destruct (nth_error ts k) as [[|i rest]|] eqn:Hnth;
    try (left; split; [reflexivity|]; intros; discriminate).
  destruct (loads i) as [c|] eqn:Hload.
  - right. destruct (regs0 k) as [v|] eqn:Hreg; cbn [threads regs].
    + pose proof (turns_left_update regs0 (set_reg k None regs0) ts 0 k
                    (i :: rest) rest Hnth
                    ltac:(intros; now apply set_reg_neq)) as Hupd.
      cbn [Nat.add] in Hupd. rewrite set_reg_eq, Hreg in Hupd.
      cbn [is_loaded code_turns] in Hupd.
      rewrite code_turns_unloaded in Hupd. lia.
    + pose proof (turns_left_update regs0
                    (set_reg k (Some (counter_value c s)) regs0) ts 0 k
                    (i :: rest) (i :: rest) Hnth
                    ltac:(intros; now apply set_reg_neq)) as Hupd.
      cbn [Nat.add] in Hupd. rewrite set_reg_eq, Hreg in Hupd.
      rewrite (set_task_same ts k _ Hnth) in Hupd.
      cbn [is_loaded code_turns] in Hupd.
      assert (Hi : turns_of i = 2%nat)
        by (unfold turns_of; now rewrite Hload).
      rewrite Hi in Hupd. lia.
  - destruct (exec (S k) i s) as [s'|] eqn:Hex.
    + right. cbn [threads regs].
      pose proof (turns_left_update regs0 regs0 ts 0 k (i :: rest) rest Hnth
                    ltac:(reflexivity)) as Hupd.
      cbn [Nat.add] in Hupd. cbn [code_turns] in Hupd.
      pose proof (code_turns_le (is_loaded (regs0 k)) rest).
      assert (Hi : turns_of i = 1%nat)
        by (unfold turns_of; now rewrite Hload).
      rewrite Hi in Hupd.
      destruct (is_loaded (regs0 k)); lia.
    + left. split; [reflexivity|].
      intros i0 rest0 Heq. injection Heq as <- <-.
      destruct i; simpl in Hex; try discriminate.
      split; [reflexivity|]. now destruct (ledMutex s).
Qed.

Lemma run_split_turns (slice : list nat) :
  forall m : machine,
    (turns_left (run_tasks_split slice m) <= turns_left m)%nat.
Proof.
  unfold run_tasks_split.
  induction slice as [|k slice IH]; intros m; simpl; [lia|].
  specialize (IH (step_task_split k m)).
  destruct (step_split_cases k m) as [[Heq _]|Hstep]; [|lia].
  rewrite Heq in IH at 2. exact IH.
Qed.

Lemma run_split_stuck (slice : list nat) :
  forall m : machine,
    turns_left (run_tasks_split slice m) = turns_left m ->
    forall k i rest,
      In k slice ->
      nth_error (threads m) k = Some (i :: rest) ->
      i = ITake /\ ledMutex (shared m) <> None.
Proof.
  induction slice as [|k0 slice IH]; intros m Hsame k i rest Hin Hnth;
    [destruct Hin|].
  pose proof (run_split_turns slice (step_task_split k0 m)) as Hle.
  change (run_tasks_split slice (step_task_split k0 m))
    with (run_tasks_split (k0 :: slice) m) in Hle.
  destruct (step_split_cases k0 m) as [[Heq Hblocked]|Hstep]; [|lia].
  destruct Hin as [<-|Hin]; [exact (Hblocked i rest Hnth)|].
  change (run_tasks_split (k0 :: slice) m)
    with (run_tasks_split slice (step_task_split k0 m)) in Hsame.
  rewrite Heq in Hsame.
  exact (IH m Hsame k i rest Hin Hnth).
Qed.

(** When every task has had a turn and none could take it, every task has
    finished: a task that waits for the mutex waits for a task that can go
    on. *)
Lemma all_stuck_done (s0 : state) (m : machine) :
  discipline s0 (threads m) (shared m) ->
  (forall k i rest,
     nth_error (threads m) k = Some (i :: rest) ->
     i = ITake /\ ledMutex (shared m) <> None) ->
  turns_left m = 0%nat.
Proof.
  intros (Hws & [Hiff Hwho] & _) Hstuck.
  assert (Hnone : forall code, In code (threads m) -> code = []).
  { intros code Hin. destruct (In_nth_error _ _ Hin) as [k Hnth].
    destruct code as [|i rest]; [reflexivity|exfalso].
    destruct (Hstuck k i rest Hnth) as [_ Hheld].
    destruct (ledMutex (shared m)) as [h|] eqn:Hm; [|now apply Hheld].
    destruct (Hwho h eq_refl) as (k' & code' & -> & Hnth').
    assert (Hq : stage_of code' = Holding) by now apply (Hiff k' code' Hnth').
    assert (Hf : follows (stage_of code') code' = true)
      by (apply (proj1 (Forall_forall _ _) Hws), (nth_error_In _ _ Hnth')).
    rewrite Hq in Hf. destruct code' as [|i' rest']; [discriminate|].
    destruct (Hstuck k' i' rest' Hnth') as [-> _]. discriminate. }
  now apply turns_left_finished.
Qed.

Lemma finished_idle (slice : list nat) :
  forall m : machine,
    turns_left m = 0%nat -> run_tasks_split slice m = m.
Proof.
  induction slice as [|k slice IH]; intros m H0; [reflexivity|].
  change (run_tasks_split (k :: slice) m)
    with (run_tasks_split slice (step_task_split k m)).
  destruct (step_split_cases k m) as [[Heq _]|Hstep]; [|lia].
  rewrite Heq. now apply IH.
Qed.

(** Once the tasks have finished, a wait loop that is not left stays. *)
Lemma wait_split_forever (sched : list (list nat)) :
  forall m : machine,
    turns_left m = 0%nat ->
    0 < activeRequests (shared m) ->
    fst (wait_tasks_split sched m) = false /\
    turns_left (snd (wait_tasks_split sched m)) = 0%nat.
Proof.
  induction sched as [|slice sched IH]; intros m H0 Hact;
    rewrite wait_tasks_split_eq; cbn zeta;
    assert (Hgt : (activeRequests
                     (emit (CounterRead ActiveRequests) (shared m)) >? 0)
                  = true) by (apply Z.gtb_lt; exact Hact);
    rewrite Hgt.
  - split; [reflexivity|exact H0].
  - rewrite finished_idle by exact H0. apply IH; [exact H0|exact Hact].
Qed.

(** Fair slices, as many as the tasks have turns left: the wait loop is left,
    or the tasks finish and the loop stays for ever. *)
Lemma wait_split_fair (http : nat -> http_result) (total : nat) (s0 : state)
      (sched : list (list nat)) :
  forall m : machine,
    split_inv http total s0 total m ->
    Forall (fun slice => fair total slice = true) sched ->
    (turns_left m <= List.length sched)%nat ->
    fst (wait_tasks_split sched m) = true \/
    (fst (wait_tasks_split sched m) = false /\
     turns_left (snd (wait_tasks_split sched m)) = 0%nat /\
     forall more, fst (wait_tasks_split (sched ++ more) m) = false).
Proof.
  induction sched as [|slice sched IH]; intros m Hinv Hfair Hleft.
  - destruct (fst (wait_tasks_split [] m)) eqn:Hfst; [now left|right].
    assert (H0 : turns_left m = 0%nat) by (cbn [List.length] in Hleft; lia).
    assert (Hact : 0 < activeRequests (shared m)).
    { rewrite wait_tasks_split_eq in Hfst. cbn zeta in Hfst.
      destruct (activeRequests (emit (CounterRead ActiveRequests) (shared m))
                >? 0) eqn:Hgt; [|discriminate].
      now apply Z.gtb_lt in Hgt. }
    split; [reflexivity|].
    split; [now apply wait_split_forever|].
    intros more. now apply wait_split_forever.
  - cbn [app]. rewrite wait_tasks_split_eq.
    cbn zeta.
    destruct (activeRequests (emit (CounterRead ActiveRequests) (shared m))
              >? 0) eqn:Hgt; [|now left].
    set (m1 := mkMachine (threads m) (regs m)
                         (delay 50 (emit (CounterRead ActiveRequests)
                                         (shared m)))).
    assert (Hinv1 : split_inv http total s0 total m1).
    { unfold m1, delay.
      apply (split_inv_emit http total s0 total
               (mkMachine (threads m) (regs m)
                          (emit (CounterRead ActiveRequests) (shared m))));
        [reflexivity|].
      now apply split_inv_emit. }
    assert (Hinv2 : split_inv http total s0 total (run_tasks_split slice m1)).
    { apply (run_split_keeps (split_inv http total s0));
        [intros L k m2; apply split_inv_step|exact Hinv1]. }
    assert (Hleft2 : (turns_left (run_tasks_split slice m1)
                      <= List.length sched)%nat).
    { pose proof (run_split_turns slice m1) as Hle.
      assert (H1 : turns_left m1 = turns_left m) by reflexivity.
      destruct (Nat.eq_dec (turns_left (run_tasks_split slice m1))
                           (turns_left m1)) as [Hsame|Hless];
        [|cbn [List.length] in Hleft; lia].
      rewrite Hsame.
      destruct Hinv1 as (Hlen & _ & Hd & _).
      rewrite (all_stuck_done s0 m1 Hd); [lia|].
      intros k i rest Hnth.
      apply (run_split_stuck slice m1 Hsame k i rest); [|exact Hnth].
      apply (fair_turn total); [now inversion Hfair|].
      rewrite <- Hlen. apply nth_error_Some. now rewrite Hnth. }
    destruct (IH (run_tasks_split slice m1) Hinv2
                 ltac:(now inversion Hfair) Hleft2)
      as [Hdone | (Hwait & H0 & Hever)]; [now left|right].
    split; [exact Hwait|]. split; [exact H0|].
    intros more. rewrite wait_tasks_split_eq. cbn zeta. rewrite Hgt.
    apply Hever.
Qed.

Lemma launch_split_sched (http : nat -> http_result) (urls : list string) :
  forall (i : nat) (total : Z) (sched : list (list nat)) (m : machine),
    fst (launch_tasks_split urls i total http sched m) =
    skipn (List.length urls) sched.
Proof.
  induction urls as [|url urls IH]; intros i total sched m;
    cbn [launch_tasks_split List.length]; [reflexivity|].
  rewrite IH. destruct sched; [now rewrite skipn_nil|reflexivity].
Qed.

(** Slices after those of [sched] do not change the creation of the tasks. *)
Lemma launch_split_app (http : nat -> http_result) (urls : list string)
      (more : list (list nat)) :
  forall (i : nat) (total : Z) (sched : list (list nat)) (m : machine),
    (List.length urls <= List.length sched)%nat ->
    launch_tasks_split urls i total http (sched ++ more) m =
    (fst (launch_tasks_split urls i total http sched m) ++ more,
     snd (launch_tasks_split urls i total http sched m)).
Proof.
  induction urls as [|url urls IH]; intros i total sched m Hlen;
    cbn [launch_tasks_split]; [reflexivity|].
  destruct sched as [|slice sched]; [cbn [List.length] in Hlen; lia|].
  cbn [app hd tl]. apply IH. cbn [List.length] in Hlen. lia.
Qed.

Lemma poll_split_left (API_ENDPOINTS : list string) (http : nat -> http_result)
      (sched : list (list nat)) (s : state) :
  pollEndpoints_split API_ENDPOINTS WL_CONNECTED http sched s =
  if fst (run_cycle_split API_ENDPOINTS http sched s)
  then Some (cycle_summary
               (shared (snd (run_cycle_split API_ENDPOINTS http sched s))))
  else None.
Proof.
  unfold pollEndpoints_split, poll_cycle_split.
  rewrite Z.eqb_refl. cbn [negb].
  now destruct (run_cycle_split API_ENDPOINTS http sched s) as [[|] m].
Qed.

(** X17. Under fair scheduling the tasks never block each other for good,
    and the wait loop ends unless a decrement of [activeRequests] is lost.
    When every time slice after the creation of the tasks gives each task a
    turn, and there are at least [TASK_TURNS] such slices for each endpoint,
    then either the cycle completes, or every task has run to its end with
    [activeRequests] still above 0 and pollEndpoints does not return however
    many slices follow.  With one endpoint or none the cycle completes. *)
Theorem fair_cycle_outcome (API_ENDPOINTS : list string)
        (http : nat -> http_result) (sched : list (list nat)) (s : state) :
  ledMutex s = None ->
  NUM_ENDPOINTS API_ENDPOINTS <= INT_MAX ->
  Forall (fun slice => fair (List.length API_ENDPOINTS) slice = true)
         (skipn (List.length API_ENDPOINTS) sched) ->
  (TASK_TURNS * List.length API_ENDPOINTS <=
   List.length (skipn (List.length API_ENDPOINTS) sched))%nat ->
  ((exists s',
      pollEndpoints_split API_ENDPOINTS WL_CONNECTED http sched s = Some s') \/
   (Forall (fun code => code = [])
           (threads (snd (run_cycle_split API_ENDPOINTS http sched s))) /\
    0 < activeRequests
          (shared (snd (run_cycle_split API_ENDPOINTS http sched s))) /\
    forall more,
      pollEndpoints_split API_ENDPOINTS WL_CONNECTED http (sched ++ more) s
      = None)) /\
  ((List.length API_ENDPOINTS <= 1)%nat ->
   exists s',
     pollEndpoints_split API_ENDPOINTS WL_CONNECTED http sched s = Some s').
Proof.
  intros Hm Hmax Hfair Hlong.
  set (n := List.length API_ENDPOINTS) in *.
  set (s1 := reset_counters (NUM_ENDPOINTS API_ENDPOINTS)
                            (serial MsgCycleStart s)).
  set (P := fun (L : nat) (m : machine) =>
              split_inv http n s L m /\
              (turns_left m <= TASK_TURNS * L)%nat).
  assert (HPstep : forall L k m, P L m -> P L (step_task_split k m)).
  { intros L k m [Hinv Hleft]. split; [now apply split_inv_step|].
    destruct (step_split_cases k m) as [[Heq _]|Hless];
      [now rewrite Heq|lia]. }
  assert (Hlaunch :
            P (0 + n)%nat
              (snd (launch_tasks_split API_ENDPOINTS 0
                      (NUM_ENDPOINTS API_ENDPOINTS) http sched
                      (mkMachine [] no_registers s1)))).
  { apply (launch_split_keeps http n P HPstep).
    - intros L m total url HL [Hinv Hleft]. split.
      + now apply split_inv_launch.
      + unfold turns_left in *. cbn [threads regs].
        rewrite turns_left_app.
        pose proof (code_turns_le
                      (is_loaded (regs m (0 + List.length (threads m))%nat))
                      (sendGetRequestTask (Z.of_nat L + 1) (http L))).
        pose proof (task_code_turns (Z.of_nat L + 1) (http L)). lia.
    - reflexivity.
    - split; [now apply split_inv_start|]. cbn. lia. }
  pose proof (launch_split_sched http API_ENDPOINTS 0
                (NUM_ENDPOINTS API_ENDPOINTS) sched
                (mkMachine [] no_registers s1)) as Hsched.
  assert (Hrun : forall more,
            run_cycle_split API_ENDPOINTS http (sched ++ more) s =
            wait_tasks_split
              (skipn n sched ++ more)
              (snd (launch_tasks_split API_ENDPOINTS 0
                      (NUM_ENDPOINTS API_ENDPOINTS) http sched
                      (mkMachine [] no_registers s1)))).
  { intros more. unfold run_cycle_split. fold s1.
    rewrite launch_split_app, Hsched; [reflexivity|].
    fold n. rewrite length_skipn in Hlong. unfold TASK_TURNS in Hlong. lia. }
  pose proof (Hrun []) as Hrun0. rewrite !app_nil_r in Hrun0.
  set (m := snd (launch_tasks_split API_ENDPOINTS 0
                   (NUM_ENDPOINTS API_ENDPOINTS) http sched
                   (mkMachine [] no_registers s1))) in *.
  cbn [Nat.add] in Hlaunch. destruct Hlaunch as [Hinv Hleft].
  destruct (wait_split_keeps (split_inv http n s)) with
    (L := n) (sched := skipn n sched) (m := m) as [Hend Hact].
  { intros L k m2. apply split_inv_step. }
  { intros L m2 e [-> | ->]; now apply split_inv_emit. }
  { exact Hinv. }
  assert (Hcases :
            fst (wait_tasks_split (skipn n sched) m) = true \/
            (fst (wait_tasks_split (skipn n sched) m) = false /\
             turns_left (snd (wait_tasks_split (skipn n sched) m)) = 0%nat /\
             forall more,
               fst (wait_tasks_split (skipn n sched ++ more) m) = false))
    by (apply (wait_split_fair http n s); [exact Hinv|exact Hfair|lia]).
  assert (Hmain :
            (exists s',
               pollEndpoints_split API_ENDPOINTS WL_CONNECTED http sched s
               = Some s') \/
            (fst (wait_tasks_split (skipn n sched) m) = false /\
             turns_left (snd (wait_tasks_split (skipn n sched) m)) = 0%nat /\
             forall more,
               pollEndpoints_split API_ENDPOINTS WL_CONNECTED http
                                   (sched ++ more) s = None)).
  { destruct Hcases as [Hdone | (Hwait & H0 & Hever)]; [left|right].
    - rewrite poll_split_left, Hrun0, Hdone. eexists. reflexivity.
    - split; [exact Hwait|]. split; [exact H0|].
      intros more. rewrite poll_split_left, Hrun, Hever. reflexivity. }
  split.
  - destruct Hmain as [Hsome | (Hwait & H0 & Hnever)]; [now left|right].
    rewrite Hrun0. rewrite Hwait in Hact.
    split; [exact (turns_left_zero _ _ 0%nat H0)|]. split; [exact Hact|].
    exact Hnever.
  - intros Hone.
    destruct Hmain as [Hsome | (Hwait & H0 & _)]; [exact Hsome|exfalso].
    rewrite Hwait in Hact.
    destruct Hend as (_ & _ & _ & Hc & _).
    destruct Hc as (_ & Hca & Hca' & _).
    unfold undecremented in *.
    assert (Hpd : pending is_dec
                    (threads (snd (wait_tasks_split (skipn n sched) m)))
                  = 0%nat).
    { apply pending_zero. intros code Hin.
      pose proof (proj1 (Forall_forall _ _)
                        (turns_left_zero _ _ 0%nat H0) code Hin) as ->.
      reflexivity. }
    rewrite Hpd in *. lia.
Qed.

End Firmware.

(** * Examples

    The theorems at concrete inputs, with [WL_CONNECTED = 3],
    [HTTP_CODE_OK = 200], [HTTPC_ERROR_CONNECTION_REFUSED = -1],
    [HTTPC_ERROR_CONNECTION_LOST = -5] and [HTTPC_ERROR_READ_TIMEOUT = -11]. *)

(** A worker that gets status 500 while two workers are pending. *)
Lemma record_outcome_http_500 :
  exists s',
    run_code 1 (sendGetRequestTask 200 (-1) (-5) (-11) 1 http_500) two_pending
      = Some s' /\
    activeRequests s' = 1 /\ failedRequests s' = 1 /\ red_led s' = HIGH.
Proof.
  destruct (record_outcome 200 (-1) (-5) (-11) 1%nat 1 http_500 two_pending)
    as (s' & Hrun & Ha & Hfail & _).
  - reflexivity.
  - unfold INT_MIN, INT_MAX; simpl; lia.
  - unfold INT_MIN, INT_MAX; simpl; lia.
  - exists s'. destruct (Hfail eq_refl) as [Hf Hr]. auto.
Defined.

(** Status 404 is an HttpError and counts as a failure. *)
Lemma classification_http_404 :
  exists s',
    run_code 1 (sendGetRequest 200 (-1) (-5) (-11) 1 (mkHttp true 404 0))
      two_pending = Some s' /\
    In (Serial (MsgHttpError 1 404)) (new_events two_pending s') /\
    failedRequests s' = 1.
Proof.
  destruct (classification 200 (-1) (-5) (-11) 1%nat 1 404 0 two_pending)
    as (s' & Hrun & _ & Hin & Hf & _).
  - reflexivity.
  - unfold INT_MIN, INT_MAX; simpl; lia.
  - exists s'. auto.
Defined.



(** A poll while the link is down (status 6). *)
Lemma poll_without_link_status_6 :
  exists s',
    pollEndpoints 3 200 (-1) (-5) (-11) two_endpoints 6 first_fails [] two_pending
      = Some s' /\
    red_led s' = HIGH /\ activeRequests s' = 2 /\ failedRequests s' = 0.
Proof.
  destruct (poll_without_link 3 200 (-1) (-5) (-11) two_endpoints 6
              first_fails [] two_pending)
    as (s' & Hpoll & _ & _ & Hred & Ha & Hf & _).
  - discriminate.
  - reflexivity.
  - exists s'. auto.
Defined.

(** Reset to 2, then two successes; reset to 2, then two failures. *)
Lemma reset_then_record_two :
  (exists s',
     run_workers 200 (-1) (-5) (-11) 0 [http_200; http_200]
       (reset_counters 2 boot_state) = Some s' /\
     failedRequests s' = 0 /\ isComplete s' = true) /\
  (exists s',
     run_workers 200 (-1) (-5) (-11) 0 [http_500; http_timeout]
       (reset_counters 2 boot_state) = Some s' /\
     failedRequests s' = 2 /\ isComplete s' = true).
Proof.
  split.
  - destruct (reset_then_record 200 (-1) (-5) (-11) 2 [http_200; http_200]
                boot_state) as [Hall _]; try reflexivity.
    + unfold INT_MAX; simpl; lia.
    + destruct (Hall eq_refl) as (s' & Hrun & Hf & _ & Hc).
      exists s'. auto.
  - destruct (reset_then_record 200 (-1) (-5) (-11) 2 [http_500; http_timeout]
                boot_state) as [_ Hnone]; try reflexivity.
    + unfold INT_MAX; simpl; lia.
    + destruct (Hnone eq_refl) as (s' & Hrun & Hf & _ & Hc).
      exists s'. auto.
Defined.

(** The link comes up after two attempts. *)
Lemma connect_after_two_attempts :
  new_events boot_state (connectToWiFi 3 (connected_from 2) boot_state) =
    [Serial MsgConnecting; WiFiBegin] ++ attempts 2 ++
    [Serial MsgWiFiConnected; DigitalWrite RED_LED_PIN LOW] ++ pulses 3 200 /\
  count is_blue_on
    (new_events boot_state (connectToWiFi 3 (connected_from 2) boot_state))
    = 3%nat /\
  red_led (connectToWiFi 3 (connected_from 2) boot_state) = LOW /\
  blue_led (connectToWiFi 3 (connected_from 2) boot_state) = LOW.
Proof.
  apply (proj1 (proj2 (connectToWiFi_establish 3 (connected_from 2) boot_state))
           2%nat).
  - lia.
  - intros [|[|j]] Hj; [discriminate|discriminate|lia].
  - reflexivity.
  - reflexivity.
Defined.

(** The link is recorded as connected, is lost and comes back. *)
Lemma link_edges_flap :
  count is_lost_edge (new_events two_pending (run_checks 3 link_flap two_pending))
    = 1%nat /\
  count is_reconnected_edge
    (new_events two_pending (run_checks 3 link_flap two_pending)) = 1%nat.
Proof.
  destruct (link_edges 3 link_flap two_pending 0 0 0 eq_refl)
    as (Hlost & Hrec & _).
  split; [exact Hlost|exact Hrec].
Defined.

(** C8 as stated fails: from boot, the same three checks print the
    reconnected line twice, once at the first check although the link was
    never lost. *)
Lemma boot_reconnected_twice :
  observations 3 link_flap boot_state = [true; false; true] /\
  count is_lost_edge (new_events boot_state (run_checks 3 link_flap boot_state))
    = 1%nat /\
  count is_reconnected_edge
    (new_events boot_state (run_checks 3 link_flap boot_state)) = 2%nat.
Proof. repeat split; reflexivity. Qed.

(** The state after a setup in which the link did not come up. *)
Lemma blue_led_after_setup :
  exists s,
    setup 3 200 (-1) (-5) (-11) two_endpoints never_connected 6 idle_poll 16100
      boot_state = Some s /\
    blue_led s = LOW /\
    forall times delayMs : Z, blue_led (blinkBlueLED times delayMs s) = LOW.
Proof.
  eexists. split; [reflexivity|].
  apply (blue_led_never_latched 3 200 (-1) (-5) (-11) two_endpoints).
  apply (reach_setup 3 200 (-1) (-5) (-11) two_endpoints
           boot_state never_connected 6 idle_poll 16100).
  reflexivity.
Defined.


(** The scenarios of section 8 of the specification: two endpoints, the
    first returns 200 and the second 500; two endpoints, both time out. *)
Example scenario_200_then_500 :
  exists s',
    pollEndpoints 3 200 (-1) (-5) (-11) two_endpoints 3 second_fails
      (serial_schedule 2 [0; 1]%nat) boot_state = Some s' /\
    last (trace s') WiFiBegin = Serial (MsgCycleFailed 1) /\
    red_led s' = HIGH.
Proof. eexists. split; [vm_compute; reflexivity|]. split; reflexivity. Qed.

Example scenario_two_timeouts :
  exists s',
    pollEndpoints 3 200 (-1) (-5) (-11) two_endpoints 3 (fun _ => http_timeout)
      (serial_schedule 2 [0; 1]%nat) boot_state = Some s' /\
    last (trace s') WiFiBegin = Serial (MsgCycleFailed 2) /\
    red_led s' = HIGH /\
    count is_blue_on (trace s') = 0%nat /\ blue_led s' = LOW.
Proof.
  eexists. split; [vm_compute; reflexivity|]. repeat split; reflexivity.
Qed.


(** ** Further examples *)

(** A check 796 ms after the last one does nothing; a check 1500 ms after it,
    when [millis()] has wrapped round to 1204, is made. *)
Lemma check_gate_after_wrap :
  check 3 (mkCheck 500 6 never_connected) before_wrap = before_wrap /\
  lastCheckTime (check 3 (mkCheck 1204 3 never_connected) before_wrap) = 1204 /\
  wasConnected (check 3 (mkCheck 1204 3 never_connected) before_wrap) = true.
Proof.
  split.
  - apply (check_gate_rollover 3 (mkCheck 500 6 never_connected) before_wrap 796);
      [lia|reflexivity|lia].
  - apply (check_gate_rollover 3 (mkCheck 1204 3 never_connected) before_wrap
             1500); [lia|reflexivity|lia].
Defined.

(** The link was recorded as connected and is found down; connectToWiFi gives
    up after 30 attempts. *)
Lemma check_link_down_gives_up :
  wasConnected (check 3 (mkCheck 2000 6 never_connected) two_pending) = false /\
  count is_lost_edge
    (new_events two_pending
       (check 3 (mkCheck 2000 6 never_connected) two_pending)) = 1%nat /\
  red_led (check 3 (mkCheck 2000 6 never_connected) two_pending) = HIGH /\
  count is_attempt_delay
    (new_events two_pending
       (check 3 (mkCheck 2000 6 never_connected) two_pending)) = 30%nat.
Proof.
  destruct (check_link_down 3 (mkCheck 2000 6 never_connected) two_pending)
    as (Hw & _ & Hlost & Hnever & _).
  - reflexivity.
  - discriminate.
  - destruct Hnever as [Hred Hn]; [discriminate|]. auto.
Defined.

(** A request that times out. *)
Lemma task_every_path_timeout :
  exists s',
    run_code 1 (sendGetRequestTask 200 (-1) (-5) (-11) 1 http_timeout)
      two_pending = Some s' /\
    count is_take_event (new_events two_pending s') = 1%nat /\
    count is_give_event (new_events two_pending s') = 1%nat /\
    count is_failed_write (new_events two_pending s') = 1%nat /\
    exclusive false (new_events two_pending s') = Some false.
Proof.
  destruct (task_every_path 200 (-1) (-5) (-11) 1%nat 1 http_timeout
              two_pending eq_refl)
    as (s' & Hrun & _ & Htake & Hgive & _ & Hfail & Hex & _).
  exists s'. auto.
Defined.

Lemma failure_detail_lines_timeout :
  exists s',
    run_code 1 (sendGetRequest 200 (-1) (-5) (-11) 1 http_timeout)
      two_pending = Some s' /\
    count is_detail_line (new_events two_pending s') = 1%nat /\
    In (Serial (MsgReadTimeout 1)) (new_events two_pending s').
Proof.
  destruct (failure_detail_lines 200 (-1) (-5) (-11) 1%nat 1 http_timeout
              two_pending eq_refl)
    as (s' & Hrun & _ & Hfailed).
  destruct (Hfailed eq_refl) as (Hcount & _ & _ & Htimeout).
  - simpl; lia.
  - exists s'. split; [exact Hrun|]. split; [exact Hcount|].
    apply Htimeout; [discriminate|discriminate|reflexivity].
Defined.

(** A success and a failure, recorded in either order. *)
Lemma workers_order_irrelevant_swap :
  exists s1 s2,
    run_workers 200 (-1) (-5) (-11) 0 [http_200; http_500]
      (reset_counters 2 boot_state) = Some s1 /\
    run_workers 200 (-1) (-5) (-11) 0 [http_500; http_200]
      (reset_counters 2 boot_state) = Some s2 /\
    tally s1 = tally s2.
Proof.
  apply (workers_order_irrelevant 200 (-1) (-5) (-11)
           [http_200; http_500] [http_500; http_200] 0 0 boot_state).
  - apply perm_swap.
  - unfold INT_MAX; simpl; lia.
  - reflexivity.
Defined.

(** The schedule in which the tasks overlap. *)
Lemma cycle_exclusive_racy :
  exists s',
    pollEndpoints 3 200 (-1) (-5) (-11) two_endpoints 3 first_fails
      racy_schedule boot_state = Some s' /\
    exclusive false (new_events boot_state s') = Some false.
Proof.
  eexists. split; [vm_compute; reflexivity|].
  apply (cycle_exclusive 3 200 (-1) (-5) (-11) two_endpoints first_fails
           racy_schedule).
  - reflexivity.
  - unfold NUM_ENDPOINTS, INT_MAX; simpl; lia.
  - vm_compute; reflexivity.
Defined.

Lemma tasks_created_two :
  exists s',
    pollEndpoints 3 200 (-1) (-5) (-11) two_endpoints 3 first_fails
      racy_schedule boot_state = Some s' /\
    filter is_task_create (new_events boot_state s') =
      [TaskCreate 1; TaskCreate 2].
Proof.
  eexists. split; [vm_compute; reflexivity|].
  apply (tasks_created 3 200 (-1) (-5) (-11) two_endpoints first_fails
           racy_schedule).
  vm_compute; reflexivity.
Defined.

(** The mutex after a setup in which the link did not come up. *)
Lemma mutex_free_after_setup :
  exists s,
    setup 3 200 (-1) (-5) (-11) two_endpoints never_connected 6 idle_poll 16100
      boot_state = Some s /\
    ledMutex s = None.
Proof.
  eexists. split; [reflexivity|].
  apply (mutex_free_when_idle 3 200 (-1) (-5) (-11) two_endpoints).
  - unfold NUM_ENDPOINTS, INT_MAX; simpl; lia.
  - apply (reach_setup 3 200 (-1) (-5) (-11) two_endpoints
             boot_state never_connected 6 idle_poll 16100).
    reflexivity.
Defined.

(** 30.5 s after the last poll, when [millis()] has wrapped round to 30204,
    the link is down: the poll time is set and no task is created. *)
Lemma loop_poll_gate_after_wrap :
  exists s',
    loop 3 200 (-1) (-5) (-11) two_endpoints
      (mkCheck 30204 6 never_connected) 30204 down_poll before_wrap = Some s' /\
    lastPollTime s' = 30204 /\
    red_led s' = HIGH /\
    count is_task_create (new_events before_wrap s') = 0%nat.
Proof.
  destruct (loop_poll_gate 3 200 (-1) (-5) (-11) two_endpoints
              (mkCheck 30204 6 never_connected) 30204 down_poll before_wrap
              30500) as [_ Hdue].
  - lia.
  - reflexivity.
  - reflexivity.
  - destruct Hdue as (s' & Hloop & Hp & Hred & _ & Htc & _).
    + unfold POLL_INTERVAL_MS; lia.
    + discriminate.
    + exists s'. auto.
Defined.

(** A setup in which the link does not come up. *)
Lemma setup_outcome_no_link :
  exists s',
    setup 3 200 (-1) (-5) (-11) two_endpoints never_connected 6 idle_poll 16100
      boot_state = Some s' /\
    lastPollTime s' = 0 /\
    wasConnected s' = false /\
    count is_task_create (new_events boot_state s') = 0%nat.
Proof.
  eexists. split; [vm_compute; reflexivity|].
  destruct (setup_outcome 3 200 (-1) (-5) (-11) two_endpoints never_connected
              6 idle_poll 16100 boot_state _
              ltac:(unfold NUM_ENDPOINTS, INT_MAX; simpl; lia)
              ltac:(vm_compute; reflexivity))
    as (_ & Hw & _ & Hp & Hno).
  destruct Hno as (_ & Htc & _); [discriminate|].
  split; [exact Hp|]. split; [exact Hw|exact Htc].
Defined.

(** Two requests that time out, and an increment of [failedRequests] that is
    lost: the cycle completes and reports one failure. *)
Lemma cycle_barrier_lost_increment :
  exists m',
    poll_cycle_split 3 200 (-1) (-5) (-11) two_endpoints 3
      (fun _ => http_timeout) lost_increment boot_state = Some m' /\
    failedRequests (shared m') = 1 /\
    threads m' = [[]; []] /\
    ledMutex (shared m') = None /\
    activeRequests (shared m') = 0 /\
    1 <= failedRequests (shared m') <= 2 /\
    last (trace (shared m')) WiFiBegin =
      Serial (MsgCycleFailed (failedRequests (shared m'))).
Proof.
  edestruct (cycle_barrier 3 200 (-1) (-5) (-11) two_endpoints
               (fun _ => http_timeout) lost_increment boot_state)
    as (_ & _ & _ & Hfree & Ha & Hf & Hlast).
  - reflexivity.
  - unfold NUM_ENDPOINTS, INT_MAX; simpl; lia.
  - vm_compute; reflexivity.
  - eexists. split; [vm_compute; reflexivity|].
    split; [reflexivity|]. split; [reflexivity|].
    split; [exact Hfree|]. split; [exact Ha|]. split; [exact Hf|exact Hlast].
Defined.

(** The same cycle: the red LED is on at its end. *)
Lemma alike_results_two_timeouts :
  exists s',
    pollEndpoints_split 3 200 (-1) (-5) (-11) two_endpoints 3
      (fun _ => http_timeout) lost_increment boot_state = Some s' /\
    red_led s' = HIGH /\ 1 <= failedRequests s' <= 2.
Proof.
  eexists. split; [vm_compute; reflexivity|].
  apply (alike_results_any_schedule 3 200 (-1) (-5) (-11) two_endpoints
           (fun _ => http_timeout) false lost_increment boot_state).
  - reflexivity.
  - unfold NUM_ENDPOINTS, INT_MAX; simpl; lia.
  - discriminate.
  - reflexivity.
  - vm_compute; reflexivity.
Defined.

(** Two requests that time out, and a decrement of [activeRequests] that is
    lost: both tasks run to their end, [activeRequests] stays at 1 and
    pollEndpoints does not return. *)
Lemma fair_cycle_hangs :
  pollEndpoints_split 3 200 (-1) (-5) (-11) two_endpoints 3
    (fun _ => http_timeout) lost_decrement boot_state = None /\
  activeRequests
    (shared (snd (run_cycle_split 200 (-1) (-5) (-11) two_endpoints
                    (fun _ => http_timeout) lost_decrement boot_state))) = 1 /\
  forall more,
    pollEndpoints_split 3 200 (-1) (-5) (-11) two_endpoints 3
      (fun _ => http_timeout) (lost_decrement ++ more) boot_state = None.
Proof.
  destruct (fair_cycle_outcome 3 200 (-1) (-5) (-11) two_endpoints
              (fun _ => http_timeout) lost_decrement boot_state)
    as [[[s' Hsome] | (_ & _ & Hnever)] _].
  - reflexivity.
  - unfold NUM_ENDPOINTS, INT_MAX; simpl; lia.
  - simpl. repeat (constructor; [reflexivity|]). constructor.
  - unfold TASK_TURNS; simpl; lia.
  - vm_compute in Hsome. discriminate.
  - split; [vm_compute; reflexivity|]. split; [vm_compute; reflexivity|].
    exact Hnever.
Defined.
